(** * moviepy-go: process supervision, raw-frame streaming and compositing

    A shallow embedding of the parts of the repository that carry the
    specified behaviour:

    - [pkg/ffmpeg/process.go]  : [ProcessManager], [VideoReader]
    - [pkg/ffmpeg/writer.go]   : [VideoWriter]
    - [pkg/video] (clip file)  : [VideoFileClip]
    - [pkg/effects/effects.go] : [ResizeEffect], [CropEffect], [BrightnessEffect],
                                 [ContrastEffect], [RotateEffect]
    - [pkg/compositing]        : [CompositeVideoClip]

    Go's [int] and [time.Duration] are 64-bit two's-complement integers,
    [uint32]/[uint16]/[uint8] are unsigned; all are carried by [Z] with the
    wrap-around written out.  [float64] is IEEE-754 binary64, carried by
    [spec_float] with precision 53 and maximal exponent 1024. *)

From Stdlib Require Import ZArith QArith Qround Qminmax Lia Bool.
From Stdlib Require Import SpecFloat.
From stdpp Require Import base option list strings gmap fin_maps.

Local Open Scope Z_scope.

(* ===================================================================== *)
(** ** Machine integers *)
(* ===================================================================== *)

Module GoInt.

(** [int] / [int64] / [time.Duration]: signed, 64 bits, wrapping. *)
Definition min_int : Z := - 2 ^ 63.
Definition max_int : Z := 2 ^ 63 - 1.

Definition wrap (z : Z) : Z := (z + 2 ^ 63) mod 2 ^ 64 - 2 ^ 63.

Definition in_range (z : Z) : Prop := min_int <= z <= max_int.

Definition add (a b : Z) : Z := wrap (a + b).
Definition sub (a b : Z) : Z := wrap (a - b).
Definition mul (a b : Z) : Z := wrap (a * b).

(** Go's [/] and [%] truncate toward zero. *)
Definition quo (a b : Z) : Z := wrap (Z.quot a b).
Definition rem (a b : Z) : Z := Z.rem a b.

(** Narrowing conversions [uint8(x)], [uint16(x)], [uint32(x)]. *)
Definition u8 (z : Z) : Z := z mod 2 ^ 8.
Definition u16 (z : Z) : Z := z mod 2 ^ 16.
Definition u32 (z : Z) : Z := z mod 2 ^ 32.

(** The half-open integer interval [lo, hi) walked by a
    [for i := lo; i < hi; i++] loop. *)
Definition range (lo hi : Z) : list Z :=
  List.map (fun i => lo + Z.of_nat i) (seq 0 (Z.to_nat (hi - lo))).

End GoInt.

(** [uint32] arithmetic with a sticky overflow flag: [val] is what the
    machine computes (the result modulo [2^32]); [ovf] records whether any
    operation on the way to it left the range [0, 2^32). *)
Module U32.

Record t : Type := mk { val : Z; ovf : bool }.

Definition lit (z : Z) : t := mk z false.

Definition fits (r : Z) : bool := (0 <=? r) && (r <? 2 ^ 32).

Definition arith (r : Z) (a b : t) : t :=
  mk (r mod 2 ^ 32) (ovf a || ovf b || negb (fits r)).

Definition add (a b : t) : t := arith (val a + val b) a b.
Definition sub (a b : t) : t := arith (val a - val b) a b.
Definition mul (a b : t) : t := arith (val a * val b) a b.

(** Unsigned division; every divisor in the code is the constant 65535. *)
Definition div (a b : t) : t := mk (val a / val b) (ovf a || ovf b).

Definition ltb (a b : t) : bool := val a <? val b.
Definition gtb (a b : t) : bool := val b <? val a.

End U32.

(* ===================================================================== *)
(** ** float64 *)
(* ===================================================================== *)

Module GoFloat.

Definition prec : Z := 53.
Definition emax : Z := 1024.

Abbreviation float64 := spec_float.

Definition mul : float64 -> float64 -> float64 := SFmul prec emax.
Definition div : float64 -> float64 -> float64 := SFdiv prec emax.
Definition add : float64 -> float64 -> float64 := SFadd prec emax.

(** [a > b], [a < b], [a == b], [a != b] on floats (false on NaN, except
    [!=]). *)
Definition gtb (a b : float64) : bool := SFltb b a.
Definition ltb (a b : float64) : bool := SFltb a b.
Definition leb (a b : float64) : bool := SFleb a b.
Definition eqb (a b : float64) : bool := SFeqb a b.
Definition neqb (a b : float64) : bool := negb (SFeqb a b).

(** [float64(i)] for an integer [i]: the nearest double, ties to even. *)
Definition of_int (z : Z) : float64 := binary_normalize prec emax z 0 false.

(** [int(f)] / [time.Duration(f)]: truncation toward zero.  For NaN,
    infinities and values outside the 64-bit range the Go specification
    leaves the result to the implementation; amd64 yields the minimal
    integer, which is what is written here. *)
Definition to_int (f : float64) : Z :=
  match f with
  | S754_zero _ => 0
  | S754_finite s m e =>
      let mag := if 0 <=? e then Z.pos m * 2 ^ e else Z.pos m / 2 ^ (- e) in
      let v := if s then - mag else mag in
      if (GoInt.min_int <=? v) && (v <=? GoInt.max_int) then v
      else GoInt.min_int
  | S754_infinity _ | S754_nan => GoInt.min_int
  end.

(** Literals used by the sources. *)
Definition zero : float64 := S754_zero false.
Definition one : float64 := of_int 1.
Definition two : float64 := of_int 2.
Definition e9 : float64 := of_int 1000000000.

End GoFloat.

(* ===================================================================== *)
(** ** image/color and image.RGBA, as the repository uses them *)
(* ===================================================================== *)

Module Color.

(** The two concrete colour types that occur: [color.RGBA] (8 bits per
    channel) and [color.RGBA64] (16 bits per channel). *)
Inductive t : Type :=
| RGBA (R G B A : Z)
| RGBA64 (R G B A : Z).

#[global] Instance t_eq_dec : EqDecision t.
Proof. solve_decision. Defined.

(** The [RGBA()] method: the four channels on the 16-bit scale. *)
Definition widen (c : Z) : Z := Z.lor c (Z.shiftl c 8).

Definition channels (c : t) : Z * Z * Z * Z :=
  match c with
  | RGBA r g b a => (widen r, widen g, widen b, widen a)
  | RGBA64 r g b a => (r, g, b, a)
  end.

(** [color.RGBAModel.Convert]. *)
Definition toRGBA (c : t) : t :=
  match c with
  | RGBA _ _ _ _ => c
  | RGBA64 r g b a =>
      RGBA (GoInt.u8 (Z.shiftr r 8)) (GoInt.u8 (Z.shiftr g 8))
           (GoInt.u8 (Z.shiftr b 8)) (GoInt.u8 (Z.shiftr a 8))
  end.

(** The zero value [color.RGBA{}]. *)
Definition zero : t := RGBA 0 0 0 0.

(** The four fields as they are stored. *)
Definition fields (c : t) : Z * Z * Z * Z :=
  match c with
  | RGBA r g b a => (r, g, b, a)
  | RGBA64 r g b a => (r, g, b, a)
  end.

(** A colour whose fields fit their type: bytes for [color.RGBA], 16-bit
    values for [color.RGBA64]. *)
Definition wf (c : t) : Prop :=
  match c with
  | RGBA r g b a =>
      0 <= r < 256 /\ 0 <= g < 256 /\ 0 <= b < 256 /\ 0 <= a < 256
  | RGBA64 r g b a =>
      0 <= r < 65536 /\ 0 <= g < 65536 /\ 0 <= b < 65536 /\ 0 <= a < 65536
  end.

End Color.

(* ===================================================================== *)
(** ** Errors, panics and results *)
(* ===================================================================== *)

(** The error values the modelled functions build, one constructor per
    [fmt.Errorf] / [errors.New] site; wrapped causes are arguments. *)
Inductive error : Type :=
  (* causes coming from the operating system or the Go runtime *)
| EOF
| ErrUnexpectedEOF
| ErrOS (code : Z)
  (* pkg/core/errors.go *)
| ErrInvalidTimeRange
| ErrInvalidSpeedFactor
  (* ProcessManager *)
| ErrStartProcess (cause : error)
| ErrNoSuchProcess (pid : Z)
  (* VideoReader *)
| ErrReaderClosed
| ErrVideoNotOpened
| ErrTimeBeyondLength
| ErrStdoutPipe (cause : error)
| ErrStartFFmpeg (cause : error)
| ErrReadPixels (cause : error)
| ErrFFmpegExit (cause : error)
  (* VideoWriter *)
| ErrWriterClosed
| ErrWriterNotOpened
| ErrFrameSize (want_w want_h got_w got_h : Z)
| ErrFFmpegExited (status : option Z)
| ErrWriteFrameExited (status : option Z) (cause : error)
| ErrWriteFrame (cause : error)
  (* clips *)
| ErrClipClosed
| ErrClipNotOpened
| ErrOpenVideo (cause : error)
| ErrNoClips
| ErrBaseFrame (cause : error).

Inductive panic : Type :=
| PanicMakeLen          (* make([]byte, n) with n < 0 *)
| PanicIndex            (* index out of range *)
| PanicHugeImage        (* image.NewRGBA: huge or negative dimensions *)
| PanicNilPosition      (* a nil position dereferenced *)
| PanicNilFrame.        (* a method called on a nil frame *)

Inductive outcome (A : Type) : Type :=
| Ok (a : A)
| Err (e : error)
| Panic (p : panic).
Arguments Ok {A} a.
Arguments Err {A} e.
Arguments Panic {A} p.

#[global] Instance outcome_ret : MRet outcome := fun _ a => Ok a.
#[global] Instance outcome_bind : MBind outcome := fun _ _ k m =>
  match m with
  | Ok a => k a
  | Err e => Err e
  | Panic p => Panic p
  end.

Definition is_ok {A} (o : outcome A) : bool :=
  match o with Ok _ => true | _ => false end.

Definition is_err {A} (o : outcome A) : bool :=
  match o with Err _ => true | _ => false end.

(** The result of a function whose error values are kept apart from the
    list above: [E] is the type of its error values. *)
Inductive result (E A : Type) : Type :=
| Done (a : A)
| Failed (e : E)
| Panicked (p : panic).
Arguments Done {E A} a.
Arguments Failed {E A} e.
Arguments Panicked {E A} p.

(** A [for] loop over the indices [l] whose body may fail. *)
Fixpoint for_each {S : Type} (l : list Z) (body : Z -> S -> outcome S)
    (s : S) : outcome S :=
  match l with
  | [] => Ok s
  | i :: l' => s' ← body i s; for_each l' body s'
  end.

(** The same for a body that cannot fail. *)
Definition for_loop {S : Type} (l : list Z) (body : Z -> S -> S) (s : S) : S :=
  fold_left (fun acc i => body i acc) l s.

Module Image.

Record Rectangle : Type :=
  mkRect { MinX : Z; MinY : Z; MaxX : Z; MaxY : Z }.

#[global] Instance Rectangle_eq_dec : EqDecision Rectangle.
Proof. solve_decision. Defined.

(** [image.Rect]: the corners are put in order. *)
Definition Rect (x0 y0 x1 y1 : Z) : Rectangle :=
  let '(x0, x1) := if x1 <? x0 then (x1, x0) else (x0, x1) in
  let '(y0, y1) := if y1 <? y0 then (y1, y0) else (y0, y1) in
  mkRect x0 y0 x1 y1.

Definition Dx (r : Rectangle) : Z := GoInt.sub (MaxX r) (MinX r).
Definition Dy (r : Rectangle) : Z := GoInt.sub (MaxY r) (MinY r).

(** [Point{x, y}.In(r)]. *)
Definition In (x y : Z) (r : Rectangle) : bool :=
  (MinX r <=? x) && (x <? MaxX r) && (MinY r <=? y) && (y <? MaxY r).

(** The type [image.RGBA], observed through [Bounds], [At] and [Set].  The pixel
    buffer is kept as a finite map from points to the four stored bytes
    (R, G, B, A); a point that was never written holds zeros, as in a
    freshly made buffer.  Every frame the repository makes is an
    [image.RGBA] obtained from [image.NewRGBA]. *)
Record RGBA : Type :=
  mkRGBA { Pix : gmap (Z * Z) (Z * Z * Z * Z); Bounds : Rectangle }.

(** [mul3NonNeg] of the image package: the product, or -1 when an
    argument is negative or the product does not fit. *)
Definition mul3NonNeg (x y z : Z) : Z :=
  if (x <? 0) || (y <? 0) || (z <? 0) then -1
  else if 2 ^ 64 <=? x * y then -1
  else if 2 ^ 64 <=? x * y * z then -1
  else if 2 ^ 63 <=? x * y * z then -1
  else x * y * z.

(** [image.NewRGBA]: panics when the byte length of the buffer,
    [4 * Dx * Dy], is negative or does not fit an [int]. *)
Definition NewRGBA (r : Rectangle) : outcome RGBA :=
  if mul3NonNeg 4 (Dx r) (Dy r) <? 0 then Panic PanicHugeImage
  else Ok (mkRGBA ∅ r).

(** The [At] method of [RGBA]. *)
Definition At (p : RGBA) (x y : Z) : Color.t :=
  if In x y (Bounds p) then
    match Pix p !! (x, y) with
    | Some (r, g, b, a) => Color.RGBA r g b a
    | None => Color.zero
    end
  else Color.zero.

(** The [Set] method of [RGBA]: nothing happens outside the bounds; inside, the colour
    is converted to [color.RGBA] and stored. *)
Definition Set_ (p : RGBA) (x y : Z) (c : Color.t) : RGBA :=
  if In x y (Bounds p) then
    mkRGBA (<[(x, y) := Color.fields (Color.toRGBA c)]> (Pix p)) (Bounds p)
  else p.

(** What [At] reads back after [Set_] has stored [c]. *)
Definition stored (c : Color.t) : Color.t :=
  let '(r, g, b, a) := Color.fields (Color.toRGBA c) in Color.RGBA r g b a.

(** A frame whose buffer length, [4 * Dx * Dy], fits an [int]; every frame
    made by [NewRGBA] is one. *)
Definition well_sized (p : RGBA) : Prop :=
  0 <= mul3NonNeg 4 (Dx (Bounds p)) (Dy (Bounds p)).

End Image.

(* ===================================================================== *)
(** ** The frame store *)
(* ===================================================================== *)

(** Frames are handled through pointers: a frame handed out by a clip may
    be kept and handed out again.  The store maps the address of every live
    frame buffer to its contents. *)
Module Store.

Abbreviation loc := positive.
Abbreviation t := (gmap positive Image.RGBA).

Definition alloc (σ : t) (p : Image.RGBA) : loc * t :=
  let l := fresh (dom σ) in (l, <[l := p]> σ).

Definition At (σ : t) (l : loc) (x y : Z) : Color.t :=
  match σ !! l with
  | Some p => Image.At p x y
  | None => Color.zero
  end.

Definition Set_ (σ : t) (l : loc) (x y : Z) (c : Color.t) : t :=
  match σ !! l with
  | Some p => <[l := Image.Set_ p x y c]> σ
  | None => σ
  end.

Definition Bounds (σ : t) (l : loc) : Image.Rectangle :=
  match σ !! l with
  | Some p => Image.Bounds p
  | None => Image.mkRect 0 0 0 0
  end.

End Store.

(* ===================================================================== *)
(** ** pkg/compositing: CompositeVideoClip *)
(* ===================================================================== *)

Module CompositeVideoClip.

(** [type CompositeMode int] with its [iota] constants. *)
Definition CompositeMode : Type := Z.
Definition Overlay : CompositeMode := 0.
Definition Add : CompositeMode := 1.
Definition Multiply : CompositeMode := 2.
Definition Screen : CompositeMode := 3.
Definition Darken : CompositeMode := 4.
Definition Lighten : CompositeMode := 5.

Definition c65535 : U32.t := U32.lit 65535.

Definition blendOverlay (base overlay : U32.t) : U32.t :=
  if U32.ltb base (U32.lit 32768) then
    U32.div (U32.mul (U32.mul (U32.lit 2) base) overlay) c65535
  else
    U32.sub c65535
      (U32.div
         (U32.mul (U32.mul (U32.lit 2) (U32.sub c65535 base))
                  (U32.sub c65535 overlay))
         c65535).

Definition blendScreen (base overlay : U32.t) : U32.t :=
  U32.sub c65535
    (U32.div (U32.mul (U32.sub c65535 base) (U32.sub c65535 overlay)) c65535).

Definition clamp (value : U32.t) : U32.t :=
  if U32.gtb value c65535 then U32.mk 65535 (U32.ovf value) else value.

Definition min (a b : U32.t) : U32.t := if U32.ltb a b then a else b.
Definition max (a b : U32.t) : U32.t := if U32.gtb a b then a else b.

(** One colour channel of [blendColors]: the body of the [switch] for the
    channel pair [(c1, c2)]. *)
Definition blendChannel (mode : CompositeMode) (c1 c2 : U32.t) : U32.t :=
  if mode =? Overlay then blendOverlay c1 c2
  else if mode =? Add then clamp (U32.add c1 c2)
  else if mode =? Multiply then U32.div (U32.mul c1 c2) c65535
  else if mode =? Screen then blendScreen c1 c2
  else if mode =? Darken then min c1 c2
  else if mode =? Lighten then max c1 c2
  else c2.

Definition blendColors (base overlay : Color.t) (mode : CompositeMode) : Color.t :=
  let '(r1, g1, b1, _) := Color.channels base in
  let '(r2, g2, b2, a2) := Color.channels overlay in
  let r := blendChannel mode (U32.lit r1) (U32.lit r2) in
  let g := blendChannel mode (U32.lit g1) (U32.lit g2) in
  let b := blendChannel mode (U32.lit b1) (U32.lit b2) in
  Color.RGBA64 (GoInt.u16 (U32.val r)) (GoInt.u16 (U32.val g))
               (GoInt.u16 (U32.val b)) (GoInt.u16 a2).

(** [applyOpacity] hands the colour back as it came. *)
Definition applyOpacity (c : Color.t) (opacity : GoFloat.float64) : Color.t := c.

Record Position : Type := mkPosition {
  X : GoFloat.float64;
  Y : GoFloat.float64;
  Relative : bool;
  Center : bool;
  Scale : GoFloat.float64;
  Rotation : GoFloat.float64;
  Opacity : GoFloat.float64
}.

Definition NewPosition (x y : GoFloat.float64) : Position :=
  mkPosition x y false false GoFloat.one GoFloat.zero GoFloat.one.

Definition NewCenteredPosition : Position :=
  mkPosition GoFloat.zero GoFloat.zero false true GoFloat.one GoFloat.zero GoFloat.one.

(** A [core.VideoClip] as the compositor uses it: its [GetFrame] runs
    against the frame store and yields the address of a frame, or an
    error. *)
Record VideoClip : Type := mkClip {
  clip_GetFrame : Z -> Store.t -> Store.t * outcome Store.loc
}.

Record t : Type := mk {
  clips : list VideoClip;
  positions : list (option Position);
  mode : CompositeMode;
  closed : bool
}.

Definition calculateOffset (baseBounds overlayBounds : Image.Rectangle)
    (position : Position) : Z * Z :=
  let baseWidth := Image.Dx baseBounds in
  let baseHeight := Image.Dy baseBounds in
  let overlayWidth := Image.Dx overlayBounds in
  let overlayHeight := Image.Dy overlayBounds in
  if Center position then
    (GoInt.quo (GoInt.sub baseWidth overlayWidth) 2,
     GoInt.quo (GoInt.sub baseHeight overlayHeight) 2)
  else
    (GoFloat.to_int (X position), GoFloat.to_int (Y position)).

(** [applyTransform]: nearest-neighbour scaling of the layer's frame by
    [position.Scale] into a new frame. *)
Definition applyTransform (frame : Store.loc) (position : option Position)
    (σ : Store.t) : Store.t * outcome Store.loc :=
  match σ !! frame, position with
  | None, _ => (σ, Panic PanicNilFrame)
  | Some _, None => (σ, Panic PanicNilPosition)
  | Some _, Some position =>
      let bounds := Store.Bounds σ frame in
      let width := Image.Dx bounds in
      let height := Image.Dy bounds in
      let targetWidth :=
        GoFloat.to_int (GoFloat.mul (GoFloat.of_int width) (Scale position)) in
      let targetHeight :=
        GoFloat.to_int (GoFloat.mul (GoFloat.of_int height) (Scale position)) in
      match Image.NewRGBA (Image.Rect 0 0 targetWidth targetHeight) with
      | Ok img =>
          let '(transformed, σ1) := Store.alloc σ img in
          let σ2 :=
            for_loop (GoInt.range 0 targetHeight) (fun y σ =>
              for_loop (GoInt.range 0 targetWidth) (fun x σ =>
                let srcX := GoFloat.to_int
                  (GoFloat.div (GoFloat.mul (GoFloat.of_int x) (GoFloat.of_int width))
                               (GoFloat.of_int targetWidth)) in
                let srcY := GoFloat.to_int
                  (GoFloat.div (GoFloat.mul (GoFloat.of_int y) (GoFloat.of_int height))
                               (GoFloat.of_int targetHeight)) in
                let srcX := if width <=? srcX then GoInt.sub width 1 else srcX in
                let srcY := if height <=? srcY then GoInt.sub height 1 else srcY in
                Store.Set_ σ transformed x y (Store.At σ frame srcX srcY)) σ) σ1 in
          (σ2, Ok transformed)
      | Err e => (σ, Err e)
      | Panic p => (σ, Panic p)
      end
  end.

(** [compositeFrame]: blends [overlay] onto [base] in place. *)
Definition compositeFrame (base overlay : Store.loc) (position : Position)
    (mode : CompositeMode) (σ : Store.t) : Store.t :=
  let baseBounds := Store.Bounds σ base in
  let overlayBounds := Store.Bounds σ overlay in
  let '(offsetX, offsetY) := calculateOffset baseBounds overlayBounds position in
  for_loop (GoInt.range (Image.MinY overlayBounds) (Image.MaxY overlayBounds)) (fun y σ =>
    for_loop (GoInt.range (Image.MinX overlayBounds) (Image.MaxX overlayBounds)) (fun x σ =>
      let targetX := GoInt.add offsetX x in
      let targetY := GoInt.add offsetY y in
      if (targetX <? Image.MinX baseBounds) || (Image.MaxX baseBounds <=? targetX)
         || (targetY <? Image.MinY baseBounds) || (Image.MaxY baseBounds <=? targetY)
      then σ
      else
        let baseColor := Store.At σ base targetX targetY in
        let overlayColor := Store.At σ overlay x y in
        let overlayColor :=
          if GoFloat.ltb (Opacity position) GoFloat.one
          then applyOpacity overlayColor (Opacity position)
          else overlayColor in
        let compositeColor := blendColors baseColor overlayColor mode in
        Store.Set_ σ base targetX targetY compositeColor) σ) σ.

(** The first loop of [GetFrame]: every point of the base frame is copied
    into the composite. *)
Definition copyBase (composite baseFrame : Store.loc) (σ : Store.t) : Store.t :=
  let bounds := Store.Bounds σ baseFrame in
  for_loop (GoInt.range (Image.MinY bounds) (Image.MaxY bounds)) (fun y σ =>
    for_loop (GoInt.range (Image.MinX bounds) (Image.MaxX bounds)) (fun x σ =>
      Store.Set_ σ composite x y (Store.At σ baseFrame x y)) σ) σ.

(** The second loop of [GetFrame], [for i := 1; i < len(cvc.clips); i++],
    entered at index [i] with the clips from that index on. *)
Fixpoint blendLayers (cvc : t) (time : Z) (composite : Store.loc)
    (i : nat) (rest : list VideoClip) (σ : Store.t) : Store.t * outcome unit :=
  match rest with
  | [] => (σ, Ok tt)
  | clip :: rest' =>
      match positions cvc !! i with
      | None => (σ, Panic PanicIndex)
      | Some position =>
          let '(σ1, r) := clip_GetFrame clip time σ in
          match r with
          | Panic p => (σ1, Panic p)
          | Err _ => blendLayers cvc time composite (S i) rest' σ1
          | Ok clipFrame =>
              let '(σ2, r2) := applyTransform clipFrame position σ1 in
              match r2, position with
              | Ok transformedFrame, Some pos =>
                  blendLayers cvc time composite (S i) rest'
                    (compositeFrame composite transformedFrame pos (mode cvc) σ2)
              | Panic p, _ => (σ2, Panic p)
              | _, _ => blendLayers cvc time composite (S i) rest' σ2
              end
          end
      end
  end.

Definition GetFrame (cvc : t) (time : Z) (σ : Store.t) : Store.t * outcome Store.loc :=
  if closed cvc then (σ, Err ErrClipClosed)
  else
    match clips cvc with
    | [] => (σ, Err ErrNoClips)
    | clip0 :: rest =>
        let '(σ1, r0) := clip_GetFrame clip0 time σ in
        match r0 with
        | Err e => (σ1, Err (ErrBaseFrame e))
        | Panic p => (σ1, Panic p)
        | Ok baseFrame =>
            match σ1 !! baseFrame, Image.NewRGBA (Store.Bounds σ1 baseFrame) with
            | None, _ => (σ1, Panic PanicNilFrame)
            | Some _, Ok img =>
                let '(composite, σ2) := Store.alloc σ1 img in
                let σ3 := copyBase composite baseFrame σ2 in
                let '(σ4, r) := blendLayers cvc time composite 1 rest σ3 in
                match r with
                | Ok _ => (σ4, Ok composite)
                | Err e => (σ4, Err e)
                | Panic p => (σ4, Panic p)
                end
            | Some _, Err e => (σ1, Err e)
            | Some _, Panic p => (σ1, Panic p)
            end
        end
    end.

(** A clip whose [GetFrame] leaves every frame that already exists as it
    is (it may allocate new ones). *)
Definition preserves_frames (clip : VideoClip) : Prop :=
  forall (time : Z) (σ σ' : Store.t) (r : outcome Store.loc),
    clip_GetFrame clip time σ = (σ', r) -> σ ⊆ σ'.

(** What the copy loop of [GetFrame] makes of the canvas [cimg], given the
    base frame [bimg]. *)
Definition copied (bimg cimg : Image.RGBA) : Image.RGBA :=
  let bounds := Image.Bounds bimg in
  for_loop (GoInt.range (Image.MinY bounds) (Image.MaxY bounds)) (fun y img =>
    for_loop (GoInt.range (Image.MinX bounds) (Image.MaxX bounds)) (fun x img =>
      Image.Set_ img x y (Image.At bimg x y)) img) cimg.

End CompositeVideoClip.

(* ===================================================================== *)
(** ** pkg/effects: ResizeEffect *)
(* ===================================================================== *)

Module ResizeEffect.

Record t : Type := mk { name : string; width : Z; height : Z }.

(** [NewResizeEffect]: [if width%2 != 0 { width++ }], the same for the
    height. *)
Definition NewResizeEffect (width height : Z) : t :=
  let width := if GoInt.rem width 2 =? 0 then width else GoInt.add width 1 in
  let height := if GoInt.rem height 2 =? 0 then height else GoInt.add height 1 in
  mk "resize" width height.

(** [ApplyToFrame]: nearest-neighbour resampling into a new frame of the
    effect's size. *)
Definition ApplyToFrame (re : t) (frame : Image.RGBA) : outcome Image.RGBA :=
  let bounds := Image.Bounds frame in
  let srcWidth := Image.Dx bounds in
  let srcHeight := Image.Dy bounds in
  dst ← Image.NewRGBA (Image.Rect 0 0 (width re) (height re));
  Ok (for_loop (GoInt.range 0 (height re)) (fun y dst =>
        for_loop (GoInt.range 0 (width re)) (fun x dst =>
          let srcX := GoFloat.to_int
            (GoFloat.div (GoFloat.mul (GoFloat.of_int x) (GoFloat.of_int srcWidth))
                         (GoFloat.of_int (width re))) in
          let srcY := GoFloat.to_int
            (GoFloat.div (GoFloat.mul (GoFloat.of_int y) (GoFloat.of_int srcHeight))
                         (GoFloat.of_int (height re))) in
          let srcX := if srcWidth <=? srcX then GoInt.sub srcWidth 1 else srcX in
          let srcY := if srcHeight <=? srcY then GoInt.sub srcHeight 1 else srcY in
          Image.Set_ dst x y (Image.At frame srcX srcY)) dst) dst).

End ResizeEffect.

(* ===================================================================== *)
(** ** float64: further operations and conversions *)
(* ===================================================================== *)

Module FloatConv.

Definition sub : GoFloat.float64 -> GoFloat.float64 -> GoFloat.float64 :=
  SFsub GoFloat.prec GoFloat.emax.

(** [math.Abs]. *)
Definition abs : GoFloat.float64 -> GoFloat.float64 := SFabs.

(** The integer part of a finite float. *)
Definition trunc (f : GoFloat.float64) : option Z :=
  match f with
  | S754_zero _ => Some 0
  | S754_finite s m e =>
      let mag := if 0 <=? e then Z.pos m * 2 ^ e else Z.pos m / 2 ^ (- e) in
      Some (if s then - mag else mag)
  | S754_infinity _ | S754_nan => None
  end.

(** [int32(f)].  As for [int(f)], the result for a value that does not fit
    is left to the implementation; amd64 yields the minimal integer. *)
Definition to_int32 (f : GoFloat.float64) : Z :=
  match trunc f with
  | Some v => if (- 2 ^ 31 <=? v) && (v <? 2 ^ 31) then v else - 2 ^ 31
  | None => - 2 ^ 31
  end.

(** [uint32(f)] and [uint8(f)]: truncation toward zero for a value that
    fits.  For the others amd64 converts to [int64], respectively [int32],
    and keeps the low bits, which is what is written here. *)
Definition to_uint32 (f : GoFloat.float64) : Z := GoInt.u32 (GoFloat.to_int f).
Definition to_uint8 (f : GoFloat.float64) : Z := GoInt.u8 (to_int32 f).

(** Literals: [0.5], [255], [65535.0], [180.0], [2.0] and [math.Pi]. *)
Definition half : GoFloat.float64 := S754_finite false 4503599627370496 (-53).
Definition f255 : GoFloat.float64 := GoFloat.of_int 255.
Definition f65535 : GoFloat.float64 := GoFloat.of_int 65535.
Definition f180 : GoFloat.float64 := GoFloat.of_int 180.
Definition Pi : GoFloat.float64 := S754_finite false 7074237752028440 (-51).

End FloatConv.

(* ===================================================================== *)
(** ** pkg/effects: CropEffect, BrightnessEffect, ContrastEffect, RotateEffect *)
(* ===================================================================== *)

Module CropEffect.

Record t : Type := mk { name : string; x : Z; y : Z; width : Z; height : Z }.

Definition NewCropEffect (x y width height : Z) : t := mk "crop" x y width height.

(** The first part of [ApplyToFrame]: the region is moved and cut to fit a
    source of the given size, and the effect keeps the result. *)
Definition clampTo (srcWidth srcHeight : Z) (ce : t) : t :=
  let x' := if x ce <? 0 then 0 else x ce in
  let y' := if y ce <? 0 then 0 else y ce in
  let width' :=
    if srcWidth <? GoInt.add x' (width ce) then GoInt.sub srcWidth x' else width ce in
  let height' :=
    if srcHeight <? GoInt.add y' (height ce) then GoInt.sub srcHeight y' else height ce in
  mk (name ce) x' y' width' height'.

(** [ApplyToFrame]: the effect as the call leaves it, and the new frame. *)
Definition ApplyToFrame (ce : t) (frame : Image.RGBA) : t * outcome Image.RGBA :=
  let bounds := Image.Bounds frame in
  let srcWidth := Image.Dx bounds in
  let srcHeight := Image.Dy bounds in
  let ce := clampTo srcWidth srcHeight ce in
  (ce,
   dst ← Image.NewRGBA (Image.Rect 0 0 (width ce) (height ce));
   Ok (for_loop (GoInt.range 0 (height ce)) (fun y' dst =>
         for_loop (GoInt.range 0 (width ce)) (fun x' dst =>
           let srcX := GoInt.add (x ce) x' in
           let srcY := GoInt.add (y ce) y' in
           Image.Set_ dst x' y' (Image.At frame srcX srcY)) dst) dst)).

End CropEffect.

Module BrightnessEffect.

Record t : Type := mk { name : string; factor : GoFloat.float64 }.

Definition NewBrightnessEffect (factor : GoFloat.float64) : t := mk "brightness" factor.

(** One channel: [uint32(float64(c) * factor)], cut at 65535. *)
Definition scale (factor : GoFloat.float64) (c : Z) : Z :=
  let n := FloatConv.to_uint32 (GoFloat.mul (GoFloat.of_int c) factor) in
  if 65535 <? n then 65535 else n.

Definition pixel (be : t) (c : Color.t) : Color.t :=
  let '(r, g, b, a) := Color.channels c in
  let newR := scale (factor be) r in
  let newG := scale (factor be) g in
  let newB := scale (factor be) b in
  Color.RGBA (GoInt.u8 (Z.shiftr newR 8)) (GoInt.u8 (Z.shiftr newG 8))
             (GoInt.u8 (Z.shiftr newB 8)) (GoInt.u8 (Z.shiftr a 8)).

Definition ApplyToFrame (be : t) (frame : Image.RGBA) : outcome Image.RGBA :=
  let bounds := Image.Bounds frame in
  let width := Image.Dx bounds in
  let height := Image.Dy bounds in
  dst ← Image.NewRGBA (Image.Rect 0 0 width height);
  Ok (for_loop (GoInt.range 0 height) (fun y dst =>
        for_loop (GoInt.range 0 width) (fun x dst =>
          Image.Set_ dst x y (pixel be (Image.At frame x y))) dst) dst).

End BrightnessEffect.

Module ContrastEffect.

Record t : Type := mk { name : string; factor : GoFloat.float64 }.

Definition NewContrastEffect (factor : GoFloat.float64) : t := mk "contrast" factor.

(** One channel: normalised to [0, 1], stretched about 0.5, cut to
    [0, 1], and turned into a byte by [uint8(new * 255)]. *)
Definition adjust (factor : GoFloat.float64) (c : Z) : Z :=
  let norm := GoFloat.div (GoFloat.of_int c) FloatConv.f65535 in
  let new :=
    GoFloat.add (GoFloat.mul (FloatConv.sub norm FloatConv.half) factor) FloatConv.half in
  let new :=
    if GoFloat.ltb new GoFloat.zero then GoFloat.zero
    else if GoFloat.gtb new GoFloat.one then GoFloat.one
    else new in
  FloatConv.to_uint8 (GoFloat.mul new FloatConv.f255).

Definition pixel (ce : t) (c : Color.t) : Color.t :=
  let '(r, g, b, a) := Color.channels c in
  Color.RGBA (adjust (factor ce) r) (adjust (factor ce) g) (adjust (factor ce) b)
             (GoInt.u8 (Z.shiftr a 8)).

Definition ApplyToFrame (ce : t) (frame : Image.RGBA) : outcome Image.RGBA :=
  let bounds := Image.Bounds frame in
  let width := Image.Dx bounds in
  let height := Image.Dy bounds in
  dst ← Image.NewRGBA (Image.Rect 0 0 width height);
  Ok (for_loop (GoInt.range 0 height) (fun y dst =>
        for_loop (GoInt.range 0 width) (fun x dst =>
          Image.Set_ dst x y (pixel ce (Image.At frame x y))) dst) dst).

End ContrastEffect.

Module RotateEffect.

Record t : Type := mk { name : string; angle : GoFloat.float64 }.

Definition NewRotateEffect (angle : GoFloat.float64) : t := mk "rotate" angle.

(** The four error values of [ApplyToFrame], with the numbers they print. *)
Inductive error : Type :=
| ErrInvalidInputSize (width height : Z)
| ErrInputTooLarge (width height : Z)
| ErrInvalidRotatedSize (newWidth newHeight : Z)
| ErrRotatedTooLarge (newWidth newHeight pixels : Z).

(** [math.Cos] and [math.Sin]: library functions, taken as they come. *)
Record Trig : Type := mkTrig {
  Cos : GoFloat.float64 -> GoFloat.float64;
  Sin : GoFloat.float64 -> GoFloat.float64
}.

(** [if n%2 != 0 { n++ }], and the cut at the maximal dimension. *)
Definition evenUp (n : Z) : Z := if GoInt.rem n 2 =? 0 then n else GoInt.add n 1.

Definition maxDimension : Z := 4096.

Definition cut (n : Z) : Z :=
  if maxDimension <? n then
    let n := maxDimension in
    if GoInt.rem n 2 =? 0 then n else GoInt.sub n 1
  else n.

Definition ApplyToFrame (m : Trig) (re : t) (frame : Image.RGBA)
    : result error Image.RGBA :=
  let bounds := Image.Bounds frame in
  let width := Image.Dx bounds in
  let height := Image.Dy bounds in
  if (width <=? 0) || (height <=? 0) then Failed (ErrInvalidInputSize width height)
  else if (8192 <? width) || (8192 <? height) then Failed (ErrInputTooLarge width height)
  else
    let radians := GoFloat.div (GoFloat.mul (angle re) FloatConv.Pi) FloatConv.f180 in
    let cos := Cos m radians in
    let sin := Sin m radians in
    let absCos := FloatConv.abs cos in
    let absSin := FloatConv.abs sin in
    let newWidth :=
      GoFloat.to_int (GoFloat.add (GoFloat.mul (GoFloat.of_int width) absCos)
                                  (GoFloat.mul (GoFloat.of_int height) absSin)) in
    let newHeight :=
      GoFloat.to_int (GoFloat.add (GoFloat.mul (GoFloat.of_int width) absSin)
                                  (GoFloat.mul (GoFloat.of_int height) absCos)) in
    let newWidth := cut (evenUp newWidth) in
    let newHeight := cut (evenUp newHeight) in
    if (newWidth <=? 0) || (newHeight <=? 0) then
      Failed (ErrInvalidRotatedSize newWidth newHeight)
    else if 16 * 1024 * 1024 <? GoInt.mul newWidth newHeight then
      Failed (ErrRotatedTooLarge newWidth newHeight (GoInt.mul newWidth newHeight))
    else
      match Image.NewRGBA (Image.Rect 0 0 newWidth newHeight) with
      | Panic p => Panicked p
      | Err _ => Panicked PanicHugeImage
      | Ok dst =>
          let centerX := GoFloat.div (GoFloat.of_int width) GoFloat.two in
          let centerY := GoFloat.div (GoFloat.of_int height) GoFloat.two in
          let newCenterX := GoFloat.div (GoFloat.of_int newWidth) GoFloat.two in
          let newCenterY := GoFloat.div (GoFloat.of_int newHeight) GoFloat.two in
          Done (for_loop (GoInt.range 0 newHeight) (fun y dst =>
                  for_loop (GoInt.range 0 newWidth) (fun x dst =>
                    let dx := FloatConv.sub (GoFloat.of_int x) newCenterX in
                    let dy := FloatConv.sub (GoFloat.of_int y) newCenterY in
                    let srcX :=
                      GoFloat.to_int
                        (GoFloat.add (GoFloat.add centerX (GoFloat.mul dx cos))
                                     (GoFloat.mul dy sin)) in
                    let srcY :=
                      GoFloat.to_int
                        (GoFloat.add (FloatConv.sub centerY (GoFloat.mul dx sin))
                                     (GoFloat.mul dy cos)) in
                    if (0 <=? srcX) && (srcX <? width) && (0 <=? srcY) && (srcY <? height)
                    then Image.Set_ dst x y (Image.At frame srcX srcY)
                    else dst) dst) dst)
      end.

End RotateEffect.

(* ===================================================================== *)
(** ** pkg/ffmpeg: VideoReader *)
(* ===================================================================== *)

(** Indexing a byte slice: out of range is a run-time panic. *)
Definition index (l : list Z) (i : Z) : outcome Z :=
  if i <? 0 then Panic PanicIndex
  else match l !! Z.to_nat i with
       | Some v => Ok v
       | None => Panic PanicIndex
       end.

(** [s[i] = v] on a byte slice. *)
Definition assign (l : list Z) (i : Z) (v : Z) : outcome (list Z) :=
  if (i <? 0) || (Z.of_nat (length l) <=? i) then Panic PanicIndex
  else Ok (<[Z.to_nat i := v]> l).

(** The byte at offset [i] of a stream (0 beyond its end). *)
Definition byteAt (s : list Z) (i : Z) : Z := default 0 (s !! Z.to_nat i).

(** [make([]byte, n)]. *)
Definition make_bytes (n : Z) : outcome (list Z) :=
  if n <? 0 then Panic PanicMakeLen else Ok (replicate (Z.to_nat n) 0).

(** [time.Second], in nanoseconds. *)
Definition second : Z := 1000000000.

(** [time.Duration.Seconds]. *)
Definition Seconds (d : Z) : GoFloat.float64 :=
  let sec := GoInt.quo d second in
  let nsec := GoInt.rem d second in
  GoFloat.add (GoFloat.of_int sec) (GoFloat.div (GoFloat.of_int nsec) GoFloat.e9).

Module VideoReader.

Record VideoInfo : Type := mkInfo {
  Duration : GoFloat.float64;
  Width : Z;
  Height : Z;
  FPS : GoFloat.float64;
  HasAudio : bool
}.

Record t : Type := mk { info : option VideoInfo; closed : bool }.

(** What one transcoder invocation will do, as far as [GetFrame] can
    observe it: whether the pipe and the launch succeed, the bytes the
    process writes to its standard output before closing it, and its
    exit status. *)
Record Transcoder : Type := mkTranscoder {
  pipe_err : option error;
  start_err : option error;
  stdout : list Z;
  exit_err : option error
}.

(** What [GetFrame] does to the outside world, oldest first. *)
Inductive action : Type :=
| Spawn (seek : GoFloat.float64)   (* ffmpeg launched with [-ss seek] *)
| Read (n : nat)                   (* n bytes of the pipe put into the buffer *)
| Kill
| Wait.

(** [io.ReadFull(reader, buf)] with [len(buf) = n] on a stream that
    delivers [s] and then ends: the bytes read and the error.  The
    [bufio.Reader] between the pipe and [io.ReadFull] changes neither; what
    it may hold beyond the [n] bytes is dropped with it. *)
Definition ReadFull (n : nat) (s : list Z) : list Z * option error :=
  if (n <=? length s)%nat then (take n s, None)
  else (s, Some (match s with [] => EOF | _ => ErrUnexpectedEOF end)).

(** The colour of the point [(x, y)]: [color.RGBA{r, g, b, 255}] with the
    three bytes at [idx := (y*W + x) * 3]. *)
Definition pixelOf (W : Z) (pixelData : list Z) (x y : Z) : outcome Color.t :=
  let idx := GoInt.mul (GoInt.add (GoInt.mul y W) x) 3 in
  r ← index pixelData idx;
  g ← index pixelData (GoInt.add idx 1);
  b ← index pixelData (GoInt.add idx 2);
  Ok (Color.RGBA r g b 255).

(** The two nested loops that fill the image from [pixelData]. *)
Definition fillImage (W H : Z) (pixelData : list Z) (img : Image.RGBA)
    : outcome Image.RGBA :=
  for_each (GoInt.range 0 H) (fun y img =>
    for_each (GoInt.range 0 W) (fun x img =>
      c ← pixelOf W pixelData x y;
      Ok (Image.Set_ img x y c)) img) img.

Definition GetFrame (vr : t) (time : Z) (env : Transcoder)
    : outcome Image.RGBA * list action :=
  if closed vr then (Err ErrReaderClosed, [])
  else
    match info vr with
    | None => (Err ErrVideoNotOpened, [])
    | Some info =>
        let timestamp := Seconds time in
        if GoFloat.gtb timestamp (Duration info) then (Err ErrTimeBeyondLength, [])
        else
          match pipe_err env, start_err env with
          | Some e, _ => (Err (ErrStdoutPipe e), [])
          | None, Some e => (Err (ErrStartFFmpeg e), [])
          | None, None =>
              let spawned := [Spawn timestamp] in
              match make_bytes (GoInt.mul (GoInt.mul (Width info) (Height info)) 3) with
              | Ok buf =>
                  let '(pixelData, err) := ReadFull (length buf) (stdout env) in
                  let trace := spawned ++ [Read (length pixelData)] in
                  match err with
                  | Some e => (Err (ErrReadPixels e), trace ++ [Kill])
                  | None =>
                      match exit_err env with
                      | Some e => (Err (ErrFFmpegExit e), trace ++ [Wait])
                      | None =>
                          (img ← Image.NewRGBA (Image.Rect 0 0 (Width info) (Height info));
                           fillImage (Width info) (Height info) pixelData img,
                           trace ++ [Wait])
                      end
                  end
              | Err e => (Err e, spawned)
              | Panic p => (Panic p, spawned)
              end
          end
    end.

(** How many transcoder processes a trace launched, and how many bytes it
    took from the pipe. *)
Definition spawns (tr : list action) : nat :=
  foldr (fun a acc => match a with Spawn _ => S acc | _ => acc end) 0%nat tr.

Definition bytesRead (tr : list action) : nat :=
  foldr (fun a acc => match a with Read n => (n + acc)%nat | _ => acc end) 0%nat tr.

End VideoReader.

(* ===================================================================== *)
(** ** pkg/ffmpeg: ProcessManager *)
(* ===================================================================== *)

Module ProcessManager.

Abbreviation ptr := positive.

Inductive Signal : Type := SIGTERM | SIGKILL.

(** [ManagedProcess].  [done] is the content of the channel
    [make(chan error, 1)]: empty, or holding the one exit status ([None]
    for a nil error) that the monitor has sent.  [cancelled] tells
    whether [mp.cancel] has been called. *)
Record ManagedProcess : Type := mkMP {
  pid : Z;
  cancelled : bool;
  done : option (option Z);
  cleanup : bool
}.

(** The statement the monitoring goroutine of a process is at:
    [cmd.Wait(); mp.done <- err], then [delete(pm.processes, mp.pid)],
    then the cleanup call. *)
Inductive MonitorPC : Type := AtWait | AtDelete | AtCleanup | Finished.

(** A process in the operating system's table: running, or terminated
    and not yet waited for. *)
Inductive OsProc : Type := Running | Exited (status : option Z).

(** The manager together with what it shares with its goroutines and the
    operating system. *)
Record World : Type := mkWorld {
  processes : gmap Z positive;           (* pm.processes *)
  ctx_done : bool;                       (* pm.ctx has been cancelled *)
  heap : gmap positive ManagedProcess;   (* the ManagedProcess objects *)
  monitors : gmap positive MonitorPC;    (* one monitor per started process *)
  os : gmap Z OsProc;                    (* process table *)
  signals : list (Z * Signal);           (* signals sent to groups, newest first *)
  cleaned : list Z                       (* pids whose cleanup has run *)
}.

Definition set_processes (f : gmap Z positive -> gmap Z positive) (w : World) : World :=
  mkWorld (f (processes w)) (ctx_done w) (heap w) (monitors w) (os w) (signals w) (cleaned w).
Definition set_ctx_done (b : bool) (w : World) : World :=
  mkWorld (processes w) b (heap w) (monitors w) (os w) (signals w) (cleaned w).
Definition set_heap (f : gmap positive ManagedProcess -> gmap positive ManagedProcess)
    (w : World) : World :=
  mkWorld (processes w) (ctx_done w) (f (heap w)) (monitors w) (os w) (signals w) (cleaned w).
Definition set_monitors (f : gmap positive MonitorPC -> gmap positive MonitorPC)
    (w : World) : World :=
  mkWorld (processes w) (ctx_done w) (heap w) (f (monitors w)) (os w) (signals w) (cleaned w).
Definition set_os (f : gmap Z OsProc -> gmap Z OsProc) (w : World) : World :=
  mkWorld (processes w) (ctx_done w) (heap w) (monitors w) (f (os w)) (signals w) (cleaned w).
Definition send_signal (pgid : Z) (s : Signal) (w : World) : World :=
  mkWorld (processes w) (ctx_done w) (heap w) (monitors w) (os w)
          ((pgid, s) :: signals w) (cleaned w).
Definition add_cleaned (p : Z) (w : World) : World :=
  mkWorld (processes w) (ctx_done w) (heap w) (monitors w) (os w) (signals w)
          (p :: cleaned w).

(** [NewProcessManager]: an empty registry, a live context. *)
Definition NewProcessManager : World :=
  mkWorld ∅ false ∅ ∅ ∅ [] [].

(** [syscall.Getpgid(pid)]: every process is started with [Setpgid], so
    it leads its own group; the call fails once the process has been
    waited for. *)
Definition Getpgid (p : Z) (w : World) : option Z :=
  match os w !! p with
  | Some _ => Some p
  | None => None
  end.

(** [syscall.Kill(-pgid, sig)] guarded by [Getpgid], as both call sites
    have it. *)
Definition killGroup (p : Z) (s : Signal) (w : World) : World :=
  match Getpgid p w with
  | Some pgid => send_signal pgid s w
  | None => w
  end.

(** [StartProcess].  [started] is the result of [cmd.Start()]: the pid of
    the new process, or the launch error. *)
Definition StartProcess (started : Z + error) (w : World) : World * outcome ptr :=
  match started with
  | inr e => (w, Err (ErrStartProcess e))
  | inl p =>
      let mp := fresh (dom (heap w)) in
      let w := set_os (insert p Running) w in
      let w := set_heap (insert mp (mkMP p false None false)) w in
      let w := set_processes (insert p mp) w in
      let w := set_monitors (insert mp AtWait) w in
      (w, Ok mp)
  end.

(** One statement of the monitoring goroutine of [mp]; a goroutine that
    cannot proceed leaves the world as it is. *)
Definition monitorStep (mp : ptr) (w : World) : World :=
  match monitors w !! mp, heap w !! mp with
  | Some AtWait, Some m =>
      match os w !! pid m, done m with
      | Some (Exited st), None =>
          let w := set_os (delete (pid m)) w in
          let w := set_heap (insert mp (mkMP (pid m) (cancelled m) (Some st) (cleanup m))) w in
          set_monitors (insert mp AtDelete) w
      | _, _ => w
      end
  | Some AtDelete, Some m =>
      set_monitors (insert mp AtCleanup) (set_processes (delete (pid m)) w)
  | Some AtCleanup, Some m =>
      let w := if cleanup m then add_cleaned (pid m) w else w in
      set_monitors (insert mp Finished) w
  | _, _ => w
  end.

(** [cleanupZombies]: a non-blocking receive on [done] of every
    registered process (the status is only printed). *)
Definition cleanupZombies (w : World) : World :=
  foldr (fun mp w =>
           match heap w !! mp with
           | Some m =>
               match done m with
               | Some _ => set_heap (insert mp (mkMP (pid m) (cancelled m) None (cleanup m))) w
               | None => w
               end
           | None => w
           end) w (map_to_list (processes w)).*2.

(** What happens around the manager while one of its calls is blocked.
    [ReaperTick] is [cleanupRoutine] taking the ticker case of its
    [select] and running [cleanupZombies].  The [select] can take that case
    after [pm.ctx] has been cancelled too (a tick that is ready together
    with [ctx.Done()], or that has already woken the goroutine), so the
    event does not look at [ctx_done]; that the routine returns once it
    takes the [Done] case limits how many such ticks a real schedule holds,
    and is not modelled. *)
Inductive Event : Type :=
| ProcessExits (p : Z) (status : option Z)   (* the process terminates *)
| MonitorRuns (mp : ptr)                     (* a monitor executes its next statement *)
| ReaperTick.                                (* [cleanupRoutine] serves a tick *)

Definition runEvent (e : Event) (w : World) : World :=
  match e with
  | ProcessExits p st =>
      match os w !! p with
      | Some Running => set_os (insert p (Exited st)) w
      | _ => w
      end
  | MonitorRuns mp => monitorStep mp w
  | ReaperTick => cleanupZombies w
  end.

Definition runEvents (es : list Event) (w : World) : World :=
  fold_left (fun w e => runEvent e w) es w.

Definition cancel (mp : ptr) (w : World) : World :=
  match heap w !! mp with
  | Some m => set_heap (insert mp (mkMP (pid m) true (done m) (cleanup m))) w
  | None => w
  end.

(** [TerminateProcess].  [during] is what the goroutines and the
    operating system do while the call is blocked in its [select]; the
    [done] branch is taken when a status has arrived by then, the timer
    branch (5 seconds) otherwise. *)
Definition TerminateProcess (p : Z) (during : list Event) (w : World)
    : World * outcome unit :=
  match processes w !! p with
  | None => (w, Err (ErrNoSuchProcess p))
  | Some mp =>
      let w := cancel mp w in
      let w := killGroup p SIGTERM w in
      let w := runEvents during w in
      match heap w !! mp with
      | Some (mkMP q c (Some _) cl) =>
          (set_heap (insert mp (mkMP q c None cl)) w, Ok tt)
      | _ => (killGroup p SIGKILL w, Ok tt)
      end
  end.

(** [KillAllProcesses]: a snapshot of the registered pids, then
    [TerminateProcess] on each, its result dropped.  [sched p] is what
    goes on while the termination of [p] is blocked.  Go leaves the order
    of a map iteration open; the order of [map_to_list] stands for any of
    them, and nothing proved below depends on it. *)
Definition KillAllProcesses (sched : Z -> list Event) (w : World) : World :=
  let pids := (map_to_list (processes w)).*1 in
  fold_left (fun w p => (TerminateProcess p (sched p) w).1) pids w.


(** [Close]: cancels the manager's context (on which [cleanupRoutine]
    returns when its [select] takes the [Done] case) and kills all
    processes; always returns nil. *)
Definition Close (sched : Z -> list Event) (w : World) : World * outcome unit :=
  (KillAllProcesses sched (set_ctx_done true w), Ok tt).


(** A registered process that is running, with its monitor waiting for it
    and nothing yet sent on [done]. *)
Definition running_entry (w : World) (p : Z) (mp : ptr) : Prop :=
  processes w !! p = Some mp /\
  (exists m, heap w !! mp = Some m /\ pid m = p /\ done m = None) /\
  monitors w !! mp = Some AtWait /\
  os w !! p = Some Running.

(** Every registered process is running and monitored. *)
Definition all_running (w : World) : Prop :=
  forall p mp, processes w !! p = Some mp -> running_entry w p mp.

(** The process exits and its monitor runs as far as the [delete]. *)
Definition exitsAndIsReaped (p : Z) (mp : ptr) (st : option Z) : list Event :=
  [ProcessExits p st; MonitorRuns mp; MonitorRuns mp].


(** [ManagedProcess.IsRunning]: a non-blocking receive on [done]; a status
    that has arrived is taken out of the channel. *)
Definition IsRunning (mp : ptr) (w : World) : World * bool :=
  match heap w !! mp with
  | Some (mkMP q c (Some _) cl) => (set_heap (insert mp (mkMP q c None cl)) w, false)
  | _ => (w, true)
  end.

(** [ManagedProcess.Wait]: a blocking receive on [done].  The call returns
    as soon as the channel holds a status; [during] is what happens while
    it is blocked, and the result is [None] when it is still blocked after
    all of it. *)
Fixpoint Wait (mp : ptr) (during : list Event) (w : World) : option (World * option Z) :=
  match heap w !! mp with
  | Some (mkMP q c (Some st) cl) => Some (set_heap (insert mp (mkMP q c None cl)) w, st)
  | _ =>
      match during with
      | [] => None
      | e :: during' => Wait mp during' (runEvent e w)
      end
  end.

(** [ManagedProcess.Terminate]: cancels the context of the process. *)
Definition Terminate (mp : ptr) (w : World) : World * outcome unit :=
  (cancel mp w, Ok tt).

(** [ManagedProcess.SetCleanup]. *)
Definition SetCleanup (mp : ptr) (w : World) : World :=
  match heap w !! mp with
  | Some m => set_heap (insert mp (mkMP (pid m) (cancelled m) (done m) true)) w
  | None => w
  end.

(** The monitor of [mp] has sent its one status and the channel is empty
    again: nothing will ever arrive on [done]. *)
Definition drained (w : World) (mp : ptr) : Prop :=
  (exists m, heap w !! mp = Some m /\ done m = None) /\
  monitors w !! mp <> Some AtWait.



End ProcessManager.

(* ===================================================================== *)
(** ** pkg/ffmpeg: VideoWriter *)
(* ===================================================================== *)

Module VideoWriter.

(** The writer with the part of the world it writes to: [stdin] is the
    sequence of bytes that have entered the transcoder's input pipe. *)
Record t : Type := mk {
  width : Z;
  height : Z;
  closed : bool;
  process : option ProcessManager.ManagedProcess;
  stdin : list Z
}.

(** What the transcoder does during one [WriteFrame]: the result of
    [stdin.Write] (on failure, the number of bytes that entered the pipe
    before the error), and the exit status if it terminates before the
    second look at [done]. *)
Record WriteEnv : Type := mkEnv {
  write_err : option (nat * error);
  exits : option (option Z)
}.

(** The conversion loop of [WriteFrame]: the frame's pixels as
    [width*height*3] bytes, row by row. *)
Definition packFrame (vw : t) (frame : Image.RGBA) : outcome (list Z) :=
  let bounds := Image.Bounds frame in
  pixelData ← make_bytes (GoInt.mul (GoInt.mul (width vw) (height vw)) 3);
  res ← for_each (GoInt.range 0 (height vw)) (fun y st =>
           for_each (GoInt.range 0 (width vw)) (fun x '(pixelData, idx) =>
             let frameX := GoInt.add (Image.MinX bounds) x in
             let frameY := GoInt.add (Image.MinY bounds) y in
             let '(r, g, b, _) := Color.channels (Image.At frame frameX frameY) in
             pixelData ← assign pixelData idx (GoInt.u8 (Z.shiftr r 8));
             pixelData ← assign pixelData (GoInt.add idx 1) (GoInt.u8 (Z.shiftr g 8));
             pixelData ← assign pixelData (GoInt.add idx 2) (GoInt.u8 (Z.shiftr b 8));
             Ok (pixelData, GoInt.add idx 3)) st) (pixelData, 0);
  Ok res.1.

Definition set_done (d : option (option Z)) (mp : ProcessManager.ManagedProcess)
    : ProcessManager.ManagedProcess :=
  ProcessManager.mkMP (ProcessManager.pid mp) (ProcessManager.cancelled mp) d
                      (ProcessManager.cleanup mp).

Definition WriteFrame (vw : t) (frame : Image.RGBA) (env : WriteEnv)
    : t * outcome unit :=
  if closed vw then (vw, Err ErrWriterClosed)
  else
    match process vw with
    | None => (vw, Err ErrWriterNotOpened)
    | Some mp =>
        let bounds := Image.Bounds frame in
        if negb (Image.Dx bounds =? width vw) || negb (Image.Dy bounds =? height vw) then
          (vw, Err (ErrFrameSize (width vw) (height vw) (Image.Dx bounds) (Image.Dy bounds)))
        else
          match packFrame vw frame with
          | Ok pixelData =>
              match ProcessManager.done mp with
              | Some processErr =>
                  (mk (width vw) (height vw) (closed vw) (Some (set_done None mp)) (stdin vw),
                   Err (ErrFFmpegExited processErr))
              | None =>
                  match write_err env with
                  | None =>
                      (mk (width vw) (height vw) (closed vw) (process vw)
                          (stdin vw ++ pixelData),
                       Ok tt)
                  | Some (n, err) =>
                      let vw' := mk (width vw) (height vw) (closed vw) (process vw)
                                    (stdin vw ++ take n pixelData) in
                      match exits env with
                      | Some processErr => (vw', Err (ErrWriteFrameExited processErr err))
                      | None => (vw', Err (ErrWriteFrame err))
                      end
                  end
              end
          | Err e => (vw, Err e)
          | Panic p => (vw, Panic p)
          end
    end.

(** One pixel of the conversion loop: the three stores and the step of the
    index, for the channels [c] of the pixel. *)
Definition packPixel (c : Z * Z * Z * Z) (st : list Z * Z) : outcome (list Z * Z) :=
  let '(pixelData, idx) := st in
  let '(r, g, b, _) := c in
  pixelData ← assign pixelData idx (GoInt.u8 (Z.shiftr r 8));
  pixelData ← assign pixelData (GoInt.add idx 1) (GoInt.u8 (Z.shiftr g 8));
  pixelData ← assign pixelData (GoInt.add idx 2) (GoInt.u8 (Z.shiftr b 8));
  Ok (pixelData, GoInt.add idx 3).

(** The byte the loop stores for channel [k] (0, 1, 2) of a pixel. *)
Definition rgb8 (c : Z * Z * Z * Z) (k : Z) : Z :=
  let '(r, g, b, _) := c in
  GoInt.u8 (Z.shiftr (if k =? 0 then r else if k =? 1 then g else b) 8).

(** [WriteFrames]: the frames in order, each with what its transcoder does
    during the call; the first failure ends the loop and is returned with
    the index of its frame. *)
Fixpoint WriteFramesFrom (i : Z) (vw : t) (frames : list (Image.RGBA * WriteEnv))
    : t * result (Z * error) unit :=
  match frames with
  | [] => (vw, Done tt)
  | (frame, env) :: frames' =>
      match WriteFrame vw frame env with
      | (vw', Ok _) => WriteFramesFrom (i + 1) vw' frames'
      | (vw', Err e) => (vw', Failed (i, e))
      | (vw', Panic p) => (vw', Panicked p)
      end
  end.

Definition WriteFrames (vw : t) (frames : list (Image.RGBA * WriteEnv))
    : t * result (Z * error) unit :=
  WriteFramesFrom 0 vw frames.

(** The goroutine that [Open] starts, [err := cmd.Wait(); process.done <- err]:
    not started, waiting for the transcoder, or past its one send. *)
Inductive Waiter : Type := NoWaiter | Waiting | Sent.

(** A writer together with the goroutine of its transcoder. *)
Record Live : Type := mkLive { writer : t; waiter : Waiter }.

Definition NewVideoWriter (width height : Z) : Live :=
  mkLive (mk width height false None []) NoWaiter.

Inductive OpenError : Type :=
| ErrOpenClosed
| ErrStdinPipe (cause : error)
| ErrOpenStart (cause : error).

(** [Open].  [pipe] is the result of [cmd.StdinPipe()], [started] the result
    of [cmd.Start()]: the pid, or the launch error. *)
Definition Open (pipe : option error) (started : Z + error) (s : Live)
    : Live * result OpenError unit :=
  let vw := writer s in
  if closed vw then (s, Failed ErrOpenClosed)
  else
    match pipe, started with
    | Some e, _ => (s, Failed (ErrStdinPipe e))
    | None, inr e => (s, Failed (ErrOpenStart e))
    | None, inl pid =>
        (mkLive (mk (width vw) (height vw) (closed vw)
                    (Some (ProcessManager.mkMP pid false None false)) [])
                Waiting,
         Done tt)
    end.

(** The transcoder exits with [status]: the goroutine's [cmd.Wait()]
    returns and it sends the status on [done].  This happens once. *)
Definition exit (status : option Z) (s : Live) : Live :=
  let vw := writer s in
  match waiter s, process vw with
  | Waiting, Some mp =>
      mkLive (mk (width vw) (height vw) (closed vw)
                 (Some (set_done (Some status) mp)) (stdin vw))
             Sent
  | _, _ => s
  end.

(** [WriteFrame] on a live writer.  The transcoder can exit during the
    write only while its goroutine is still waiting for it; a status that
    the second [select] receives has been sent, and after a write that
    succeeded the status of an exit during the call is in the channel. *)
Definition WriteFrameLive (frame : Image.RGBA) (env : WriteEnv) (s : Live)
    : Live * outcome unit :=
  let env :=
    match waiter s with
    | Waiting => env
    | _ => mkEnv (write_err env) None
    end in
  let '(vw', r) := WriteFrame (writer s) frame env in
  match r, exits env with
  | Ok _, Some status => (exit status (mkLive vw' (waiter s)), r)
  | Err (ErrWriteFrameExited _ _), _ => (mkLive vw' Sent, r)
  | _, _ => (mkLive vw' (waiter s), r)
  end.

(** The blocking receive of [process.Wait()]: it returns as soon as
    [done] holds a status; [during] lists the exits that are tried while it
    is blocked, and the result is [None] when it is still blocked after all
    of them. *)
Fixpoint await (during : list (option Z)) (s : Live) : option Live :=
  let vw := writer s in
  match process vw with
  | None => Some s
  | Some mp =>
      match ProcessManager.done mp with
      | Some _ =>
          Some (mkLive (mk (width vw) (height vw) (closed vw)
                           (Some (set_done None mp)) (stdin vw))
                       (waiter s))
      | None =>
          match during with
          | [] => None
          | status :: during' => await during' (exit status s)
          end
      end
  end.

(** [Close]: marks the writer closed, closes the pipe, waits for the
    transcoder's status and forgets the process; [None] when the call does
    not return. *)
Definition Close (during : list (option Z)) (s : Live) : option (Live * outcome unit) :=
  let vw := writer s in
  if closed vw then Some (s, Ok tt)
  else
    let s1 := mkLive (mk (width vw) (height vw) true (process vw) (stdin vw)) (waiter s) in
    match process vw with
    | None => Some (s1, Ok tt)
    | Some _ =>
        match await during s1 with
        | Some s2 =>
            let vw2 := writer s2 in
            Some (mkLive (mk (width vw2) (height vw2) (closed vw2) None (stdin vw2))
                         (waiter s2),
                  Ok tt)
        | None => None
        end
    end.

(** A status in the channel has been sent by the goroutine. *)
Definition sound (s : Live) : Prop :=
  forall mp, process (writer s) = Some mp ->
    is_Some (ProcessManager.done mp) -> waiter s = Sent.

(** The error says that the transcoder has exited. *)
Definition reportsExit (e : error) : bool :=
  match e with
  | ErrFFmpegExited _ | ErrWriteFrameExited _ _ => true
  | _ => false
  end.

End VideoWriter.

(* ===================================================================== *)
(** ** pkg/video: VideoFileClip *)
(* ===================================================================== *)

Module VideoFileClip.

(** The clip with the fields of its embedded [BaseVideoClip].  The reader
    is shared by all clips derived from one opened clip; no clip
    operation modelled here changes it. *)
Record t : Type := mk {
  start : Z;
  end_ : Z;
  duration : Z;
  fps : GoFloat.float64;
  width : Z;
  height : Z;
  reader : option VideoReader.t;
  closed : bool;
  speedFactor : GoFloat.float64
}.

Definition NewVideoFileClip : t :=
  mk 0 0 0 GoFloat.zero 0 0 None false GoFloat.one.

(** [Open].  [probe] is the result of the reader's [Open], that is, of
    the metadata probe. *)
Definition Open (vfc : t) (probe : VideoReader.VideoInfo + error) : t * outcome unit :=
  if closed vfc then (vfc, Err ErrClipClosed)
  else
    match probe with
    | inr e =>
        (mk (start vfc) (end_ vfc) (duration vfc) (fps vfc) (width vfc) (height vfc)
            (Some (VideoReader.mk None false)) (closed vfc) (speedFactor vfc),
         Err (ErrOpenVideo e))
    | inl info =>
        let d := GoFloat.to_int (GoFloat.mul (VideoReader.Duration info) GoFloat.e9) in
        (mk 0 d d (VideoReader.FPS info) (VideoReader.Width info) (VideoReader.Height info)
            (Some (VideoReader.mk (Some info) false)) (closed vfc) (speedFactor vfc),
         Ok tt)
    end.

(** [time.Duration(float64(t) * factor)]. *)
Definition scaleDuration (t : Z) (factor : GoFloat.float64) : Z :=
  GoFloat.to_int (GoFloat.mul (GoFloat.of_int t) factor).

(** The source timestamp [GetFrame] asks the reader for. *)
Definition absoluteTime (vfc : t) (time : Z) : Z :=
  if GoFloat.neqb (speedFactor vfc) GoFloat.one && GoFloat.neqb (speedFactor vfc) GoFloat.zero
  then GoInt.add (start vfc) (scaleDuration time (speedFactor vfc))
  else GoInt.add (start vfc) time.

Definition GetFrame (vfc : t) (time : Z) (env : VideoReader.Transcoder)
    : outcome Image.RGBA * list VideoReader.action :=
  if closed vfc then (Err ErrClipClosed, [])
  else
    match reader vfc with
    | None => (Err ErrClipNotOpened, [])
    | Some r => VideoReader.GetFrame r (absoluteTime vfc time) env
    end.

Definition Subclip (vfc : t) (start' end' : Z) : outcome t :=
  if (start' <? 0) || (duration vfc <? end') || (end' <=? start') then
    Err ErrInvalidTimeRange
  else
    Ok (mk start' end' (GoInt.sub end' start') (fps vfc) (width vfc) (height vfc)
           (reader vfc) false (speedFactor vfc)).

Definition WithSpeed (vfc : t) (factor : GoFloat.float64) : outcome t :=
  if GoFloat.leb factor GoFloat.zero then Err ErrInvalidSpeedFactor
  else
    let newDuration :=
      GoFloat.to_int (GoFloat.div (GoFloat.of_int (duration vfc)) factor) in
    Ok (mk (start vfc) (GoInt.add (start vfc) newDuration) newDuration
           (fps vfc) (width vfc) (height vfc) (reader vfc) false factor).

(** A clip freshly opened on a source whose probe reports [info]. *)
Definition opened (info : VideoReader.VideoInfo) : t :=
  (Open NewVideoFileClip (inl info)).1.

End VideoFileClip.

(* ===================================================================== *)
(** ** The blend formulas as the specification words them *)
(* ===================================================================== *)

(** Channel values normalised to [0, 1]; [blend] is the table of the
    specification, [normalize] and [scale] pass between the 16-bit integer
    scale of the code and the unit interval. *)
Module BlendSpec.
Local Open Scope Q_scope.
Definition clamp (q : Q) : Q := Qmin 1 q.
Definition blend (mode : Z) (base top : Q) : Q :=
  if (mode =? CompositeVideoClip.Overlay)%Z then
    if Qlt_le_dec base (1 # 2) then 2 * base * top
    else 1 - 2 * (1 - base) * (1 - top)
  else if (mode =? CompositeVideoClip.Add)%Z then clamp (base + top)
  else if (mode =? CompositeVideoClip.Multiply)%Z then base * top
  else if (mode =? CompositeVideoClip.Screen)%Z then 1 - (1 - base) * (1 - top)
  else if (mode =? CompositeVideoClip.Darken)%Z then Qmin base top
  else Qmax base top.
Definition normalize (c : Z) : Q := inject_Z c / 65535.
Definition scale (q : Q) : Q := 65535 * q.

(** The formula of [mode] applied to two 16-bit channel values, read back
    on the 16-bit scale. *)
Definition on_scale (mode : Z) (base top : Z) : Q :=
  scale (blend mode (normalize base) (normalize top)).
End BlendSpec.

(** An integer [c] is the rational [v] rounded to a neighbouring integer
    (and equals [v] when [v] is an integer). *)
Definition rounds_to (v : Q) (c : Z) : Prop := Qfloor v <= c <= Qceiling v.

(** The specification's source time, [start + t * speed_factor], needs the
    number a speed factor stands for. *)
Module TimeSpec.
Local Open Scope Q_scope.
(** The rational number that a finite double stands for (0 for the
    others): [m * 2^e], with the sign. *)
Definition value (f : GoFloat.float64) : Q :=
  match f with
  | S754_finite s m e =>
      let q := if (0 <=? e)%Z then inject_Z (Z.pos m * 2 ^ e)
               else Z.pos m # 2 ^ Z.to_pos (- e) in
      if s then - q else q
  | _ => 0
  end.

End TimeSpec.

(** The value of one blended channel in unbounded integer arithmetic. *)
Definition blendExact (mode b t : Z) : Z :=
  if mode =? 0 then
    if b <? 32768 then 2 * b * t / 65535
    else 65535 - 2 * (65535 - b) * (65535 - t) / 65535
  else if mode =? 1 then (if 65535 <? b + t then 65535 else b + t)
  else if mode =? 2 then b * t / 65535
  else if mode =? 3 then 65535 - (65535 - b) * (65535 - t) / 65535
  else if mode =? 4 then (if b <? t then b else t)
  else if mode =? 5 then (if t <? b then b else t)
  else t.

(** Scaled back to 0..65535, the formula of every mode is a fraction with
    denominator 65535. *)
Definition blendNum (mode b t : Z) : Z :=
  if mode =? 0 then
    if b <? 32768 then 2 * b * t
    else 65535 * 65535 - 2 * (65535 - b) * (65535 - t)
  else if mode =? 1 then 65535 * Z.min 65535 (b + t)
  else if mode =? 2 then b * t
  else if mode =? 3 then 65535 * 65535 - (65535 - b) * (65535 - t)
  else if mode =? 4 then 65535 * Z.min b t
  else 65535 * Z.max b t.

(* ===================================================================== *)
(** ** Concrete inputs *)
(* ===================================================================== *)

Module Examples.

(** A 1x1 frame holding one opaque pixel, and an empty 2x2 frame. *)
Definition frame1x1 : Image.RGBA :=
  Image.mkRGBA {[ (0, 0) := (9, 8, 7, 255) ]} (Image.Rect 0 0 1 1).

Definition frame2x2 : Image.RGBA := Image.mkRGBA ∅ (Image.Rect 0 0 2 2).

(** An opened writer for 4x2 frames whose transcoder is running. *)
Definition openWriter4x2 : VideoWriter.t :=
  VideoWriter.mk 4 2 false (Some (ProcessManager.mkMP 100 false None false)) [].

(** A 10-second, 30 fps, 2x2 source, its opened reader, and a transcoder
    that delivers one whole frame (12 bytes) and exits normally. *)
Definition info10s : VideoReader.VideoInfo :=
  VideoReader.mkInfo (GoFloat.of_int 10) 2 2 (GoFloat.of_int 30) false.

Definition reader10s : VideoReader.t := VideoReader.mk (Some info10s) false.

Definition twelveBytes : VideoReader.Transcoder :=
  VideoReader.mkTranscoder None None [1; 2; 3; 4; 5; 6; 7; 8; 9; 10; 11; 12] None.


(** A store holding one frame, and a clip that keeps handing out that very
    frame (it caches what it decoded). *)
Definition oneFrame : Store.t := {[ 1%positive := frame1x1 ]}.

Definition cachingClip : CompositeVideoClip.VideoClip :=
  CompositeVideoClip.mkClip (fun _ σ => (σ, Ok 1%positive)).


(** A manager with one running process, pid 7. *)
Definition oneRunning : ProcessManager.World :=
  (ProcessManager.StartProcess (inl 7) ProcessManager.NewProcessManager).1.

End Examples.

(** Further inputs: stores, layers, writers and effects. *)
Module MoreExamples.

(** A second 1x1 frame, and a store holding it next to [Examples.frame1x1]. *)
Definition overlay1x1 : Image.RGBA :=
  Image.mkRGBA {[ (0, 0) := (200, 100, 50, 128) ]} (Image.Rect 0 0 1 1).

Definition twoFrames : Store.t :=
  {[ 1%positive := Examples.frame1x1; 2%positive := overlay1x1 ]}.

(** A layer whose decoding always fails, and composites over it: one with
    a position for every layer, one with no positions at all. *)
Definition failingClip : CompositeVideoClip.VideoClip :=
  CompositeVideoClip.mkClip (fun _ σ => (σ, Err ErrClipNotOpened)).

Definition withFailingLayer : CompositeVideoClip.t :=
  CompositeVideoClip.mk [Examples.cachingClip; failingClip]
    [None; Some CompositeVideoClip.NewCenteredPosition] CompositeVideoClip.Overlay false.

Definition withoutPositions : CompositeVideoClip.t :=
  CompositeVideoClip.mk [Examples.cachingClip; Examples.cachingClip] []
    CompositeVideoClip.Overlay false.

(** A running transcoder, an opened writer for 2x2 frames on it, a write
    during which nothing goes wrong, and the writer as [Open] makes it. *)
Definition running100 : ProcessManager.ManagedProcess :=
  ProcessManager.mkMP 100 false None false.

Definition openWriter2x2 : VideoWriter.t :=
  VideoWriter.mk 2 2 false (Some running100) [].

Definition quiet : VideoWriter.WriteEnv := VideoWriter.mkEnv None None.

Definition liveWriter2x2 : VideoWriter.Live :=
  (VideoWriter.Open None (inl 100) (VideoWriter.NewVideoWriter 2 2)).1.

(** The clip of the 10-second source. *)
Definition source10s : VideoFileClip.t := VideoFileClip.opened Examples.info10s.

(** A 2x2 frame with four opaque pixels. *)
Definition painted2x2 : Image.RGBA :=
  Image.mkRGBA {[ (0, 0) := (1, 2, 3, 255); (1, 0) := (4, 5, 6, 255);
                  (0, 1) := (7, 8, 9, 255); (1, 1) := (10, 11, 12, 255) ]}
               (Image.Rect 0 0 2 2).

(** A 1x1 frame away from the origin, with one opaque pixel. *)
Definition shifted1x1 : Image.RGBA :=
  Image.mkRGBA {[ (5, 5) := (10, 20, 30, 255) ]} (Image.Rect 5 5 6 6).

End MoreExamples.

(* ===================================================================== *)
(** * Properties *)
(* ===================================================================== *)

(** ** Blend arithmetic *)

Lemma arith_fits (r : Z) (a b : U32.t) :
  0 <= r < 2 ^ 32 -> U32.ovf a = false -> U32.ovf b = false ->
  U32.arith r a b = U32.mk r false.
Proof.
  intros Hr Ha Hb. unfold U32.arith, U32.fits.
  rewrite Ha, Hb, Z.mod_small by exact Hr.
  replace (0 <=? r) with true by (symmetry; apply Z.leb_le; lia).
  replace (r <? 2 ^ 32) with true by (symmetry; apply Z.ltb_lt; lia).
  reflexivity.
Qed.

Lemma div65535_bounds (n : Z) :
  0 <= n -> 65535 * (n / 65535) <= n < 65535 * (n / 65535) + 65535.
Proof.
  intros Hn. pose proof (Z.div_mod n 65535 ltac:(lia)).
  pose proof (Z.mod_pos_bound n 65535 ltac:(lia)). lia.
Qed.

Lemma mul_lit (a b : Z) :
  0 <= a * b < 2 ^ 32 -> U32.mul (U32.mk a false) (U32.mk b false) = U32.mk (a * b) false.
Proof. intros H. unfold U32.mul. cbn [U32.val]. by rewrite arith_fits. Qed.

Lemma add_lit (a b : Z) :
  0 <= a + b < 2 ^ 32 -> U32.add (U32.mk a false) (U32.mk b false) = U32.mk (a + b) false.
Proof. intros H. unfold U32.add. cbn [U32.val]. by rewrite arith_fits. Qed.

Lemma sub_lit (a b : Z) :
  0 <= a - b < 2 ^ 32 -> U32.sub (U32.mk a false) (U32.mk b false) = U32.mk (a - b) false.
Proof. intros H. unfold U32.sub. cbn [U32.val]. by rewrite arith_fits. Qed.

Lemma div_lit (a b : Z) :
  U32.div (U32.mk a false) (U32.mk b false) = U32.mk (a / b) false.
Proof. reflexivity. Qed.

Lemma blendOverlay_exact (b t : Z) :
  0 <= b <= 65535 -> 0 <= t <= 65535 ->
  CompositeVideoClip.blendOverlay (U32.lit b) (U32.lit t) =
  U32.mk (if b <? 32768 then 2 * b * t / 65535
          else 65535 - 2 * (65535 - b) * (65535 - t) / 65535) false.
Proof.
  intros Hb Ht. unfold CompositeVideoClip.blendOverlay, CompositeVideoClip.c65535, U32.lit, U32.ltb.
  cbn [U32.val]. destruct (Z.ltb_spec b 32768).
  - rewrite !mul_lit by nia. apply div_lit.
  - rewrite !sub_lit by lia. rewrite !mul_lit by nia. rewrite div_lit.
    pose proof (div65535_bounds (2 * (65535 - b) * (65535 - t)) ltac:(nia)).
    rewrite sub_lit by nia. reflexivity.
Qed.

Lemma blendScreen_exact (b t : Z) :
  0 <= b <= 65535 -> 0 <= t <= 65535 ->
  CompositeVideoClip.blendScreen (U32.lit b) (U32.lit t) =
  U32.mk (65535 - (65535 - b) * (65535 - t) / 65535) false.
Proof.
  intros Hb Ht. unfold CompositeVideoClip.blendScreen, CompositeVideoClip.c65535, U32.lit.
  rewrite !sub_lit by lia. rewrite mul_lit by nia. rewrite div_lit.
  pose proof (div65535_bounds ((65535 - b) * (65535 - t)) ltac:(nia)).
  rewrite sub_lit by nia. reflexivity.
Qed.

Lemma blendChannel_exact (mode b t : Z) :
  0 <= b <= 65535 -> 0 <= t <= 65535 ->
  CompositeVideoClip.blendChannel mode (U32.lit b) (U32.lit t) =
  U32.mk (blendExact mode b t) false.
Proof.
  intros Hb Ht. unfold CompositeVideoClip.blendChannel, blendExact.
  unfold CompositeVideoClip.Overlay, CompositeVideoClip.Add, CompositeVideoClip.Multiply,
    CompositeVideoClip.Screen, CompositeVideoClip.Darken, CompositeVideoClip.Lighten.
  destruct (mode =? 0); [by apply blendOverlay_exact|].
  destruct (mode =? 1).
  { unfold U32.lit. rewrite add_lit by lia.
    unfold CompositeVideoClip.clamp, CompositeVideoClip.c65535, U32.gtb, U32.lit.
    cbn [U32.val U32.ovf]. by destruct (65535 <? b + t). }
  destruct (mode =? 2).
  { unfold U32.lit, CompositeVideoClip.c65535, U32.lit. rewrite mul_lit by nia. apply div_lit. }
  destruct (mode =? 3); [by apply blendScreen_exact|].
  destruct (mode =? 4).
  { unfold CompositeVideoClip.min, U32.ltb, U32.lit. cbn [U32.val]. by destruct (b <? t). }
  destruct (mode =? 5).
  { unfold CompositeVideoClip.max, U32.gtb, U32.lit. cbn [U32.val]. by destruct (t <? b). }
  reflexivity.
Qed.

Lemma blendExact_range (mode b t : Z) :
  0 <= b <= 65535 -> 0 <= t <= 65535 -> 0 <= blendExact mode b t <= 65535.
Proof.
  intros Hb Ht. unfold blendExact.
  pose proof (div65535_bounds (2 * b * t)).
  pose proof (div65535_bounds (2 * (65535 - b) * (65535 - t))).
  pose proof (div65535_bounds (b * t)).
  pose proof (div65535_bounds ((65535 - b) * (65535 - t))).
  repeat case_match; try lia; nia.
Qed.

Lemma floor_ceiling_sandwich (v : Q) (c : Z) :
  (inject_Z c - 1 < v)%Q -> (v < inject_Z c + 1)%Q ->
  Qfloor v <= c <= Qceiling v.
Proof.
  intros Hlo Hhi. split.
  - assert (H : (inject_Z (Qfloor v) < inject_Z (c + 1))%Q).
    { eapply Qle_lt_trans; [apply Qfloor_le|]. rewrite inject_Z_plus. exact Hhi. }
    rewrite <- Zlt_Qlt in H. lia.
  - assert (H : (inject_Z (c - 1) < inject_Z (Qceiling v))%Q).
    { eapply Qlt_le_trans; [|apply Qle_ceiling].
      unfold Z.sub. rewrite inject_Z_plus. exact Hlo. }
    rewrite <- Zlt_Qlt in H. lia.
Qed.

Lemma scaled_frac (n : Z) (c : Z) :
  65535 * (c - 1) < n < 65535 * (c + 1) ->
  (inject_Z c - 1 < inject_Z n / 65535 /\ inject_Z n / 65535 < inject_Z c + 1)%Q.
Proof.
  intros H. unfold Qlt, Qdiv, Qinv, Qmult, Qminus, Qplus, Qopp, inject_Z. simpl. lia.
Qed.

Lemma normalize_lt_half (b : Z) :
  (BlendSpec.normalize b < 1 # 2)%Q <-> b < 32768.
Proof.
  unfold BlendSpec.normalize, Qlt, Qdiv, Qinv, Qmult, inject_Z. simpl. lia.
Qed.

Lemma normalize_le (a b : Z) :
  (BlendSpec.normalize a <= BlendSpec.normalize b)%Q <-> a <= b.
Proof.
  unfold BlendSpec.normalize, Qle, Qdiv, Qinv, Qmult, inject_Z. simpl. lia.
Qed.

Lemma normalize_sum_le_1 (a b : Z) :
  (1 <= BlendSpec.normalize a + BlendSpec.normalize b)%Q <-> 65535 <= a + b.
Proof.
  unfold BlendSpec.normalize, Qle, Qdiv, Qinv, Qmult, Qplus, inject_Z. simpl. lia.
Qed.

Lemma blend_spec_num (mode b t : Z) :
  (BlendSpec.scale (BlendSpec.blend mode (BlendSpec.normalize b) (BlendSpec.normalize t))
   == inject_Z (blendNum mode b t) / 65535)%Q.
Proof.
  unfold BlendSpec.blend, blendNum, BlendSpec.scale, BlendSpec.clamp.
  unfold CompositeVideoClip.Overlay, CompositeVideoClip.Add, CompositeVideoClip.Multiply,
    CompositeVideoClip.Screen, CompositeVideoClip.Darken, CompositeVideoClip.Lighten.
  destruct (mode =? 0).
  { destruct (Qlt_le_dec _ _) as [H|H].
    - apply normalize_lt_half in H. apply Z.ltb_lt in H. rewrite H.
      unfold BlendSpec.scale, BlendSpec.normalize. rewrite !inject_Z_mult. field.
    - assert (Hb : ~ b < 32768) by (intros Hb; apply normalize_lt_half in Hb;
                                    exact (Qlt_not_le _ _ Hb H)).
      apply Z.ltb_nlt in Hb. rewrite Hb.
      unfold BlendSpec.scale, BlendSpec.normalize, Z.sub.
      rewrite !inject_Z_plus, !inject_Z_opp, !inject_Z_mult, !inject_Z_plus, !inject_Z_opp.
      field. }
  destruct (mode =? 1).
  { unfold BlendSpec.clamp.
    destruct (Z.le_gt_cases 65535 (b + t)) as [H|H].
    - rewrite Z.min_l by lia. rewrite Q.min_l by (by apply normalize_sum_le_1).
      unfold BlendSpec.scale. rewrite inject_Z_mult. field.
    - rewrite Z.min_r by lia. rewrite Q.min_r.
      + unfold BlendSpec.scale, BlendSpec.normalize.
        rewrite inject_Z_mult, inject_Z_plus. field.
      + apply Qnot_lt_le. intros Hc. apply Qlt_le_weak in Hc.
        apply normalize_sum_le_1 in Hc. lia. }
  destruct (mode =? 2).
  { unfold BlendSpec.scale, BlendSpec.normalize. rewrite !inject_Z_mult. field. }
  destruct (mode =? 3).
  { unfold BlendSpec.scale, BlendSpec.normalize, Z.sub.
    rewrite !inject_Z_plus, !inject_Z_opp, !inject_Z_mult, !inject_Z_plus, !inject_Z_opp.
    field. }
  destruct (mode =? 4).
  { destruct (Z.le_gt_cases b t) as [H|H].
    - rewrite Z.min_l by lia. rewrite Q.min_l by (by apply normalize_le).
      unfold BlendSpec.scale, BlendSpec.normalize. rewrite inject_Z_mult. field.
    - rewrite Z.min_r by lia. rewrite Q.min_r by (apply normalize_le; lia).
      unfold BlendSpec.scale, BlendSpec.normalize. rewrite inject_Z_mult. field. }
  destruct (Z.le_gt_cases b t) as [H|H].
  - rewrite Z.max_r by lia. rewrite Q.max_r by (by apply normalize_le).
    unfold BlendSpec.scale, BlendSpec.normalize. rewrite inject_Z_mult. field.
  - rewrite Z.max_l by lia. rewrite Q.max_l by (apply normalize_le; lia).
    unfold BlendSpec.scale, BlendSpec.normalize. rewrite inject_Z_mult. field.
Qed.

Lemma blendExact_near_num (mode b t : Z) :
  0 <= b <= 65535 -> 0 <= t <= 65535 -> 0 <= mode <= 5 ->
  65535 * (blendExact mode b t - 1) < blendNum mode b t < 65535 * (blendExact mode b t + 1).
Proof.
  intros Hb Ht Hm. unfold blendExact, blendNum.
  pose proof (div65535_bounds (2 * b * t)).
  pose proof (div65535_bounds (2 * (65535 - b) * (65535 - t))).
  pose proof (div65535_bounds (b * t)).
  pose proof (div65535_bounds ((65535 - b) * (65535 - t))).
  repeat case_match; try lia; nia.
Qed.

Lemma blendChannel_rounds (mode b t : Z) :
  0 <= mode <= 5 -> 0 <= b <= 65535 -> 0 <= t <= 65535 ->
  rounds_to (BlendSpec.on_scale mode b t)
            (U32.val (CompositeVideoClip.blendChannel mode (U32.lit b) (U32.lit t))).
Proof.
  intros Hm Hb Ht. rewrite blendChannel_exact by assumption. cbn [U32.val].
  apply floor_ceiling_sandwich; unfold BlendSpec.on_scale;
    rewrite blend_spec_num; apply scaled_frac; by apply blendExact_near_num.
Qed.

(** ** Colours *)

Lemma In_range (lo hi x : Z) : List.In x (GoInt.range lo hi) <-> lo <= x < hi.
Proof.
  unfold GoInt.range. rewrite in_map_iff. split.
  - intros (i & <- & Hi). apply in_seq in Hi. lia.
  - intros H. exists (Z.to_nat (x - lo)). split; [lia|]. apply in_seq. lia.
Qed.

Lemma widen_byte (c : Z) : 0 <= c < 256 -> Color.widen c = 257 * c.
Proof.
  intros H.
  assert (Hall : forallb (fun c => Color.widen c =? 257 * c) (GoInt.range 0 256) = true)
    by (vm_compute; reflexivity).
  rewrite forallb_forall in Hall. apply Z.eqb_eq, Hall, In_range. exact H.
Qed.

Lemma channels_range (c : Color.t) :
  Color.wf c ->
  let '(r, g, b, a) := Color.channels c in
  0 <= r <= 65535 /\ 0 <= g <= 65535 /\ 0 <= b <= 65535 /\ 0 <= a <= 65535.
Proof.
  destruct c as [r g b a|r g b a]; cbn [Color.wf Color.channels].
  - intros (Hr & Hg & Hb & Ha). rewrite !widen_byte by assumption. lia.
  - lia.
Qed.

(** ** C9: the blend modes compute the specified formulas *)

(** C9.  For well-formed base and overlay colours and each of the six blend
    modes, [blendColors] returns a 16-bit colour whose red, green and blue
    channels are the formula of that mode on the integer scale 0..65535
    ([blendExact]: 1 is 65535, a half is 32768, a product of two channel
    values is divided by 65535 with the quotient truncated); each of them is
    the specification's formula for that mode, evaluated on the normalised
    channel values and read back on the 0..65535 scale, up to the rounding
    of that division (the channel is the floor or the ceiling of the exact
    value); the alpha is the alpha of the overlay. *)
Theorem blendColors_formula (mode : Z) (base overlay : Color.t) :
  0 <= mode <= 5 -> Color.wf base -> Color.wf overlay ->
  let '(r1, g1, b1, _) := Color.channels base in
  let '(r2, g2, b2, a2) := Color.channels overlay in
  CompositeVideoClip.blendColors base overlay mode =
    Color.RGBA64 (blendExact mode r1 r2) (blendExact mode g1 g2) (blendExact mode b1 b2) a2 /\
  rounds_to (BlendSpec.on_scale mode r1 r2) (blendExact mode r1 r2) /\
  rounds_to (BlendSpec.on_scale mode g1 g2) (blendExact mode g1 g2) /\
  rounds_to (BlendSpec.on_scale mode b1 b2) (blendExact mode b1 b2).
Proof.
  intros Hm Hbase Hover.
  pose proof (channels_range base Hbase) as H1.
  pose proof (channels_range overlay Hover) as H2.
  unfold CompositeVideoClip.blendColors.
  destruct (Color.channels base) as [[[r1 g1] b1] a1].
  destruct (Color.channels overlay) as [[[r2 g2] b2] a2].
  destruct H1 as (Hr1 & Hg1 & Hb1 & _), H2 as (Hr2 & Hg2 & Hb2 & Ha2).
  pose proof (blendChannel_rounds mode r1 r2 Hm Hr1 Hr2) as Rr.
  pose proof (blendChannel_rounds mode g1 g2 Hm Hg1 Hg2) as Rg.
  pose proof (blendChannel_rounds mode b1 b2 Hm Hb1 Hb2) as Rb.
  rewrite !blendChannel_exact in * by assumption. cbn [U32.val] in *.
  split; [|done].
  pose proof (blendExact_range mode r1 r2 Hr1 Hr2).
  pose proof (blendExact_range mode g1 g2 Hg1 Hg2).
  pose proof (blendExact_range mode b1 b2 Hb1 Hb2).
  unfold GoInt.u16. rewrite !Z.mod_small by lia. reflexivity.
Qed.

Lemma blendColors_formula_witness :
  CompositeVideoClip.blendColors (Color.RGBA 10 200 30 255) (Color.RGBA 250 7 90 128)
    CompositeVideoClip.Overlay =
    Color.RGBA64 (blendExact 0 2570 64250) (blendExact 0 51400 1799) (blendExact 0 7710 23130)
      32896 /\
  rounds_to (BlendSpec.on_scale 0 2570 64250) (blendExact 0 2570 64250) /\
  rounds_to (BlendSpec.on_scale 0 51400 1799) (blendExact 0 51400 1799) /\
  rounds_to (BlendSpec.on_scale 0 7710 23130) (blendExact 0 7710 23130).
Proof.
  apply (blendColors_formula 0 (Color.RGBA 10 200 30 255) (Color.RGBA 250 7 90 128));
    cbn; lia.
Defined.

(** ** C10: the 32-bit blend arithmetic stays in range *)

(** C10.  For channel values in 0..65535 and every mode, no operation of
    the 32-bit unsigned computation of a blended channel leaves
    [0, 2^32) (the overflow flag stays clear), the channel lies in
    0..65535, and narrowing it to 16 bits changes nothing. *)
Theorem blendChannel_no_overflow (mode b t : Z) :
  0 <= b <= 65535 -> 0 <= t <= 65535 ->
  let c := CompositeVideoClip.blendChannel mode (U32.lit b) (U32.lit t) in
  U32.ovf c = false /\ 0 <= U32.val c <= 65535 /\ GoInt.u16 (U32.val c) = U32.val c.
Proof.
  intros Hb Ht. cbv zeta. rewrite blendChannel_exact by assumption. cbn [U32.ovf U32.val].
  pose proof (blendExact_range mode b t Hb Ht).
  unfold GoInt.u16. rewrite Z.mod_small by lia. auto.
Qed.

Lemma blendChannel_no_overflow_witness :
  let c := CompositeVideoClip.blendChannel CompositeVideoClip.Overlay
             (U32.lit 32767) (U32.lit 65535) in
  U32.ovf c = false /\ 0 <= U32.val c <= 65535 /\ GoInt.u16 (U32.val c) = U32.val c.
Proof.
  apply (blendChannel_no_overflow 0 32767 65535); lia.
Defined.

(** ** Loops and frames *)

Lemma for_loop_invariant {S : Type} (P : S -> Prop) (l : list Z) (body : Z -> S -> S) (s : S) :
  P s -> (forall i s', P s' -> P (body i s')) -> P (for_loop l body s).
Proof.
  intros Hs Hbody. unfold for_loop. revert s Hs.
  induction l as [|i l IH]; intros s Hs; cbn; [done|]. apply IH, Hbody, Hs.
Qed.

Lemma Set_Bounds (p : Image.RGBA) (x y : Z) (c : Color.t) :
  Image.Bounds (Image.Set_ p x y c) = Image.Bounds p.
Proof. unfold Image.Set_. by destruct (Image.In x y (Image.Bounds p)). Qed.

Lemma wrap_small (z : Z) : GoInt.in_range z -> GoInt.wrap z = z.
Proof.
  unfold GoInt.in_range, GoInt.min_int, GoInt.max_int, GoInt.wrap. intros H.
  rewrite Z.mod_small by lia. lia.
Qed.

Lemma wrap_in_range (z : Z) : GoInt.in_range (GoInt.wrap z).
Proof.
  unfold GoInt.in_range, GoInt.min_int, GoInt.max_int, GoInt.wrap.
  pose proof (Z.mod_pos_bound (z + 2 ^ 63) (2 ^ 64) ltac:(lia)). lia.
Qed.

Lemma wrap_even (z : Z) : Z.even (GoInt.wrap z) = Z.even z.
Proof.
  unfold GoInt.wrap.
  rewrite Z.even_sub.
  assert (H : Z.even ((z + 2 ^ 63) mod 2 ^ 64) = Z.even (z + 2 ^ 63)).
  { rewrite (Z.div_mod (z + 2 ^ 63) (2 ^ 64)) at 2 by lia.
    rewrite Z.even_add, Z.even_mul. change (Z.even (2 ^ 64)) with true. cbn.
    by destruct (Z.even _). }
  rewrite H, Z.even_add. change (Z.even (2 ^ 63)) with true. by destruct (Z.even z).
Qed.

Lemma NewResizeEffect_even (w h : Z) :
  Z.even (ResizeEffect.width (ResizeEffect.NewResizeEffect w h)) = true /\
  Z.even (ResizeEffect.height (ResizeEffect.NewResizeEffect w h)) = true.
Proof.
  assert (Hone : forall z, Z.even (if GoInt.rem z 2 =? 0 then z else GoInt.add z 1) = true).
  { intros z. unfold GoInt.rem, GoInt.add. destruct (Z.eqb_spec (Z.rem z 2) 0) as [E|E].
    - apply Z.rem_divide in E; [|lia]. destruct E as [k ->].
      rewrite Z.even_mul. cbn. apply orb_true_r.
    - rewrite wrap_even, Z.even_add. cbn.
      destruct (Z.even z) eqn:Ev; [|reflexivity]. exfalso. apply E.
      apply Z.even_spec in Ev. destruct Ev as [k ->].
      rewrite Z.mul_comm. apply Z.rem_mul. lia. }
  unfold ResizeEffect.NewResizeEffect. cbn. split; apply Hone.
Qed.

Lemma NewResizeEffect_in_range (w h : Z) :
  GoInt.in_range w -> GoInt.in_range h ->
  GoInt.in_range (ResizeEffect.width (ResizeEffect.NewResizeEffect w h)) /\
  GoInt.in_range (ResizeEffect.height (ResizeEffect.NewResizeEffect w h)).
Proof.
  intros Hw Hh. unfold ResizeEffect.NewResizeEffect. cbn.
  split; case_match; try assumption; apply wrap_in_range.
Qed.

(** The buffer length check of [NewRGBA] passes exactly for sides that are
    non-negative and whose product, times four, fits. *)
Lemma mul3NonNeg_4_ok (dx dy : Z) :
  0 <= Image.mul3NonNeg 4 dx dy <-> 0 <= dx /\ 0 <= dy /\ 4 * dx < 2 ^ 64 /\ 4 * dx * dy < 2 ^ 63.
Proof.
  unfold Image.mul3NonNeg.
  repeat (match goal with |- context [if ?c then _ else _] => destruct c eqn:? end);
    rewrite ?orb_true_iff, ?orb_false_iff in *; lia.
Qed.

Lemma Rect_origin_Dx (w h : Z) :
  GoInt.in_range w -> GoInt.in_range h ->
  Image.Dx (Image.Rect 0 0 w h) = GoInt.wrap (Z.abs w) /\
  Image.Dy (Image.Rect 0 0 w h) = GoInt.wrap (Z.abs h).
Proof.
  intros Hw Hh. unfold Image.Rect, Image.Dx, Image.Dy, GoInt.sub.
  destruct (Z.ltb_spec w 0), (Z.ltb_spec h 0); cbn; split; f_equal; lia.
Qed.

Lemma for_loop_Bounds (l : list Z) (body : Z -> Image.RGBA -> Image.RGBA) (d : Image.RGBA) :
  (forall i d', Image.Bounds (body i d') = Image.Bounds d') ->
  Image.Bounds (for_loop l body d) = Image.Bounds d.
Proof.
  intros Hbody. apply (for_loop_invariant (fun d' => Image.Bounds d' = Image.Bounds d));
    [reflexivity|]. intros i d' <-. apply Hbody.
Qed.

Lemma ApplyToFrame_Bounds (re : ResizeEffect.t) (frame dst : Image.RGBA) :
  ResizeEffect.ApplyToFrame re frame = Ok dst ->
  Image.Bounds dst = Image.Rect 0 0 (ResizeEffect.width re) (ResizeEffect.height re) /\
  0 <= Image.mul3NonNeg 4 (Image.Dx (Image.Bounds dst)) (Image.Dy (Image.Bounds dst)).
Proof.
  unfold ResizeEffect.ApplyToFrame, Image.NewRGBA, mbind, outcome_bind.
  destruct (Z.ltb_spec (Image.mul3NonNeg 4
              (Image.Dx (Image.Rect 0 0 (ResizeEffect.width re) (ResizeEffect.height re)))
              (Image.Dy (Image.Rect 0 0 (ResizeEffect.width re) (ResizeEffect.height re)))) 0)
    as [Hneg|Hok]; [discriminate|].
  intros [= <-].
  rewrite for_loop_Bounds.
  - split; [reflexivity|exact Hok].
  - intros y d. apply for_loop_Bounds. intros x d'. apply Set_Bounds.
Qed.

Lemma ApplyToFrame_ok (re : ResizeEffect.t) (frame : Image.RGBA) :
  0 <= Image.mul3NonNeg 4
         (Image.Dx (Image.Rect 0 0 (ResizeEffect.width re) (ResizeEffect.height re)))
         (Image.Dy (Image.Rect 0 0 (ResizeEffect.width re) (ResizeEffect.height re))) ->
  exists dst, ResizeEffect.ApplyToFrame re frame = Ok dst.
Proof.
  intros Hok. unfold ResizeEffect.ApplyToFrame, Image.NewRGBA, mbind, outcome_bind.
  apply Z.ltb_ge in Hok. rewrite Hok. eauto.
Qed.

Lemma even_abs (z : Z) : Z.even z = true -> Z.even (Z.abs z) = true.
Proof. destruct (Z.abs_eq_or_opp z) as [->| ->]; [done|]. by rewrite Z.even_opp. Qed.

(** C7, as amended.  For all 64-bit integers [w] and [h] and every source
    frame: the declared width and height of [NewResizeEffect w h] are even;
    whenever [ApplyToFrame] returns a frame, its width and height are the
    absolute values of the declared ones, hence even; and for
    non-negative [w], [h] with [4 * (w+1) * (h+1) < 2^63] the declared sizes
    are [w] and [h] rounded up to even and [ApplyToFrame] does return a
    frame of exactly the declared width and height. *)
Theorem Resize_dimensions (w h : Z) (frame : Image.RGBA) :
  GoInt.in_range w -> GoInt.in_range h ->
  let re := ResizeEffect.NewResizeEffect w h in
  (Z.even (ResizeEffect.width re) = true /\ Z.even (ResizeEffect.height re) = true) /\
  (forall dst, ResizeEffect.ApplyToFrame re frame = Ok dst ->
     Image.Dx (Image.Bounds dst) = Z.abs (ResizeEffect.width re) /\
     Image.Dy (Image.Bounds dst) = Z.abs (ResizeEffect.height re) /\
     Z.even (Image.Dx (Image.Bounds dst)) = true /\
     Z.even (Image.Dy (Image.Bounds dst)) = true) /\
  (0 <= w -> 0 <= h -> 4 * (w + 1) * (h + 1) < 2 ^ 63 ->
     ResizeEffect.width re = w + w mod 2 /\
     ResizeEffect.height re = h + h mod 2 /\
     exists dst, ResizeEffect.ApplyToFrame re frame = Ok dst /\
       Image.Dx (Image.Bounds dst) = ResizeEffect.width re /\
       Image.Dy (Image.Bounds dst) = ResizeEffect.height re).
Proof.
  intros Hw Hh re.
  pose proof (NewResizeEffect_even w h) as [Hew Heh].
  pose proof (NewResizeEffect_in_range w h Hw Hh) as [Hrw Hrh].
  fold re in Hew, Heh, Hrw, Hrh.
  assert (Habs : forall dst, ResizeEffect.ApplyToFrame re frame = Ok dst ->
     Image.Dx (Image.Bounds dst) = Z.abs (ResizeEffect.width re) /\
     Image.Dy (Image.Bounds dst) = Z.abs (ResizeEffect.height re)).
  { intros dst Hdst. apply ApplyToFrame_Bounds in Hdst as [HB Hok]. revert Hok. rewrite HB.
    destruct (Rect_origin_Dx _ _ Hrw Hrh) as [-> ->]. intros Hok.
    apply mul3NonNeg_4_ok in Hok as (Hx & Hy & _).
    assert (Hmin : GoInt.wrap (Z.abs (- 2 ^ 63)) = - 2 ^ 63) by (vm_compute; reflexivity).
    unfold GoInt.in_range, GoInt.min_int, GoInt.max_int in Hrw, Hrh.
    destruct (Z.eq_dec (ResizeEffect.width re) (- 2 ^ 63)) as [E|Hnw];
      [rewrite E, Hmin in Hx; lia|].
    destruct (Z.eq_dec (ResizeEffect.height re) (- 2 ^ 63)) as [E|Hnh];
      [rewrite E, Hmin in Hy; lia|].
    split; apply wrap_small; unfold GoInt.in_range, GoInt.min_int, GoInt.max_int; lia. }
  split; [done|]. split.
  - intros dst Hdst. destruct (Habs dst Hdst) as [Hx Hy]. rewrite Hx, Hy.
    repeat split; try done; apply even_abs; assumption.
  - intros Hw0 Hh0 Hsize.
    assert (Hwidth : ResizeEffect.width re = w + w mod 2).
    { subst re. unfold ResizeEffect.NewResizeEffect, GoInt.rem, GoInt.add. cbn.
      rewrite Z.rem_mod_nonneg by lia.
      pose proof (Z.mod_pos_bound w 2 ltac:(lia)).
      destruct (Z.eqb_spec (w mod 2) 0); [lia|].
      rewrite wrap_small by (unfold GoInt.in_range, GoInt.min_int, GoInt.max_int; nia). lia. }
    assert (Hheight : ResizeEffect.height re = h + h mod 2).
    { subst re. unfold ResizeEffect.NewResizeEffect, GoInt.rem, GoInt.add. cbn.
      rewrite Z.rem_mod_nonneg by lia.
      pose proof (Z.mod_pos_bound h 2 ltac:(lia)).
      destruct (Z.eqb_spec (h mod 2) 0); [lia|].
      rewrite wrap_small by (unfold GoInt.in_range, GoInt.min_int, GoInt.max_int; nia). lia. }
    split; [exact Hwidth|]. split; [exact Hheight|].
    pose proof (Z.mod_pos_bound w 2 ltac:(lia)). pose proof (Z.mod_pos_bound h 2 ltac:(lia)).
    destruct (ApplyToFrame_ok re frame) as [dst Hdst].
    { destruct (Rect_origin_Dx _ _ Hrw Hrh) as [-> ->].
      rewrite !Z.abs_eq by lia.
      rewrite !wrap_small by assumption.
      apply mul3NonNeg_4_ok. nia. }
    exists dst. split; [exact Hdst|].
    destruct (Habs dst Hdst) as [-> ->]. rewrite !Z.abs_eq by lia. done.
Qed.

Lemma Resize_dimensions_witness :
  exists dst,
    ResizeEffect.ApplyToFrame (ResizeEffect.NewResizeEffect 3 5) Examples.frame1x1 = Ok dst /\
    Image.Dx (Image.Bounds dst) = 4 /\ Image.Dy (Image.Bounds dst) = 6.
Proof.
  destruct (Resize_dimensions 3 5 Examples.frame1x1) as (_ & _ & H).
  - unfold GoInt.in_range, GoInt.min_int, GoInt.max_int. lia.
  - unfold GoInt.in_range, GoInt.min_int, GoInt.max_int. lia.
  - destruct H as (_ & _ & dst & Hdst & Hx & Hy); [lia..|].
    exists dst. split; [exact Hdst|]. split; [exact Hx|exact Hy].
Defined.

(** C7, counterexample.  [NewResizeEffect (-3) 2] declares the width -2;
    [image.Rect] puts the corners in order, so the frame [ApplyToFrame]
    returns is 2 wide: even, but not the declared width. *)
Lemma Resize_negative_width :
  let re := ResizeEffect.NewResizeEffect (-3) 2 in
  ResizeEffect.width re = -2 /\
  exists dst, ResizeEffect.ApplyToFrame re Examples.frame1x1 = Ok dst /\
    Image.Dx (Image.Bounds dst) = 2 /\
    Image.Dx (Image.Bounds dst) <> ResizeEffect.width re.
Proof. cbv zeta. split; [reflexivity|]. eexists. split; [by vm_compute|]. by vm_compute. Qed.

(** ** C5: a frame of the wrong size is refused before anything is written *)
(** C5.  When the frame's width or height differs from the writer's,
    [WriteFrame] returns an error and hands back the writer exactly as it
    was: in particular the bytes in the transcoder's input pipe are the
    same.  On a writer that is open (not closed, process started) the
    error is the size-mismatch error carrying the expected and the actual
    dimensions. *)
Theorem WriteFrame_size_mismatch (vw : VideoWriter.t) (frame : Image.RGBA)
    (env : VideoWriter.WriteEnv) :
  Image.Dx (Image.Bounds frame) <> VideoWriter.width vw \/
  Image.Dy (Image.Bounds frame) <> VideoWriter.height vw ->
  exists e,
    VideoWriter.WriteFrame vw frame env = (vw, Err e) /\
    VideoWriter.stdin (VideoWriter.WriteFrame vw frame env).1 = VideoWriter.stdin vw /\
    (VideoWriter.closed vw = false -> is_Some (VideoWriter.process vw) ->
     e = ErrFrameSize (VideoWriter.width vw) (VideoWriter.height vw)
           (Image.Dx (Image.Bounds frame)) (Image.Dy (Image.Bounds frame))).
Proof.
  intros Hsize. unfold VideoWriter.WriteFrame.
  destruct (VideoWriter.closed vw) eqn:Hc.
  { exists ErrWriterClosed. by repeat split. }
  destruct (VideoWriter.process vw) as [mp|] eqn:Hp.
  2:{ exists ErrWriterNotOpened. split; [done|]. split; [done|]. by intros _ [? ?]. }
  assert (Hne : negb (Image.Dx (Image.Bounds frame) =? VideoWriter.width vw)
                || negb (Image.Dy (Image.Bounds frame) =? VideoWriter.height vw) = true).
  { apply orb_true_iff. destruct Hsize as [H|H]; [left|right];
      apply negb_true_iff, Z.eqb_neq; exact H. }
  rewrite Hne. eexists. repeat split; done.
Qed.

Lemma WriteFrame_size_mismatch_witness :
  exists e,
    VideoWriter.WriteFrame Examples.openWriter4x2 Examples.frame2x2 (VideoWriter.mkEnv None None)
      = (Examples.openWriter4x2, Err e) /\
    VideoWriter.stdin
      (VideoWriter.WriteFrame Examples.openWriter4x2 Examples.frame2x2 (VideoWriter.mkEnv None None)).1
      = VideoWriter.stdin Examples.openWriter4x2 /\
    (VideoWriter.closed Examples.openWriter4x2 = false ->
     is_Some (VideoWriter.process Examples.openWriter4x2) ->
     e = ErrFrameSize 4 2 2 2).
Proof.
  apply (WriteFrame_size_mismatch Examples.openWriter4x2 Examples.frame2x2 (VideoWriter.mkEnv None None)).
  left. vm_compute. discriminate.
Defined.

(** ** C2: the range check of the decoder *)

(** C2, counterexample.  On an opened reader of a 10-second source,
    [GetFrame] of minus one second is not refused: a transcoder is launched
    with seek position -1, the frame is read, and [GetFrame] succeeds. *)
Lemma GetFrame_negative_time_spawns :
  is_ok (VideoReader.GetFrame Examples.reader10s (-1000000000) Examples.twelveBytes).1 = true /\
  VideoReader.spawns (VideoReader.GetFrame Examples.reader10s (-1000000000) Examples.twelveBytes).2 = 1%nat /\
  (VideoReader.GetFrame Examples.reader10s (-1000000000) Examples.twelveBytes).2
    = [VideoReader.Spawn (Seconds (-1000000000)); VideoReader.Read 12; VideoReader.Wait].
Proof. vm_compute. auto. Qed.

Lemma for_each_never_err {S : Type} (l : list Z) (body : Z -> S -> outcome S) (s : S) (e : error) :
  (forall i s', body i s' <> Err e) -> for_each l body s <> Err e.
Proof.
  intros Hbody. revert s. induction l as [|i l IH]; intros s; cbn; [done|].
  unfold mbind, outcome_bind. destruct (body i s) as [s'|e'|p] eqn:E.
  - apply IH.
  - intros [= ->]. exact (Hbody _ _ E).
  - done.
Qed.

Lemma index_never_err (l : list Z) (i : Z) (e : error) : index l i <> Err e.
Proof. unfold index. by repeat case_match. Qed.

Lemma pixelOf_never_err (W : Z) (pixelData : list Z) (x y : Z) (e : error) :
  VideoReader.pixelOf W pixelData x y <> Err e.
Proof.
  unfold VideoReader.pixelOf, mbind, outcome_bind.
  destruct (index pixelData _) as [r|e1|p1] eqn:E1;
    [|intros [= ->]; exact (index_never_err _ _ _ E1)|done].
  destruct (index pixelData (GoInt.add _ 1)) as [g|e2|p2] eqn:E2;
    [|intros [= ->]; exact (index_never_err _ _ _ E2)|done].
  destruct (index pixelData (GoInt.add _ 2)) as [b|e3|p3] eqn:E3;
    [done|intros [= ->]; exact (index_never_err _ _ _ E3)|done].
Qed.

Lemma fillImage_never_err (W H : Z) (pixelData : list Z) (img : Image.RGBA) (e : error) :
  VideoReader.fillImage W H pixelData img <> Err e.
Proof.
  unfold VideoReader.fillImage. apply for_each_never_err. intros y img'.
  apply for_each_never_err. intros x img''. unfold mbind, outcome_bind.
  destruct (VideoReader.pixelOf W pixelData x y) as [c|e1|p1] eqn:E1;
    [done|intros [= ->]; exact (pixelOf_never_err _ _ _ _ _ E1)|done].
Qed.

(** C2, as amended.  On an opened reader the range check of [GetFrame]
    is the upper bound alone: when the timestamp in seconds exceeds the
    duration, the call fails with the out-of-range error and its trace is
    empty (no transcoder launched); in every other case, negative
    timestamps included, the result is never the out-of-range error and,
    when the pipe and the launch succeed, exactly one transcoder is
    launched. *)
Theorem GetFrame_upper_bound_only (vr : VideoReader.t) (info : VideoReader.VideoInfo)
    (time : Z) (env : VideoReader.Transcoder) :
  VideoReader.closed vr = false -> VideoReader.info vr = Some info ->
  if GoFloat.gtb (Seconds time) (VideoReader.Duration info) then
    VideoReader.GetFrame vr time env = (Err ErrTimeBeyondLength, [])
  else
    (VideoReader.GetFrame vr time env).1 <> Err ErrTimeBeyondLength /\
    (VideoReader.pipe_err env = None -> VideoReader.start_err env = None ->
     VideoReader.spawns (VideoReader.GetFrame vr time env).2 = 1%nat).
Proof.
  intros Hc Hi. unfold VideoReader.GetFrame. rewrite Hc, Hi.
  destruct (GoFloat.gtb _ _); [reflexivity|].
  destruct (VideoReader.pipe_err env), (VideoReader.start_err env); cbn; try done.
  destruct (make_bytes _) as [buf| |] eqn:Em.
  - destruct (VideoReader.ReadFull _ _) as [pd [e|]]; [by cbn|].
    destruct (VideoReader.exit_err env); [by cbn|].
    split; [|done]. cbn [fst]. unfold mbind, outcome_bind.
    destruct (Image.NewRGBA _) as [img|e|p] eqn:En; [|exfalso|done].
    + apply fillImage_never_err.
    + unfold Image.NewRGBA in En. by case_match.
  - unfold make_bytes in Em. by case_match.
  - by cbn.
Qed.

Lemma GetFrame_upper_bound_only_witness :
  VideoReader.GetFrame Examples.reader10s 11000000000 Examples.twelveBytes = (Err ErrTimeBeyondLength, []).
Proof.
  exact (GetFrame_upper_bound_only Examples.reader10s Examples.info10s 11000000000 Examples.twelveBytes eq_refl eq_refl).
Defined.

(** ** C6: the source timestamp of a clip frame *)

(** *** Double-precision rounding: what the conversion to [float64], the
    product and the truncation make of an integer time *)






















(** ** Painting loops *)

Lemma At_Set_eq (p : Image.RGBA) (x y : Z) (c : Color.t) :
  Image.At (Image.Set_ p x y c) x y =
  if Image.In x y (Image.Bounds p) then Image.stored c else Color.zero.
Proof.
  unfold Image.At, Image.Set_, Image.stored.
  destruct (Image.In x y (Image.Bounds p)) eqn:E; cbn [Image.Bounds Image.Pix]; rewrite E.
  - rewrite lookup_insert_eq. by destruct (Color.fields _) as [[[r g] b] a].
  - reflexivity.
Qed.

Lemma At_Set_ne (p : Image.RGBA) (x y x' y' : Z) (c : Color.t) :
  (x', y') <> (x, y) -> Image.At (Image.Set_ p x y c) x' y' = Image.At p x' y'.
Proof.
  intros Hne. unfold Image.At, Image.Set_.
  destruct (Image.In x y (Image.Bounds p)); [|reflexivity].
  cbn [Image.Bounds Image.Pix]. rewrite lookup_insert_ne by congruence. reflexivity.
Qed.

Lemma stored_RGBA (r g b a : Z) : Image.stored (Color.RGBA r g b a) = Color.RGBA r g b a.
Proof. reflexivity. Qed.

Lemma for_each_ext {S : Type} (l : list Z) (f g : Z -> S -> outcome S) (s : S) :
  (forall i s', List.In i l -> f i s' = g i s') -> for_each l f s = for_each l g s.
Proof.
  revert s. induction l as [|i l IH]; intros s Hfg; cbn; [done|].
  rewrite Hfg by (by left). unfold mbind, outcome_bind.
  destruct (g i s); [|done|done]. apply IH. intros j s' Hj. apply Hfg. by right.
Qed.

(** One row of a painting loop: every [x] of [xs] gets the colour [col x]
    at height [y]; nothing else changes. *)
Lemma paint_row (xs : list Z) (y : Z) (col : Z -> outcome Color.t) (img img' : Image.RGBA) :
  for_each xs (fun x img => c ← col x; Ok (Image.Set_ img x y c)) img = Ok img' ->
  Image.Bounds img' = Image.Bounds img /\
  (forall x, List.In x xs -> exists c, col x = Ok c /\
     Image.At img' x y = if Image.In x y (Image.Bounds img) then Image.stored c else Color.zero) /\
  (forall x' y', ~ (List.In x' xs /\ y' = y) -> Image.At img' x' y' = Image.At img x' y').
Proof.
  revert img. induction xs as [|a xs IH]; intros img; cbn.
  { intros [= <-]. split; [done|]. split; [by intros x []|done]. }
  unfold mbind at 1, outcome_bind at 1. unfold mbind at 1, outcome_bind at 1.
  destruct (col a) as [c| |] eqn:Ec; try discriminate.
  intros Hrest. apply IH in Hrest as (HB & Hin & Hout).
  rewrite Set_Bounds in HB. split; [exact HB|]. split.
  - intros x Hx. destruct (in_dec Z.eq_dec x xs) as [Hx'|Hx'].
    + destruct (Hin x Hx') as (c' & Hc' & Hat). exists c'. split; [done|].
      by rewrite Set_Bounds in Hat.
    + destruct Hx as [->|Hx]; [|done]. exists c. split; [done|].
      rewrite Hout by tauto. apply At_Set_eq.
  - intros x' y' Hnot. rewrite Hout by tauto. apply At_Set_ne.
    intros [= -> ->]. apply Hnot. split; [by left|done].
Qed.

(** The nested painting loop: rows [ys], columns [xs]. *)
Lemma paint_rows (ys xs : list Z) (col : Z -> Z -> outcome Color.t) (img img' : Image.RGBA) :
  for_each ys (fun y img =>
    for_each xs (fun x img => c ← col x y; Ok (Image.Set_ img x y c)) img) img = Ok img' ->
  Image.Bounds img' = Image.Bounds img /\
  (forall x y, List.In x xs -> List.In y ys -> exists c, col x y = Ok c /\
     Image.At img' x y = if Image.In x y (Image.Bounds img) then Image.stored c else Color.zero) /\
  (forall x y, ~ (List.In x xs /\ List.In y ys) -> Image.At img' x y = Image.At img x y).
Proof.
  revert img. induction ys as [|b ys IH]; intros img; cbn.
  { intros [= <-]. split; [done|]. split; [by intros x y _ []|done]. }
  unfold mbind at 1, outcome_bind at 1.
  destruct (for_each xs _ img) as [img1| |] eqn:Erow; try discriminate.
  apply (paint_row xs b (fun x => col x b)) in Erow as (HB1 & Hin1 & Hout1).
  intros Hrest. apply IH in Hrest as (HB & Hin & Hout).
  rewrite HB1 in HB. split; [exact HB|]. split.
  - intros x y Hx Hy. destruct (in_dec Z.eq_dec y ys) as [Hy'|Hy'].
    + destruct (Hin x y Hx Hy') as (c & Hc & Hat). exists c. split; [done|].
      by rewrite HB1 in Hat.
    + destruct Hy as [->|Hy]; [|done].
      destruct (Hin1 x Hx) as (c & Hc & Hat). exists c. split; [done|].
      rewrite Hout by tauto. exact Hat.
  - intros x y Hnot. rewrite Hout by tauto. apply Hout1. intros [Hx ->]. apply Hnot.
    split; [done|by left].
Qed.

(** ** C4: the decoder reads whole frames *)

Lemma index_Ok (l : list Z) (i v : Z) :
  index l i = Ok v -> 0 <= i < Z.of_nat (length l) /\ v = byteAt l i.
Proof.
  unfold index, byteAt. destruct (Z.ltb_spec i 0); [discriminate|].
  destruct (l !! Z.to_nat i) eqn:E; [|discriminate]. intros [= <-].
  apply lookup_lt_Some in E. split; [lia|reflexivity].
Qed.

Lemma byteAt_take (n : nat) (s : list Z) (i : Z) :
  0 <= i < Z.of_nat n -> byteAt (take n s) i = byteAt s i.
Proof. intros Hi. unfold byteAt. rewrite lookup_take_lt by lia. reflexivity. Qed.

Lemma NewRGBA_origin_ok (W H : Z) (img : Image.RGBA) :
  GoInt.in_range W -> GoInt.in_range H ->
  Image.NewRGBA (Image.Rect 0 0 W H) = Ok img ->
  img = Image.mkRGBA ∅ (Image.Rect 0 0 W H) /\ 4 * Z.abs W * Z.abs H < 2 ^ 63.
Proof.
  intros HW HH. unfold Image.NewRGBA.
  destruct (Z.ltb_spec (Image.mul3NonNeg 4 (Image.Dx (Image.Rect 0 0 W H))
                          (Image.Dy (Image.Rect 0 0 W H))) 0) as [|Hok]; [discriminate|].
  intros [= <-]. split; [reflexivity|].
  destruct (Rect_origin_Dx W H HW HH) as [Ex Ey]. rewrite Ex, Ey in Hok.
  apply mul3NonNeg_4_ok in Hok as (Hx & Hy & _ & Hprod).
  assert (Hmin : GoInt.wrap (Z.abs (- 2 ^ 63)) = - 2 ^ 63) by (vm_compute; reflexivity).
  unfold GoInt.in_range, GoInt.min_int, GoInt.max_int in HW, HH.
  destruct (Z.eq_dec W (- 2 ^ 63)) as [E|HnW]; [rewrite E, Hmin in Hx; lia|].
  destruct (Z.eq_dec H (- 2 ^ 63)) as [E|HnH]; [rewrite E, Hmin in Hy; lia|].
  rewrite !wrap_small in Hprod
    by (unfold GoInt.in_range, GoInt.min_int, GoInt.max_int; lia).
  exact Hprod.
Qed.

Lemma ReadFull_None (n : nat) (s pd : list Z) :
  VideoReader.ReadFull n s = (pd, None) -> (n <= length s)%nat /\ pd = take n s.
Proof.
  unfold VideoReader.ReadFull. destruct (Nat.leb_spec n (length s)); [|discriminate].
  intros [= <-]. done.
Qed.

Lemma make_bytes_Ok (n : Z) (buf : list Z) :
  make_bytes n = Ok buf -> 0 <= n /\ length buf = Z.to_nat n.
Proof.
  unfold make_bytes. destruct (Z.ltb_spec n 0); [discriminate|]. intros [= <-].
  by rewrite length_replicate.
Qed.

Lemma frame_size_no_wrap (W H : Z) :
  4 * Z.abs W * Z.abs H < 2 ^ 63 ->
  GoInt.mul (GoInt.mul W H) 3 = W * H * 3.
Proof.
  intros Hsz. unfold GoInt.mul.
  assert (Habs : Z.abs (W * H) = Z.abs W * Z.abs H) by apply Z.abs_mul.
  rewrite (wrap_small (W * H)) by (unfold GoInt.in_range, GoInt.min_int, GoInt.max_int; lia).
  apply wrap_small. unfold GoInt.in_range, GoInt.min_int, GoInt.max_int. lia.
Qed.

Lemma pixel_index_no_wrap (W H x y : Z) :
  4 * Z.abs W * Z.abs H < 2 ^ 63 -> 0 <= x < W -> 0 <= y < H ->
  GoInt.mul (GoInt.add (GoInt.mul y W) x) 3 = 3 * (y * W + x) /\
  3 * (y * W + x) + 2 < W * H * 3.
Proof.
  intros Hsz Hx Hy. unfold GoInt.mul, GoInt.add.
  rewrite !Z.abs_eq in Hsz by lia.
  assert (0 <= y * W + x < W * H) by nia.
  rewrite (wrap_small (y * W)) by (unfold GoInt.in_range, GoInt.min_int, GoInt.max_int; nia).
  rewrite (wrap_small (y * W + x)) by (unfold GoInt.in_range, GoInt.min_int, GoInt.max_int; nia).
  rewrite wrap_small by (unfold GoInt.in_range, GoInt.min_int, GoInt.max_int; nia).
  lia.
Qed.

Lemma pixelOf_Ok (W H : Z) (pd : list Z) (x y : Z) (c : Color.t) :
  4 * Z.abs W * Z.abs H < 2 ^ 63 -> 0 <= x < W -> 0 <= y < H ->
  VideoReader.pixelOf W pd x y = Ok c ->
  c = Color.RGBA (byteAt pd (3 * (y * W + x))) (byteAt pd (3 * (y * W + x) + 1))
                 (byteAt pd (3 * (y * W + x) + 2)) 255.
Proof.
  intros Hsz Hx Hy. unfold VideoReader.pixelOf.
  destruct (pixel_index_no_wrap W H x y Hsz Hx Hy) as [-> Hlt].
  unfold GoInt.add.
  rewrite !wrap_small by (unfold GoInt.in_range, GoInt.min_int, GoInt.max_int; nia).
  unfold mbind, outcome_bind.
  destruct (index pd (3 * (y * W + x))) as [r| |] eqn:Er; try discriminate.
  destruct (index pd (3 * (y * W + x) + 1)) as [g| |] eqn:Eg; try discriminate.
  destruct (index pd (3 * (y * W + x) + 2)) as [b| |] eqn:Eb; try discriminate.
  apply index_Ok in Er as [_ ->], Eg as [_ ->], Eb as [_ ->]. by intros [= <-].
Qed.

(** C4.  On a reader whose width [W] and height [H] are 64-bit integers:
    whenever [GetFrame] returns a frame, [W*H*3] is non-negative and not
    more than what the transcoder wrote, the bytes taken from the pipe are
    exactly [W*H*3], and every pixel [(x, y)] of the frame holds the three
    bytes at offset [3*(y*W + x)] of the stream with alpha 255; whenever
    the stream ends before [W*H*3] bytes, [GetFrame] does not return a
    frame; and when the read is reached with a short stream, the result is
    the pixel-read error, after the stream has been drained and the process
    killed. *)
Theorem GetFrame_reads_exact (vr : VideoReader.t) (info : VideoReader.VideoInfo)
    (time : Z) (env : VideoReader.Transcoder) :
  VideoReader.info vr = Some info ->
  GoInt.in_range (VideoReader.Width info) -> GoInt.in_range (VideoReader.Height info) ->
  let W := VideoReader.Width info in
  let H := VideoReader.Height info in
  let n := W * H * 3 in
  let out := VideoReader.stdout env in
  (forall img tr, VideoReader.GetFrame vr time env = (Ok img, tr) ->
     0 <= n <= Z.of_nat (length out) /\
     Z.of_nat (VideoReader.bytesRead tr) = n /\
     forall x y, 0 <= x < W -> 0 <= y < H ->
       Image.At img x y =
       Color.RGBA (byteAt out (3 * (y * W + x))) (byteAt out (3 * (y * W + x) + 1))
                  (byteAt out (3 * (y * W + x) + 2)) 255) /\
  (Z.of_nat (length out) < n -> is_ok (VideoReader.GetFrame vr time env).1 = false) /\
  (VideoReader.closed vr = false ->
   GoFloat.gtb (Seconds time) (VideoReader.Duration info) = false ->
   VideoReader.pipe_err env = None -> VideoReader.start_err env = None ->
   0 <= n <= GoInt.max_int -> Z.of_nat (length out) < n ->
   exists e, VideoReader.GetFrame vr time env =
     (Err (ErrReadPixels e),
      [VideoReader.Spawn (Seconds time); VideoReader.Read (length out); VideoReader.Kill])).
Proof.
  intros Hinfo HW HH W H n out.
  assert (Hsucc : forall img tr, VideoReader.GetFrame vr time env = (Ok img, tr) ->
     0 <= n <= Z.of_nat (length out) /\
     Z.of_nat (VideoReader.bytesRead tr) = n /\
     forall x y, 0 <= x < W -> 0 <= y < H ->
       Image.At img x y =
       Color.RGBA (byteAt out (3 * (y * W + x))) (byteAt out (3 * (y * W + x) + 1))
                  (byteAt out (3 * (y * W + x) + 2)) 255).
  { intros img tr. unfold VideoReader.GetFrame. rewrite Hinfo.
    destruct (VideoReader.closed vr); [discriminate|].
    destruct (GoFloat.gtb _ _); [discriminate|].
    destruct (VideoReader.pipe_err env); [discriminate|].
    destruct (VideoReader.start_err env); [discriminate|].
    fold W H. destruct (make_bytes _) as [buf| |] eqn:Em; [|discriminate|discriminate].
    apply make_bytes_Ok in Em as [Hn0 Hlen].
    fold out. destruct (VideoReader.ReadFull _ _) as [pd [e|]] eqn:Er; [discriminate|].
    apply ReadFull_None in Er as [Hle ->].
    destruct (VideoReader.exit_err env); [discriminate|].
    unfold mbind, outcome_bind.
    destruct (Image.NewRGBA _) as [img0| |] eqn:En; [|discriminate|discriminate].
    apply NewRGBA_origin_ok in En as [-> Hsz]; [|assumption|assumption].
    rewrite frame_size_no_wrap in Hn0, Hlen by exact Hsz. fold n in Hn0, Hlen.
    intros [= Hfill <-]. unfold VideoReader.fillImage in Hfill.
    apply paint_rows in Hfill as (HB & Hin & _).
    rewrite length_take, Nat.min_l by exact Hle.
    split; [lia|]. split; [cbn; lia|].
    intros x y Hx Hy.
    destruct (Hin x y) as (c & Hc & Hat); [by apply In_range|by apply In_range|].
    rewrite Hat. cbn [Image.Bounds].
    assert (Hinb : Image.In x y (Image.Rect 0 0 W H) = true).
    { unfold Image.Rect, Image.In.
      destruct (Z.ltb_spec W 0); [lia|]. destruct (Z.ltb_spec H 0); [lia|].
      cbn. apply andb_true_iff; split; [|lia].
      apply andb_true_iff; split; [|lia]. apply andb_true_iff; split; lia. }
    rewrite Hinb. apply (pixelOf_Ok W H) in Hc; [|assumption..]. subst c.
    rewrite stored_RGBA.
    destruct (pixel_index_no_wrap W H x y Hsz Hx Hy) as [_ Hlt]. fold n in Hlt.
    rewrite !byteAt_take by lia. reflexivity. }
  split; [exact Hsucc|]. split.
  - intros Hshort.
    destruct (VideoReader.GetFrame vr time env) as [[img| |] tr] eqn:E; try reflexivity.
    destruct (Hsucc img tr eq_refl) as [? _]. lia.
  - intros Hc Hg Hp Hs Hn Hshort. unfold VideoReader.GetFrame.
    rewrite Hc, Hinfo, Hg, Hp, Hs. fold W H out.
    assert (Hwrap : GoInt.mul (GoInt.mul W H) 3 = n).
    { unfold GoInt.mul, GoInt.max_int in *.
      rewrite (wrap_small (W * H)) by (unfold GoInt.in_range, GoInt.min_int, GoInt.max_int; lia).
      apply wrap_small. unfold GoInt.in_range, GoInt.min_int, GoInt.max_int. lia. }
    rewrite Hwrap. unfold make_bytes.
    destruct (Z.ltb_spec n 0); [lia|].
    unfold VideoReader.ReadFull. rewrite length_replicate.
    destruct (Nat.leb_spec (Z.to_nat n) (length out)); [lia|].
    eexists. reflexivity.
Qed.

Lemma GetFrame_reads_exact_witness :
  exists img tr,
    VideoReader.GetFrame Examples.reader10s 0 Examples.twelveBytes = (Ok img, tr) /\
    Z.of_nat (VideoReader.bytesRead tr) = 12 /\
    Image.At img 1 1 = Color.RGBA 10 11 12 255.
Proof.
  destruct (GetFrame_reads_exact Examples.reader10s Examples.info10s 0 Examples.twelveBytes)
    as (Hok & _ & _).
  - reflexivity.
  - unfold GoInt.in_range, GoInt.min_int, GoInt.max_int. simpl. lia.
  - unfold GoInt.in_range, GoInt.min_int, GoInt.max_int. simpl. lia.
  - eexists _, _. split; [vm_compute; reflexivity|].
    match goal with
    | |- Z.of_nat (VideoReader.bytesRead ?tr) = _ /\ Image.At ?img _ _ = _ =>
        destruct (Hok img tr eq_refl) as (_ & Hread & Hpix)
    end.
    split; [exact Hread|]. apply (Hpix 1 1); simpl; lia.
Defined.

(** ** C8: compositing *)

Lemma for_each_Ok {S : Type} (l : list Z) (body : Z -> S -> S) (s : S) :
  for_each l (fun i s => Ok (body i s)) s = Ok (for_loop l body s).
Proof.
  unfold for_loop. revert s. induction l as [|i l IH]; intros s; cbn; [done|]. apply IH.
Qed.

Lemma alloc_fresh (σ : Store.t) (p : Image.RGBA) :
  σ !! (Store.alloc σ p).1 = None /\ (Store.alloc σ p).2 = <[(Store.alloc σ p).1 := p]> σ.
Proof.
  unfold Store.alloc. cbn. split; [|done].
  apply not_elem_of_dom. apply is_fresh.
Qed.

(** A loop that only writes the frame at [l]. *)
Lemma store_loop_lift (l : Store.loc) (xs : list Z)
    (body : Z -> Store.t -> Store.t) (ibody : Z -> Image.RGBA -> Image.RGBA)
    (σ : Store.t) (img : Image.RGBA) :
  (forall i σ' img', σ' !! l = Some img' ->
     (forall k, k <> l -> σ' !! k = σ !! k) ->
     body i σ' = <[l := ibody i img']> σ') ->
  σ !! l = Some img ->
  for_loop xs body σ = <[l := for_loop xs ibody img]> σ.
Proof.
  intros Hbody. unfold for_loop.
  assert (Hgen : forall σ' img', σ' !! l = Some img' ->
            (forall k, k <> l -> σ' !! k = σ !! k) ->
            fold_left (fun acc i => body i acc) xs σ'
            = <[l := fold_left (fun acc i => ibody i acc) xs img']> σ').
  { induction xs as [|i xs IH]; intros σ' img' Hl Hk; cbn.
    - by rewrite insert_id.
    - rewrite (Hbody i σ' img' Hl Hk).
      rewrite (IH _ (ibody i img')).
      + by rewrite insert_insert_eq.
      + by rewrite lookup_insert_eq.
      + intros k Hne. rewrite lookup_insert_ne by done. by apply Hk. }
  intros Hl. by apply Hgen.
Qed.

Lemma Store_Set_other (σ : Store.t) (l k : Store.loc) (x y : Z) (c : Color.t) :
  k <> l -> Store.Set_ σ l x y c !! k = σ !! k.
Proof.
  intros Hne. unfold Store.Set_. destruct (σ !! l); [|done]. by rewrite lookup_insert_ne.
Qed.

(** A nested loop whose body is a [Set_] on the frame at [l], possibly
    skipped, leaves every other frame alone. *)
Lemma store_loop_others (l : Store.loc) (ys xs : list Z)
    (body : Z -> Z -> Store.t -> Store.t) (σ : Store.t) :
  (forall x y σ' k, k <> l -> body x y σ' !! k = σ' !! k) ->
  forall k, k <> l ->
    for_loop ys (fun y σ => for_loop xs (fun x σ => body x y σ) σ) σ !! k = σ !! k.
Proof.
  intros Hbody k Hk.
  apply (for_loop_invariant (fun σ' => σ' !! k = σ !! k)); [done|].
  intros y σ' Hσ'.
  apply (for_loop_invariant (fun σ'' => σ'' !! k = σ !! k)); [done|].
  intros x σ'' Hσ''. by rewrite Hbody.
Qed.

Lemma compositeFrame_others (base overlay : Store.loc) (position : CompositeVideoClip.Position)
    (mode : Z) (σ : Store.t) (k : Store.loc) :
  k <> base ->
  CompositeVideoClip.compositeFrame base overlay position mode σ !! k = σ !! k.
Proof.
  intros Hk. unfold CompositeVideoClip.compositeFrame.
  destruct (CompositeVideoClip.calculateOffset _ _ _) as [offsetX offsetY].
  apply (store_loop_others base); [|done].
  intros x y σ' k' Hk'. case_match; [done|]. by apply Store_Set_other.
Qed.



Lemma stored_At (p : Image.RGBA) (x y : Z) : Image.stored (Image.At p x y) = Image.At p x y.
Proof.
  unfold Image.At. destruct (Image.In x y (Image.Bounds p)); [|done].
  destruct (Image.Pix p !! (x, y)) as [[[[r g] b] a]|]; done.
Qed.

Lemma At_outside (p : Image.RGBA) (x y : Z) :
  Image.In x y (Image.Bounds p) = false -> Image.At p x y = Color.zero.
Proof. intros H. unfold Image.At. by rewrite H. Qed.

Lemma In_ranges (r : Image.Rectangle) (x y : Z) :
  Image.In x y r = true <->
  List.In x (GoInt.range (Image.MinX r) (Image.MaxX r)) /\
  List.In y (GoInt.range (Image.MinY r) (Image.MaxY r)).
Proof. unfold Image.In. rewrite !In_range, !andb_true_iff. lia. Qed.

Lemma copyBase_lift (composite baseFrame : Store.loc) (σ : Store.t) (bimg cimg : Image.RGBA) :
  composite <> baseFrame ->
  σ !! baseFrame = Some bimg -> σ !! composite = Some cimg ->
  CompositeVideoClip.copyBase composite baseFrame σ = <[composite := CompositeVideoClip.copied bimg cimg]> σ.
Proof.
  intros Hne Hb Hc. unfold CompositeVideoClip.copyBase, CompositeVideoClip.copied, Store.Bounds. rewrite Hb.
  apply store_loop_lift; [|exact Hc].
  intros y σ' img' Hc' Hk'.
  apply store_loop_lift; [|exact Hc'].
  intros x σ'' img'' Hc'' Hk''.
  unfold Store.Set_, Store.At. rewrite Hc''.
  rewrite (Hk'' baseFrame), (Hk' baseFrame), Hb by done. reflexivity.
Qed.

Lemma copied_spec (bimg : Image.RGBA) :
  let c := CompositeVideoClip.copied bimg (Image.mkRGBA ∅ (Image.Bounds bimg)) in
  Image.Bounds c = Image.Bounds bimg /\
  forall x y, Image.At c x y = Image.At bimg x y.
Proof.
  cbv zeta. set (cimg := Image.mkRGBA ∅ (Image.Bounds bimg)).
  assert (Hpaint :
    for_each (GoInt.range (Image.MinY (Image.Bounds bimg)) (Image.MaxY (Image.Bounds bimg)))
      (fun y img =>
         for_each (GoInt.range (Image.MinX (Image.Bounds bimg)) (Image.MaxX (Image.Bounds bimg)))
           (fun x img => c ← Ok (Image.At bimg x y); Ok (Image.Set_ img x y c)) img) cimg
    = Ok (CompositeVideoClip.copied bimg cimg)).
  { unfold CompositeVideoClip.copied. cbv zeta. rewrite <- for_each_Ok. apply for_each_ext. intros y img _.
    apply (for_each_Ok _ (fun x img => Image.Set_ img x y (Image.At bimg x y))). }
  apply paint_rows in Hpaint as (HB & Hin & Hout).
  split; [exact HB|]. intros x y.
  destruct (Image.In x y (Image.Bounds bimg)) eqn:E.
  - pose proof (proj1 (In_ranges _ _ _) E) as [Hx Hy].
    destruct (Hin x y Hx Hy) as (c & [= <-] & ->). cbn [Image.Bounds cimg].
    rewrite E. apply stored_At.
  - rewrite Hout.
    + rewrite (At_outside bimg) by done. by apply At_outside.
    + intros Hxy. apply In_ranges in Hxy. congruence.
Qed.




(** ** C1, C3: the process supervisor *)

Section Supervisor.

Import ProcessManager.












(** [TerminateProcess] of a registered process returns nil, whichever
    branch of its [select] is taken. *)
Lemma TerminateProcess_registered (p : Z) (during : list Event) (w : World) :
  is_Some (processes w !! p) -> (TerminateProcess p during w).2 = Ok tt.
Proof.
  intros [mp Hmp]. unfold TerminateProcess. rewrite Hmp.
  by destruct (heap _ !! mp) as [[q c [st|] cl]|].
Qed.



Lemma reap_events (w : World) (p : Z) (mp : ptr) (m : ManagedProcess) (st : option Z) :
  heap w !! mp = Some m -> pid m = p -> done m = None ->
  monitors w !! mp = Some AtWait -> os w !! p = Some Running ->
  runEvents (exitsAndIsReaped p mp st) w =
  mkWorld (delete p (processes w)) (ctx_done w)
          (<[mp := mkMP p (cancelled m) (Some st) (cleanup m)]> (heap w))
          (<[mp := AtCleanup]> (monitors w))
          (delete p (os w)) (signals w) (cleaned w).
Proof.
  intros Hm Hp Hd Hmon Hos. unfold exitsAndIsReaped, runEvents. cbn [fold_left runEvent].
  rewrite Hos. unfold monitorStep at 2. cbn [set_os monitors heap os]. rewrite Hmon, Hm, Hp, Hd.
  rewrite (lookup_insert_eq (os w) p).
  unfold monitorStep. cbn [set_os set_heap set_monitors monitors heap].
  rewrite (lookup_insert_eq (monitors w) mp), (lookup_insert_eq (heap w) mp).
  unfold set_monitors, set_processes, set_heap, set_os. cbn.
  by rewrite delete_insert_eq, insert_insert_eq.
Qed.

Lemma cancel_spec (w : World) (mp : ptr) (m : ManagedProcess) :
  heap w !! mp = Some m ->
  cancel mp w = set_heap (insert mp (mkMP (pid m) true (done m) (cleanup m))) w.
Proof. intros Hm. unfold cancel. by rewrite Hm. Qed.

Lemma killGroup_spec (w : World) (p : Z) (s : Signal) (o : OsProc) :
  os w !! p = Some o -> killGroup p s w = send_signal p s w.
Proof. intros Ho. unfold killGroup, Getpgid. by rewrite Ho. Qed.

(** Graceful branch: the process exits on SIGTERM and is reaped while
    [TerminateProcess] waits; the call returns nil and the process is no
    longer registered. *)
Lemma TerminateProcess_graceful (w : World) (p : Z) (mp : ptr) (st : option Z) :
  running_entry w p mp ->
  let res := TerminateProcess p (exitsAndIsReaped p mp st) w in
  res.2 = Ok tt /\
  processes res.1 = delete p (processes w) /\
  signals res.1 = (p, SIGTERM) :: signals w /\
  (forall q, q <> p -> os res.1 !! q = os w !! q) /\
  (forall k, k <> mp -> heap res.1 !! k = heap w !! k /\ monitors res.1 !! k = monitors w !! k).
Proof.
  intros (Hreg & (m & Hm & Hp & Hd) & Hmon & Hos). cbv zeta.
  unfold TerminateProcess. rewrite Hreg, (cancel_spec w mp m Hm).
  rewrite (killGroup_spec _ p SIGTERM Running) by exact Hos.
  set (w1 := send_signal p SIGTERM _).
  rewrite (reap_events w1 p mp (mkMP (pid m) true (done m) (cleanup m)) st);
    [|apply (lookup_insert_eq (heap w) mp)|exact Hp|exact Hd|exact Hmon|exact Hos].
  cbn [heap]. rewrite lookup_insert_eq. cbn.
  repeat split; try done.
  - intros q Hq. by rewrite lookup_delete_ne.
  - by rewrite !lookup_insert_ne.
  - by rewrite lookup_insert_ne.
Qed.







Lemma oneRunning_all_running : all_running Examples.oneRunning.
Proof.
  intros p mp Hp. unfold Examples.oneRunning, StartProcess, NewProcessManager in *.
  cbn in Hp. apply lookup_insert_Some in Hp as [[<- <-]|[_ Hp]]; [|done].
  split; [done|]. split; [|done]. by eexists.
Qed.


End Supervisor.

(** * Further properties of the code *)

(** ** The blend modes as an algebra on channel values *)

Lemma blendExact_Screen_Multiply (b t : Z) :
  0 <= b <= 65535 -> 0 <= t <= 65535 ->
  blendExact 3 b t = b + t - blendExact 2 b t.
Proof.
  intros Hb Ht. unfold blendExact. cbn.
  replace ((65535 - b) * (65535 - t)) with (b * t + (65535 - b - t) * 65535) by ring.
  rewrite Z.div_add by lia. lia.
Qed.

(** X1.  White and black under the five symmetric blend modes, on one
    16-bit channel.  Blending a base value [b] with the neutral value of a
    mode gives [b] back: white (65535) for Multiply and Darken, black (0)
    for Screen, Add and Lighten.  Blending with the absorbing value gives
    that value whatever [b] is: black for Multiply and Darken, white for
    Screen, Add and Lighten. *)
Theorem blendChannel_neutral_absorbing (b : Z) :
  0 <= b <= 65535 ->
  let ch mode t := CompositeVideoClip.blendChannel mode (U32.lit b) (U32.lit t) in
  (ch CompositeVideoClip.Multiply 65535 = U32.lit b /\
   ch CompositeVideoClip.Screen 0 = U32.lit b /\
   ch CompositeVideoClip.Add 0 = U32.lit b /\
   ch CompositeVideoClip.Darken 65535 = U32.lit b /\
   ch CompositeVideoClip.Lighten 0 = U32.lit b) /\
  (ch CompositeVideoClip.Multiply 0 = U32.lit 0 /\
   ch CompositeVideoClip.Screen 65535 = U32.lit 65535 /\
   ch CompositeVideoClip.Add 65535 = U32.lit 65535 /\
   ch CompositeVideoClip.Darken 0 = U32.lit 0 /\
   ch CompositeVideoClip.Lighten 65535 = U32.lit 65535).
Proof.
  intros Hb. cbv beta zeta. rewrite !blendChannel_exact by lia. unfold U32.lit.
  assert (Hs : forall t, 0 <= t <= 65535 -> blendExact 3 b t = b + t - b * t / 65535).
  { intros t Ht. rewrite blendExact_Screen_Multiply by lia. reflexivity. }
  change CompositeVideoClip.Screen with 3. rewrite !Hs by lia.
  unfold blendExact, CompositeVideoClip.Multiply, CompositeVideoClip.Add,
    CompositeVideoClip.Darken, CompositeVideoClip.Lighten. cbn [Z.eqb Pos.eqb].
  rewrite Z.div_mul by lia. rewrite !Z.mul_0_r. change (0 / 65535) with 0.
  repeat split; f_equal; repeat case_match; lia.
Qed.

Lemma blendChannel_neutral_absorbing_witness :
  CompositeVideoClip.blendChannel CompositeVideoClip.Multiply (U32.lit 1234) (U32.lit 65535)
  = U32.lit 1234.
Proof.
  exact (proj1 (proj1 (blendChannel_neutral_absorbing 1234 ltac:(lia)))).
Defined.

(** X2.  Multiply, Screen, Add, Darken and Lighten (the modes 1 to 5) are
    commutative on a channel: base and overlay can be exchanged. *)
Theorem blendChannel_comm (mode b t : Z) :
  1 <= mode <= 5 -> 0 <= b <= 65535 -> 0 <= t <= 65535 ->
  CompositeVideoClip.blendChannel mode (U32.lit b) (U32.lit t) =
  CompositeVideoClip.blendChannel mode (U32.lit t) (U32.lit b).
Proof.
  intros Hm Hb Ht. rewrite !blendChannel_exact by lia. f_equal.
  assert (mode = 1 \/ mode = 2 \/ mode = 3 \/ mode = 4 \/ mode = 5) as [->|[->|[->|[->| ->]]]] by lia.
  - unfold blendExact. cbn. rewrite (Z.add_comm t b). reflexivity.
  - unfold blendExact. cbn. rewrite (Z.mul_comm t b). reflexivity.
  - unfold blendExact. cbn. rewrite (Z.mul_comm (65535 - t)). reflexivity.
  - unfold blendExact. cbn. repeat case_match; lia.
  - unfold blendExact. cbn. repeat case_match; lia.
Qed.

Lemma blendChannel_comm_witness :
  CompositeVideoClip.blendChannel CompositeVideoClip.Screen (U32.lit 100) (U32.lit 60000) =
  CompositeVideoClip.blendChannel CompositeVideoClip.Screen (U32.lit 60000) (U32.lit 100).
Proof. apply (blendChannel_comm 3 100 60000); lia. Defined.

(** X3.  How the blend modes compare on one channel, for a base [b] and an
    overlay [t] in 0..65535: Multiply <= Darken <= Lighten <= Screen <= Add,
    where Darken is the minimum and Lighten the maximum of the two, Add is
    the sum cut at 65535, and Screen is [b + t] less the Multiply value. *)
Theorem blendChannel_order (b t : Z) :
  0 <= b <= 65535 -> 0 <= t <= 65535 ->
  let v mode := U32.val (CompositeVideoClip.blendChannel mode (U32.lit b) (U32.lit t)) in
  v CompositeVideoClip.Multiply <= v CompositeVideoClip.Darken /\
  v CompositeVideoClip.Darken = Z.min b t /\
  v CompositeVideoClip.Lighten = Z.max b t /\
  v CompositeVideoClip.Lighten <= v CompositeVideoClip.Screen /\
  v CompositeVideoClip.Screen <= v CompositeVideoClip.Add /\
  v CompositeVideoClip.Add = Z.min 65535 (b + t) /\
  v CompositeVideoClip.Screen = b + t - v CompositeVideoClip.Multiply.
Proof.
  intros Hb Ht. cbv beta zeta. rewrite !blendChannel_exact by lia. cbn [U32.val].
  change CompositeVideoClip.Screen with 3. change CompositeVideoClip.Multiply with 2.
  rewrite blendExact_Screen_Multiply by lia.
  unfold blendExact, CompositeVideoClip.Add, CompositeVideoClip.Darken, CompositeVideoClip.Lighten.
  cbn [Z.eqb Pos.eqb].
  pose proof (div65535_bounds (b * t) ltac:(nia)).
  repeat split; repeat case_match; nia.
Qed.

Lemma blendChannel_order_witness :
  let v mode := U32.val (CompositeVideoClip.blendChannel mode (U32.lit 30000) (U32.lit 50000)) in
  v 2 <= v 4 /\ v 4 = 30000 /\ v 5 = 50000 /\ v 5 <= v 3 /\ v 3 <= v 1 /\ v 1 = 65535 /\
  v 3 = 30000 + 50000 - v 2.
Proof. apply (blendChannel_order 30000 50000); lia. Defined.

(** ** In-place loops *)

Lemma range_NoDup (lo hi : Z) : NoDup (GoInt.range lo hi).
Proof.
  unfold GoInt.range.
  change (NoDup ((fun i => lo + Z.of_nat i) <$> seq 0 (Z.to_nat (hi - lo)))).
  apply NoDup_fmap_2; [|apply NoDup_seq]. intros i j. lia.
Qed.

Lemma for_loop_cons {S : Type} (a : Z) (l : list Z) (body : Z -> S -> S) (s : S) :
  for_loop (a :: l) body s = for_loop l body (body a s).
Proof. reflexivity. Qed.

(** One row of a loop that rewrites points of an image in place: the
    point [(tx x, ty)] gets [f x] of the colour it holds, unless [skip x]. *)
Lemma repaint_row (xs : list Z) (tx : Z -> Z) (ty : Z) (skip : Z -> bool)
    (f : Z -> Color.t -> Color.t) (img : Image.RGBA) :
  NoDup xs -> (forall x x', List.In x xs -> List.In x' xs -> tx x = tx x' -> x = x') ->
  let res := for_loop xs (fun x img =>
               if skip x then img
               else Image.Set_ img (tx x) ty (f x (Image.At img (tx x) ty))) img in
  Image.Bounds res = Image.Bounds img /\
  (forall x, List.In x xs -> skip x = false ->
     Image.At res (tx x) ty =
     if Image.In (tx x) ty (Image.Bounds img)
     then Image.stored (f x (Image.At img (tx x) ty)) else Color.zero) /\
  (forall px py, ~ (exists x, List.In x xs /\ skip x = false /\ px = tx x /\ py = ty) ->
     Image.At res px py = Image.At img px py).
Proof.
  intros Hnd. revert img. induction Hnd as [|a xs Ha Hnd IH]; intros img Hinj; cbv zeta.
  { cbn. split; [done|]. split; [by intros x []|done]. }
  rewrite for_loop_cons.
  set (img1 := if skip a then img else Image.Set_ img (tx a) ty (f a (Image.At img (tx a) ty))).
  destruct (IH img1) as (HB & Hin & Hout).
  { intros x x' Hx Hx' E. apply Hinj; [by right|by right|done]. }
  assert (HB1 : Image.Bounds img1 = Image.Bounds img).
  { subst img1. destruct (skip a); [done|apply Set_Bounds]. }
  assert (Hother : forall px py, (px, py) <> (tx a, ty) -> Image.At img1 px py = Image.At img px py).
  { intros px py Hne. subst img1. destruct (skip a); [done|]. by apply At_Set_ne. }
  split; [by rewrite HB|]. split.
  - intros x [<-|Hx] Hs.
    + rewrite Hout.
      * subst img1. rewrite Hs. apply At_Set_eq.
      * intros (x' & Hx' & _ & Hxx & _). apply Ha.
        rewrite (Hinj a x'); [by apply list_elem_of_In|by left|by right|done].
    + rewrite (Hin x Hx Hs), HB1. rewrite Hother; [done|].
      intros [= Hxx]. apply Ha. rewrite (Hinj a x); [by apply list_elem_of_In|by left|by right|done].
  - intros px py Hnot. rewrite Hout.
    + destruct (skip a) eqn:Hs; [by subst img1|].
      apply Hother. intros [= -> ->]. apply Hnot. exists a. split; [by left|done].
    + intros (x & Hx & Hs & -> & ->). apply Hnot. exists x. split; [by right|done].
Qed.

(** The nested loop. *)
Lemma repaint_rows (ys xs : list Z) (tx ty : Z -> Z) (skip : Z -> Z -> bool)
    (f : Z -> Z -> Color.t -> Color.t) (img : Image.RGBA) :
  NoDup xs -> NoDup ys ->
  (forall x x', List.In x xs -> List.In x' xs -> tx x = tx x' -> x = x') ->
  (forall y y', List.In y ys -> List.In y' ys -> ty y = ty y' -> y = y') ->
  let res := for_loop ys (fun y img =>
               for_loop xs (fun x img =>
                 if skip x y then img
                 else Image.Set_ img (tx x) (ty y) (f x y (Image.At img (tx x) (ty y)))) img) img in
  Image.Bounds res = Image.Bounds img /\
  (forall x y, List.In x xs -> List.In y ys -> skip x y = false ->
     Image.At res (tx x) (ty y) =
     if Image.In (tx x) (ty y) (Image.Bounds img)
     then Image.stored (f x y (Image.At img (tx x) (ty y))) else Color.zero) /\
  (forall px py,
     ~ (exists x y, List.In x xs /\ List.In y ys /\ skip x y = false /\ px = tx x /\ py = ty y) ->
     Image.At res px py = Image.At img px py).
Proof.
  intros Hxs Hys Hix. revert img. induction Hys as [|b ys Hb Hys IH]; intros img Hiy; cbv zeta.
  { cbn. split; [done|]. split; [by intros x y _ []|done]. }
  rewrite for_loop_cons.
  destruct (repaint_row xs tx (ty b) (fun x => skip x b) (fun x => f x b) img Hxs Hix)
    as (HB1 & Hin1 & Hout1).
  set (img1 := for_loop xs _ img) in *.
  destruct (IH img1) as (HB & Hin & Hout).
  { intros y y' Hy Hy' E. apply Hiy; [by right|by right|done]. }
  split; [by rewrite HB|]. split.
  - intros x y Hx [<-|Hy] Hs.
    + rewrite Hout; [by apply Hin1|].
      intros (x' & y' & _ & Hy' & _ & _ & Hyy). apply Hb.
      rewrite (Hiy b y'); [by apply list_elem_of_In|by left|by right|done].
    + rewrite (Hin x y Hx Hy Hs), HB1. rewrite Hout1; [done|].
      intros (x' & _ & _ & _ & Hyy). apply Hb.
      rewrite (Hiy b y); [by apply list_elem_of_In|by left|by right|done].
  - intros px py Hnot. rewrite Hout.
    + apply Hout1. intros (x & Hx & Hs & -> & ->). apply Hnot. exists x, b.
      split; [done|]. split; [by left|done].
    + intros (x & y & Hx & Hy & Hs & -> & ->). apply Hnot. exists x, y.
      split; [done|]. split; [by right|done].
Qed.

(** X4.  What [compositeFrame] does to the store, for a base and an
    overlay that are two different frames and an overlay whose shifted
    bounds are representable.  No other frame changes; the base keeps its
    bounds; a pixel of the base that the shifted overlay covers becomes the
    blend of the two pixels (as the frame stores it), every other pixel of
    the base is unchanged. *)
Theorem compositeFrame_pixels (base overlay : Store.loc)
    (position : CompositeVideoClip.Position) (mode : Z) (σ : Store.t)
    (bimg oimg : Image.RGBA) (ox oy : Z) :
  base <> overlay -> σ !! base = Some bimg -> σ !! overlay = Some oimg ->
  CompositeVideoClip.calculateOffset (Image.Bounds bimg) (Image.Bounds oimg) position = (ox, oy) ->
  GoInt.in_range (ox + Image.MinX (Image.Bounds oimg)) ->
  GoInt.in_range (ox + Image.MaxX (Image.Bounds oimg)) ->
  GoInt.in_range (oy + Image.MinY (Image.Bounds oimg)) ->
  GoInt.in_range (oy + Image.MaxY (Image.Bounds oimg)) ->
  let σ' := CompositeVideoClip.compositeFrame base overlay position mode σ in
  (forall k, k <> base -> σ' !! k = σ !! k) /\
  Store.Bounds σ' base = Image.Bounds bimg /\
  forall x y,
    Store.At σ' base x y =
    if Image.In x y (Image.Bounds bimg) && Image.In (x - ox) (y - oy) (Image.Bounds oimg)
    then Image.stored
           (CompositeVideoClip.blendColors (Image.At bimg x y)
              (Image.At oimg (x - ox) (y - oy)) mode)
    else Image.At bimg x y.
Proof.
  intros Hne Hb Ho Hoff Hx0 Hx1 Hy0 Hy1 σ'.
  split; [intros k Hk; by apply compositeFrame_others|].
  subst σ'. unfold CompositeVideoClip.compositeFrame. cbv zeta. unfold Store.Bounds.
  rewrite Hb, Ho, Hoff.
  set (bb := Image.Bounds bimg) in *. set (ob := Image.Bounds oimg) in *.
  set (skip := fun x y : Z =>
    (GoInt.add ox x <? Image.MinX bb) || (Image.MaxX bb <=? GoInt.add ox x)
    || (GoInt.add oy y <? Image.MinY bb) || (Image.MaxY bb <=? GoInt.add oy y)).
  set (f := fun (x y : Z) (c : Color.t) =>
    CompositeVideoClip.blendColors c (Image.At oimg x y) mode).
  set (ibody := fun (x y : Z) (img : Image.RGBA) =>
    if skip x y then img
    else Image.Set_ img (GoInt.add ox x) (GoInt.add oy y)
           (f x y (Image.At img (GoInt.add ox x) (GoInt.add oy y)))).
  rewrite (store_loop_lift base _ _
             (fun y img => for_loop (GoInt.range (Image.MinX ob) (Image.MaxX ob))
                             (fun x img => ibody x y img) img) σ bimg); [| |exact Hb].
  2:{ intros y σ1 img1 H1 Hk1.
      apply (store_loop_lift base _ _ (fun x img => ibody x y img)); [|exact H1].
      intros x σ2 img2 H2 Hk2. subst ibody skip f. cbv beta.
      destruct (_ || _); [by rewrite insert_id|].
      unfold Store.Set_, Store.At. rewrite H2.
      rewrite (Hk2 overlay), (Hk1 overlay), Ho by done.
      unfold CompositeVideoClip.applyOpacity. by destruct (GoFloat.ltb _ _). }
  destruct (repaint_rows (GoInt.range (Image.MinY ob) (Image.MaxY ob))
              (GoInt.range (Image.MinX ob) (Image.MaxX ob))
              (GoInt.add ox) (GoInt.add oy) skip f bimg) as (HB & Hin & Hout).
  { apply range_NoDup. } { apply range_NoDup. }
  { intros x x' Hx Hx'. apply In_range in Hx, Hx'. unfold GoInt.add.
    rewrite !wrap_small by (unfold GoInt.in_range in *; lia). lia. }
  { intros y y' Hy Hy'. apply In_range in Hy, Hy'. unfold GoInt.add.
    rewrite !wrap_small by (unfold GoInt.in_range in *; lia). lia. }
  fold ibody in HB, Hin, Hout.
  set (res := for_loop _ _ bimg) in *.
  unfold Store.Bounds, Store.At. rewrite lookup_insert_eq. split; [exact HB|].
  intros x y.
  assert (Hskip : forall x' y', x' ∈ GoInt.range (Image.MinX ob) (Image.MaxX ob) ->
            y' ∈ GoInt.range (Image.MinY ob) (Image.MaxY ob) ->
            GoInt.add ox x' = ox + x' /\ GoInt.add oy y' = oy + y' /\
            skip x' y' = negb (Image.In (ox + x') (oy + y') bb)).
  { intros x' y' Hx' Hy'. apply list_elem_of_In, In_range in Hx', Hy'.
    assert (Ex : GoInt.add ox x' = ox + x')
      by (unfold GoInt.add; apply wrap_small; unfold GoInt.in_range in *; lia).
    assert (Ey : GoInt.add oy y' = oy + y')
      by (unfold GoInt.add; apply wrap_small; unfold GoInt.in_range in *; lia).
    split; [done|]. split; [done|]. subst skip. cbv beta. rewrite Ex, Ey.
    unfold Image.In.
    destruct (Z.ltb_spec (ox + x') (Image.MinX bb)), (Z.leb_spec (Image.MaxX bb) (ox + x')),
      (Z.ltb_spec (oy + y') (Image.MinY bb)), (Z.leb_spec (Image.MaxY bb) (oy + y'));
      destruct (Z.leb_spec (Image.MinX bb) (ox + x')), (Z.ltb_spec (ox + x') (Image.MaxX bb)),
        (Z.leb_spec (Image.MinY bb) (oy + y')), (Z.ltb_spec (oy + y') (Image.MaxY bb));
      cbn; try reflexivity; lia. }
  destruct (Image.In x y bb) eqn:Ebb; cbn [andb].
  - destruct (Image.In (x - ox) (y - oy) ob) eqn:Eob.
    + apply In_ranges in Eob as [Hx Hy].
      destruct (Hskip (x - ox) (y - oy)) as (Ex & Ey & Es);
        [by apply list_elem_of_In|by apply list_elem_of_In|].
      replace (ox + (x - ox)) with x in * by lia. replace (oy + (y - oy)) with y in * by lia.
      rewrite Ebb in Es. cbn in Es.
      specialize (Hin (x - ox) (y - oy) Hx Hy Es). rewrite Ex, Ey in Hin.
      fold bb in Hin. rewrite Ebb in Hin. exact Hin.
    + apply Hout. intros (x' & y' & Hx' & Hy' & Hs & -> & ->).
      destruct (Hskip x' y') as (Ex & Ey & _);
        [by apply list_elem_of_In|by apply list_elem_of_In|].
      rewrite Ex, Ey in Eob.
      replace (ox + x' - ox) with x' in Eob by lia. replace (oy + y' - oy) with y' in Eob by lia.
      assert (Image.In x' y' ob = true) by (by apply In_ranges). congruence.
  - apply Hout. intros (x' & y' & Hx' & Hy' & Hs & -> & ->).
    destruct (Hskip x' y') as (Ex & Ey & Es);
      [by apply list_elem_of_In|by apply list_elem_of_In|].
    rewrite Ex, Ey in Ebb. rewrite Ebb in Es. cbn in Es. congruence.
Qed.

Lemma compositeFrame_pixels_witness :
  Store.At (CompositeVideoClip.compositeFrame 1 2 CompositeVideoClip.NewCenteredPosition
              CompositeVideoClip.Multiply MoreExamples.twoFrames) 1 0 0 =
  Image.stored
    (CompositeVideoClip.blendColors (Image.At Examples.frame1x1 0 0)
       (Image.At MoreExamples.overlay1x1 0 0) CompositeVideoClip.Multiply).
Proof.
  destruct (compositeFrame_pixels 1 2 CompositeVideoClip.NewCenteredPosition
              CompositeVideoClip.Multiply MoreExamples.twoFrames
              Examples.frame1x1 MoreExamples.overlay1x1 0 0) as (_ & _ & H).
  - discriminate.
  - vm_compute. reflexivity.
  - vm_compute. reflexivity.
  - vm_compute. reflexivity.
  - unfold GoInt.in_range, GoInt.min_int, GoInt.max_int. simpl. lia.
  - unfold GoInt.in_range, GoInt.min_int, GoInt.max_int. simpl. lia.
  - unfold GoInt.in_range, GoInt.min_int, GoInt.max_int. simpl. lia.
  - unfold GoInt.in_range, GoInt.min_int, GoInt.max_int. simpl. lia.
  - exact (H 0 0).
Defined.

(** ** The conversion loop of the writer *)

Lemma assign_Ok (l : list Z) (i v : Z) :
  0 <= i < Z.of_nat (length l) -> assign l i v = Ok (<[Z.to_nat i := v]> l).
Proof.
  intros Hi. unfold assign.
  destruct (Z.ltb_spec i 0); [lia|]. destruct (Z.leb_spec (Z.of_nat (length l)) i); [lia|].
  reflexivity.
Qed.

Lemma byteAt_insert (l : list Z) (i j v : Z) :
  0 <= i < Z.of_nat (length l) -> 0 <= j ->
  byteAt (<[Z.to_nat i := v]> l) j = if j =? i then v else byteAt l j.
Proof.
  intros Hi Hj. unfold byteAt. destruct (Z.eqb_spec j i) as [->|Hne].
  - rewrite list_lookup_insert_eq by lia. reflexivity.
  - rewrite list_lookup_insert_ne by lia. reflexivity.
Qed.



Lemma packPixel_spec (c : Z * Z * Z * Z) (pd : list Z) (idx : Z) :
  0 <= idx -> idx + 3 <= Z.of_nat (length pd) -> Z.of_nat (length pd) <= GoInt.max_int ->
  exists pd', VideoWriter.packPixel c (pd, idx) = Ok (pd', idx + 3) /\
    length pd' = length pd /\
    (forall k, 0 <= k < 3 -> byteAt pd' (idx + k) = VideoWriter.rgb8 c k) /\
    (forall i, 0 <= i -> ~ (idx <= i < idx + 3) -> byteAt pd' i = byteAt pd i).
Proof.
  intros H0 H3 Hmax. destruct c as [[[r g] b] a]. unfold VideoWriter.packPixel, GoInt.add.
  rewrite !wrap_small by (unfold GoInt.in_range, GoInt.min_int, GoInt.max_int in *; lia).
  rewrite assign_Ok by lia. cbn [mbind outcome_bind].
  rewrite assign_Ok by (rewrite length_insert; lia). cbn [mbind outcome_bind].
  rewrite assign_Ok by (rewrite !length_insert; lia). cbn [mbind outcome_bind].
  eexists. split; [reflexivity|]. split; [by rewrite !length_insert|]. split.
  - intros k Hk. unfold VideoWriter.rgb8.
    rewrite !byteAt_insert by (rewrite ?length_insert; lia).
    assert (k = 0 \/ k = 1 \/ k = 2) as [->|[->| ->]] by lia; cbn [Z.eqb];
      repeat (match goal with |- context [?a =? ?b] => destruct (Z.eqb_spec a b); try lia end);
      try reflexivity.
  - intros i Hi Hout. rewrite !byteAt_insert by (rewrite ?length_insert; lia).
    repeat (match goal with |- context [?a =? ?b] => destruct (Z.eqb_spec a b); try lia end);
      try reflexivity.
Qed.

(** One row: the pixels [col x], [x] in [xs], are stored from [idx] on. *)
Lemma pack_row (xs : list Z) (col : Z -> Z * Z * Z * Z) (pd : list Z) (idx : Z) :
  0 <= idx -> idx + 3 * Z.of_nat (length xs) <= Z.of_nat (length pd) ->
  Z.of_nat (length pd) <= GoInt.max_int ->
  exists pd',
    for_each xs (fun x st => VideoWriter.packPixel (col x) st) (pd, idx)
      = Ok (pd', idx + 3 * Z.of_nat (length xs)) /\
    length pd' = length pd /\
    (forall (j : nat) x k, xs !! j = Some x -> 0 <= k < 3 ->
       byteAt pd' (idx + 3 * Z.of_nat j + k) = VideoWriter.rgb8 (col x) k) /\
    (forall i, 0 <= i -> ~ (idx <= i < idx + 3 * Z.of_nat (length xs)) ->
       byteAt pd' i = byteAt pd i).
Proof.
  revert pd idx. induction xs as [|a xs IH]; intros pd idx H0 Hlen Hmax.
  { exists pd. cbn. split; [f_equal; f_equal; lia|]. split; [done|]. split; [by intros [] ? ?|done]. }
  cbn [for_each length] in *.
  destruct (packPixel_spec (col a) pd idx) as (pd1 & E1 & L1 & Hin1 & Hout1); [lia..|].
  rewrite E1. cbn [mbind outcome_bind].
  destruct (IH pd1 (idx + 3)) as (pd' & E & L & Hin & Hout); [lia|rewrite L1; lia|rewrite L1; lia|].
  exists pd'. split; [rewrite E; f_equal; f_equal; lia|]. split; [congruence|]. split.
  - intros [|j] x k Hj Hk.
    + injection Hj as <-. rewrite Hout by lia.
      replace (idx + 3 * Z.of_nat 0 + k) with (idx + k) by lia. by apply Hin1.
    + replace (idx + 3 * Z.of_nat (S j) + k) with (idx + 3 + 3 * Z.of_nat j + k) by lia.
      by apply Hin.
  - intros i Hi Hnot. rewrite Hout by lia. apply Hout1; lia.
Qed.

(** All rows. *)
Lemma pack_rows (ys xs : list Z) (col : Z -> Z -> Z * Z * Z * Z) (pd : list Z) (idx : Z) :
  0 <= idx ->
  idx + 3 * (Z.of_nat (length ys) * Z.of_nat (length xs)) <= Z.of_nat (length pd) ->
  Z.of_nat (length pd) <= GoInt.max_int ->
  exists pd',
    for_each ys (fun y st => for_each xs (fun x st => VideoWriter.packPixel (col x y) st) st) (pd, idx)
      = Ok (pd', idx + 3 * (Z.of_nat (length ys) * Z.of_nat (length xs))) /\
    length pd' = length pd /\
    (forall (i j : nat) x y k, ys !! i = Some y -> xs !! j = Some x -> 0 <= k < 3 ->
       byteAt pd' (idx + 3 * (Z.of_nat i * Z.of_nat (length xs) + Z.of_nat j) + k)
       = VideoWriter.rgb8 (col x y) k) /\
    (forall i, 0 <= i ->
       ~ (idx <= i < idx + 3 * (Z.of_nat (length ys) * Z.of_nat (length xs))) ->
       byteAt pd' i = byteAt pd i).
Proof.
  revert pd idx. induction ys as [|b ys IH]; intros pd idx H0 Hlen Hmax.
  { exists pd. cbn. split; [f_equal; f_equal; lia|]. split; [done|].
    split; [by intros [] ? ? ? ?|done]. }
  cbn [for_each length] in *.
  destruct (pack_row xs (fun x => col x b) pd idx) as (pd1 & E1 & L1 & Hin1 & Hout1); [lia..|].
  rewrite E1. cbn [mbind outcome_bind].
  destruct (IH pd1 (idx + 3 * Z.of_nat (length xs))) as (pd' & E & L & Hin & Hout);
    [lia|rewrite L1; lia|rewrite L1; lia|].
  exists pd'. split; [rewrite E; f_equal; f_equal; lia|]. split; [congruence|]. split.
  - intros [|i] j x y k Hi Hj Hk.
    + injection Hi as <-. apply lookup_lt_Some in Hj as Hjlt.
      rewrite Hout by nia.
      replace (idx + 3 * (Z.of_nat 0 * Z.of_nat (length xs) + Z.of_nat j) + k)
        with (idx + 3 * Z.of_nat j + k) by lia.
      by apply (Hin1 j x k).
    + replace (idx + 3 * (Z.of_nat (S i) * Z.of_nat (length xs) + Z.of_nat j) + k)
        with (idx + 3 * Z.of_nat (length xs)
              + 3 * (Z.of_nat i * Z.of_nat (length xs) + Z.of_nat j) + k) by lia.
      by apply (Hin i j x y k).
  - intros i Hi Hnot. rewrite Hout by lia. apply Hout1; lia.
Qed.

Lemma range_length (lo hi : Z) : length (GoInt.range lo hi) = Z.to_nat (hi - lo).
Proof. unfold GoInt.range. by rewrite length_map, length_seq. Qed.

Lemma range_lookup (lo hi : Z) (i : nat) :
  (Z.of_nat i < hi - lo) -> GoInt.range lo hi !! i = Some (lo + Z.of_nat i).
Proof.
  intros Hi. unfold GoInt.range.
  change (((fun i => lo + Z.of_nat i) <$> seq 0 (Z.to_nat (hi - lo))) !! i = Some (lo + Z.of_nat i)).
  rewrite list_lookup_fmap, lookup_seq_lt by lia. reflexivity.
Qed.

(** What [packFrame] returns: the frame's pixels as [width*height*3]
    bytes, three per pixel, row by row. *)
Lemma packFrame_spec (vw : VideoWriter.t) (frame : Image.RGBA) :
  let W := VideoWriter.width vw in
  let H := VideoWriter.height vw in
  0 <= W -> 0 <= H -> 3 * (W * H) <= GoInt.max_int ->
  exists pd, VideoWriter.packFrame vw frame = Ok pd /\
    Z.of_nat (length pd) = W * H * 3 /\
    forall x y k, 0 <= x < W -> 0 <= y < H -> 0 <= k < 3 ->
      byteAt pd (3 * (y * W + x) + k) =
      VideoWriter.rgb8 (Color.channels
              (Image.At frame (GoInt.add (Image.MinX (Image.Bounds frame)) x)
                              (GoInt.add (Image.MinY (Image.Bounds frame)) y))) k.
Proof.
  intros W H HW HH Hmax. unfold VideoWriter.packFrame. fold W H.
  assert (Hn : GoInt.mul (GoInt.mul W H) 3 = W * H * 3).
  { unfold GoInt.mul.
    rewrite (wrap_small (W * H))
      by (unfold GoInt.in_range, GoInt.min_int, GoInt.max_int in *; nia).
    apply wrap_small. unfold GoInt.in_range, GoInt.min_int, GoInt.max_int in *. nia. }
  rewrite Hn. unfold make_bytes. destruct (Z.ltb_spec (W * H * 3) 0); [nia|].
  cbn [mbind outcome_bind].
  set (col := fun x y : Z =>
    Color.channels (Image.At frame (GoInt.add (Image.MinX (Image.Bounds frame)) x)
                                   (GoInt.add (Image.MinY (Image.Bounds frame)) y))).
  destruct (pack_rows (GoInt.range 0 H) (GoInt.range 0 W) col
              (replicate (Z.to_nat (W * H * 3)) 0) 0) as (pd & E & L & Hin & _).
  { lia. } { rewrite !range_length, length_replicate. nia. } { rewrite length_replicate. lia. }
  rewrite (for_each_ext _ _ (fun y st =>
             for_each (GoInt.range 0 W) (fun x st => VideoWriter.packPixel (col x y) st) st)).
  2:{ intros y st _. apply for_each_ext. intros x [pd0 idx0] _.
      subst col. unfold VideoWriter.packPixel. reflexivity. }
  rewrite E. cbn [mbind outcome_bind fst].
  exists pd. split; [reflexivity|]. split; [rewrite L, length_replicate; lia|].
  intros x y k Hx Hy Hk.
  specialize (Hin (Z.to_nat y) (Z.to_nat x) x y k).
  rewrite !range_length in Hin. rewrite !range_lookup in Hin by lia.
  replace (0 + 3 * (Z.of_nat (Z.to_nat y) * Z.of_nat (Z.to_nat (W - 0)) + Z.of_nat (Z.to_nat x)) + k)
    with (3 * (y * W + x) + k) in Hin by lia.
  apply Hin; [f_equal; lia|f_equal; lia|lia].
Qed.

(** X7.  A successful [WriteFrame].  On an open writer whose transcoder
    runs, for a frame of the writer's size and a write that succeeds, the
    call returns nil, leaves the writer as it is and appends exactly
    [width * height * 3] bytes to the pipe: byte [3 * (y * width + x) + k]
    is the high byte of channel [k] (red, green, blue) of the pixel at
    column [x], row [y] counted from the frame's upper left corner. *)
Theorem WriteFrame_appends_frame (vw : VideoWriter.t) (frame : Image.RGBA)
    (env : VideoWriter.WriteEnv) (mp : ProcessManager.ManagedProcess) :
  VideoWriter.closed vw = false -> VideoWriter.process vw = Some mp ->
  ProcessManager.done mp = None -> VideoWriter.write_err env = None ->
  Image.Dx (Image.Bounds frame) = VideoWriter.width vw ->
  Image.Dy (Image.Bounds frame) = VideoWriter.height vw ->
  Image.well_sized frame ->
  let W := VideoWriter.width vw in
  let H := VideoWriter.height vw in
  exists bytes,
    VideoWriter.WriteFrame vw frame env =
      (VideoWriter.mk W H false (Some mp) (VideoWriter.stdin vw ++ bytes), Ok tt) /\
    Z.of_nat (length bytes) = W * H * 3 /\
    forall x y, 0 <= x < W -> 0 <= y < H ->
      let '(r, g, b, _) :=
        Color.channels
          (Image.At frame (GoInt.add (Image.MinX (Image.Bounds frame)) x)
                          (GoInt.add (Image.MinY (Image.Bounds frame)) y)) in
      byteAt bytes (3 * (y * W + x)) = GoInt.u8 (Z.shiftr r 8) /\
      byteAt bytes (3 * (y * W + x) + 1) = GoInt.u8 (Z.shiftr g 8) /\
      byteAt bytes (3 * (y * W + x) + 2) = GoInt.u8 (Z.shiftr b 8).
Proof.
  intros Hc Hp Hd Hw Hdx Hdy Hsz W H.
  unfold Image.well_sized in Hsz. rewrite Hdx, Hdy in Hsz. fold W H in Hsz.
  apply mul3NonNeg_4_ok in Hsz as (HW & HH & _ & Hprod).
  destruct (packFrame_spec vw frame) as (pd & Epack & Hlen & Hbytes);
    [done|done|unfold GoInt.max_int; fold W H; nia|].
  exists pd. split; [|split; [exact Hlen|]].
  - unfold VideoWriter.WriteFrame. rewrite Hc, Hp, Hdx, Hdy, !Z.eqb_refl. cbn [negb orb].
    rewrite Epack, Hd, Hw. reflexivity.
  - intros x y Hx Hy.
    pose proof (Hbytes x y 0 Hx Hy ltac:(lia)) as B0.
    pose proof (Hbytes x y 1 Hx Hy ltac:(lia)) as B1.
    pose proof (Hbytes x y 2 Hx Hy ltac:(lia)) as B2.
    fold W in B0, B1, B2. rewrite Z.add_0_r in B0.
    destruct (Color.channels _) as [[[r g] b] a]. cbn in B0, B1, B2. done.
Qed.

Lemma WriteFrame_appends_frame_witness :
  exists bytes,
    VideoWriter.WriteFrame MoreExamples.openWriter2x2 MoreExamples.painted2x2 MoreExamples.quiet =
      (VideoWriter.mk 2 2 false (Some MoreExamples.running100) ([] ++ bytes), Ok tt) /\
    Z.of_nat (length bytes) = 12.
Proof.
  destruct (WriteFrame_appends_frame MoreExamples.openWriter2x2 MoreExamples.painted2x2
              MoreExamples.quiet MoreExamples.running100) as (bytes & E & L & _).
  - reflexivity.
  - reflexivity.
  - reflexivity.
  - reflexivity.
  - vm_compute. reflexivity.
  - vm_compute. reflexivity.
  - unfold Image.well_sized. vm_compute. discriminate.
  - exists bytes. split; [exact E|exact L].
Defined.

(** ** Decoding, and the round trip through the writer *)

(** What a successful [GetFrame] has done. *)
Lemma GetFrame_Ok_inv (vr : VideoReader.t) (info : VideoReader.VideoInfo)
    (time : Z) (env : VideoReader.Transcoder) (img : Image.RGBA) (tr : list VideoReader.action) :
  VideoReader.info vr = Some info ->
  GoInt.in_range (VideoReader.Width info) -> GoInt.in_range (VideoReader.Height info) ->
  VideoReader.GetFrame vr time env = (Ok img, tr) ->
  let W := VideoReader.Width info in
  let H := VideoReader.Height info in
  VideoReader.closed vr = false /\
  GoFloat.gtb (Seconds time) (VideoReader.Duration info) = false /\
  VideoReader.pipe_err env = None /\ VideoReader.start_err env = None /\
  VideoReader.exit_err env = None /\
  4 * Z.abs W * Z.abs H < 2 ^ 63 /\
  0 <= W * H * 3 <= Z.of_nat (length (VideoReader.stdout env)) /\
  Image.Bounds img = Image.Rect 0 0 W H /\
  VideoReader.fillImage W H (take (Z.to_nat (W * H * 3)) (VideoReader.stdout env))
    (Image.mkRGBA ∅ (Image.Rect 0 0 W H)) = Ok img.
Proof.
  intros Hinfo HW HH. unfold VideoReader.GetFrame. rewrite Hinfo.
  destruct (VideoReader.closed vr); [discriminate|].
  destruct (GoFloat.gtb _ _); [discriminate|].
  destruct (VideoReader.pipe_err env); [discriminate|].
  destruct (VideoReader.start_err env); [discriminate|].
  destruct (make_bytes _) as [buf| |] eqn:Em; [|discriminate|discriminate].
  apply make_bytes_Ok in Em as [Hn0 Hlen].
  destruct (VideoReader.ReadFull _ _) as [pd [e|]] eqn:Er; [discriminate|].
  apply ReadFull_None in Er as [Hle ->].
  destruct (VideoReader.exit_err env); [discriminate|].
  unfold mbind, outcome_bind.
  destruct (Image.NewRGBA _) as [img0| |] eqn:En; [|discriminate|discriminate].
  apply NewRGBA_origin_ok in En as [-> Hsz]; [|assumption|assumption].
  rewrite frame_size_no_wrap in Hn0, Hlen by exact Hsz.
  intros [= Hfill <-]. cbv zeta. rewrite Hlen in Hfill, Hle.
  repeat split; try done; try lia.
  unfold VideoReader.fillImage in Hfill. apply paint_rows in Hfill as (HB & _). exact HB.
Qed.

Lemma shiftr8_widen (c : Z) : 0 <= c < 256 -> GoInt.u8 (Z.shiftr (Color.widen c) 8) = c.
Proof.
  intros H.
  assert (Hall : forallb (fun c => GoInt.u8 (Z.shiftr (Color.widen c) 8) =? c)
                   (GoInt.range 0 256) = true) by (vm_compute; reflexivity).
  rewrite forallb_forall in Hall. apply Z.eqb_eq, Hall, In_range. exact H.
Qed.

Lemma byteAt_in (s : list Z) (i : Z) :
  Forall (fun b => 0 <= b < 256) s -> 0 <= byteAt s i < 256.
Proof.
  intros Hs. unfold byteAt. destruct (s !! Z.to_nat i) as [b|] eqn:E; cbn; [|lia].
  rewrite Forall_forall in Hs. apply Hs. by eapply list_elem_of_lookup_2.
Qed.

Lemma byteAt_eq (l1 l2 : list Z) :
  length l1 = length l2 ->
  (forall i, 0 <= i < Z.of_nat (length l1) -> byteAt l1 i = byteAt l2 i) -> l1 = l2.
Proof.
  intros Hlen Hall. apply list_eq. intros i.
  destruct (decide (i < length l1)%nat) as [Hi|Hi].
  - specialize (Hall (Z.of_nat i) ltac:(lia)). unfold byteAt in Hall.
    rewrite Nat2Z.id in Hall.
    destruct (lookup_lt_is_Some_2 l1 i Hi) as [a Ha].
    destruct (lookup_lt_is_Some_2 l2 i ltac:(lia)) as [b Hb].
    rewrite Ha, Hb in *. cbn in Hall. congruence.
  - rewrite !lookup_ge_None_2 by lia. reflexivity.
Qed.

(** X8.  Decoding and encoding round trip.  A frame that
    [VideoReader.GetFrame] has decoded from the bytes of its transcoder,
    written by [WriteFrame] to a writer of the same size, sends to the
    encoder exactly the [width * height * 3] bytes that were read. *)
Theorem decode_encode_roundtrip (vr : VideoReader.t) (info : VideoReader.VideoInfo)
    (time : Z) (env : VideoReader.Transcoder) (img : Image.RGBA) (tr : list VideoReader.action)
    (vw : VideoWriter.t) (mp : ProcessManager.ManagedProcess) (wenv : VideoWriter.WriteEnv) :
  VideoReader.info vr = Some info ->
  0 <= VideoReader.Width info <= GoInt.max_int ->
  0 <= VideoReader.Height info <= GoInt.max_int ->
  Forall (fun b => 0 <= b < 256) (VideoReader.stdout env) ->
  VideoReader.GetFrame vr time env = (Ok img, tr) ->
  VideoWriter.width vw = VideoReader.Width info ->
  VideoWriter.height vw = VideoReader.Height info ->
  VideoWriter.closed vw = false -> VideoWriter.process vw = Some mp ->
  ProcessManager.done mp = None -> VideoWriter.write_err wenv = None ->
  let n := Z.to_nat (VideoReader.Width info * VideoReader.Height info * 3) in
  VideoWriter.WriteFrame vw img wenv =
    (VideoWriter.mk (VideoWriter.width vw) (VideoWriter.height vw) false (Some mp)
       (VideoWriter.stdin vw ++ take n (VideoReader.stdout env)), Ok tt).
Proof.
  intros Hinfo HW HH Hbytes Hget Hww Hwh Hc Hp Hd Hwe n.
  destruct (GetFrame_Ok_inv vr info time env img tr Hinfo) as
    (_ & _ & _ & _ & _ & Hsz & Hn & HB & Hfill); [| |exact Hget|].
  { unfold GoInt.in_range, GoInt.min_int, GoInt.max_int in *. lia. }
  { unfold GoInt.in_range, GoInt.min_int, GoInt.max_int in *. lia. }
  set (W := VideoReader.Width info) in *. set (H := VideoReader.Height info) in *.
  rewrite !Z.abs_eq in Hsz by lia.
  assert (Hdims : Image.Dx (Image.Bounds img) = W /\ Image.Dy (Image.Bounds img) = H).
  { rewrite HB.
    destruct (Rect_origin_Dx W H) as [-> ->];
      [unfold GoInt.in_range, GoInt.min_int, GoInt.max_int in *; lia..|].
    rewrite !Z.abs_eq by lia.
    split; apply wrap_small; unfold GoInt.in_range, GoInt.min_int, GoInt.max_int in *; lia. }
  destruct Hdims as [Hdx Hdy].
  destruct (packFrame_spec vw img) as (pd & Epack & Hlen & Hpix);
    [rewrite Hww; lia|rewrite Hwh; lia|rewrite Hww, Hwh; unfold GoInt.max_int; fold W H; nia|].
  rewrite Hww, Hwh in Hlen, Hpix. fold W H in Hlen, Hpix.
  unfold VideoWriter.WriteFrame. rewrite Hc, Hp, Hdx, Hdy, Hww, Hwh, !Z.eqb_refl. cbn [negb orb].
  rewrite Epack, Hd, Hwe. do 3 f_equal.
  (* the packed bytes are the bytes that were read *)
  unfold VideoReader.fillImage in Hfill. apply paint_rows in Hfill as (_ & Hin & _).
  apply byteAt_eq.
  { rewrite length_take. subst n. lia. }
  intros i Hi. rewrite Hlen in Hi.
  assert (HWpos : 0 < W) by nia.
  set (q := i / 3). set (k := i mod 3).
  set (y := q / W). set (x := q mod W).
  assert (Hi3 : i = 3 * q + k) by (subst q k; apply Z.div_mod; lia).
  assert (Hk : 0 <= k < 3) by (subst k; apply Z.mod_pos_bound; lia).
  assert (Hq : q = y * W + x) by (subst y x; rewrite (Z.mul_comm _ W); apply Z.div_mod; lia).
  assert (Hxr : 0 <= x < W) by (subst x; apply Z.mod_pos_bound; lia).
  assert (Hq0 : 0 <= q) by (subst q; apply Z.div_pos; lia).
  assert (Hy0 : 0 <= y) by (subst y; apply Z.div_pos; lia).
  assert (Hyr : y < H) by nia.
  rewrite Hi3, Hq. rewrite (Hpix x y k) by lia.
  rewrite HB. cbn [Image.Rect Image.MinX Image.MinY].
  assert (E0 : forall z, 0 <= z <= GoInt.max_int -> GoInt.add 0 z = z).
  { intros z Hz. unfold GoInt.add. apply wrap_small.
    unfold GoInt.in_range, GoInt.min_int, GoInt.max_int in *. lia. }
  assert (Emin : Image.MinX (Image.Rect 0 0 W H) = 0 /\ Image.MinY (Image.Rect 0 0 W H) = 0).
  { unfold Image.Rect. destruct (Z.ltb_spec W 0), (Z.ltb_spec H 0); try lia. done. }
  destruct Emin as [-> ->]. rewrite !E0 by lia.
  destruct (Hin x y) as (c & Hc' & Hat); [by apply In_range|by apply In_range; lia|].
  apply (pixelOf_Ok W H) in Hc'; [|rewrite ?Z.abs_eq by lia; lia|lia|lia]. subst c.
  rewrite Hat. cbn [Image.Bounds].
  assert (Hinb : Image.In x y (Image.Rect 0 0 W H) = true).
  { unfold Image.Rect, Image.In.
    destruct (Z.ltb_spec W 0); [lia|]. destruct (Z.ltb_spec H 0); [lia|].
    cbn. apply andb_true_iff; split; [|lia].
    apply andb_true_iff; split; [|lia]. apply andb_true_iff; split; lia. }
  rewrite Hinb, stored_RGBA. unfold VideoWriter.rgb8. cbn [Color.channels].
  set (pdin := take (Z.to_nat (W * H * 3)) (VideoReader.stdout env)).
  assert (Hb : forall j, 0 <= byteAt pdin j < 256).
  { intros j. apply byteAt_in. subst pdin. by apply Forall_take. }
  subst n. fold pdin.
  clearbody k.
  assert (k = 0 \/ k = 1 \/ k = 2) as [->|[->| ->]] by lia; cbn [Z.eqb Pos.eqb];
    rewrite shiftr8_widen by apply Hb; f_equal; lia.
Qed.

Lemma decode_encode_roundtrip_witness :
  exists img tr,
    VideoReader.GetFrame Examples.reader10s 0 Examples.twelveBytes = (Ok img, tr) /\
    VideoWriter.WriteFrame MoreExamples.openWriter2x2 img MoreExamples.quiet =
      (VideoWriter.mk 2 2 false (Some MoreExamples.running100)
         [1; 2; 3; 4; 5; 6; 7; 8; 9; 10; 11; 12], Ok tt).
Proof.
  assert (E : exists img tr,
             VideoReader.GetFrame Examples.reader10s 0 Examples.twelveBytes = (Ok img, tr))
    by (vm_compute; eexists _, _; reflexivity).
  destruct E as (img & tr & E). exists img, tr. split; [exact E|].
  apply (decode_encode_roundtrip Examples.reader10s Examples.info10s 0 Examples.twelveBytes
           img tr MoreExamples.openWriter2x2 MoreExamples.running100 MoreExamples.quiet).
  - reflexivity.
  - unfold GoInt.max_int. simpl. lia.
  - unfold GoInt.max_int. simpl. lia.
  - simpl. repeat constructor; lia.
  - exact E.
  - reflexivity.
  - reflexivity.
  - reflexivity.
  - reflexivity.
  - reflexivity.
  - reflexivity.
Defined.

(** ** When decoding succeeds *)

Lemma for_each_total {S : Type} (l : list Z) (body : Z -> S -> outcome S) (s : S) :
  (forall i s', List.In i l -> exists s'', body i s' = Ok s'') ->
  exists s', for_each l body s = Ok s'.
Proof.
  revert s. induction l as [|i l IH]; intros s Hbody; cbn; [by eexists|].
  destruct (Hbody i s) as [s1 ->]; [by left|]. cbn [mbind outcome_bind].
  apply IH. intros j s' Hj. apply Hbody. by right.
Qed.

Lemma index_total (l : list Z) (i : Z) :
  0 <= i < Z.of_nat (length l) -> exists v, index l i = Ok v.
Proof.
  intros Hi. unfold index. destruct (Z.ltb_spec i 0); [lia|].
  destruct (lookup_lt_is_Some_2 l (Z.to_nat i) ltac:(lia)) as [v ->]. by eexists.
Qed.

Lemma fillImage_total (W H : Z) (pd : list Z) (img : Image.RGBA) :
  0 <= W -> 0 <= H -> 4 * W * H < 2 ^ 63 -> Z.of_nat (length pd) = W * H * 3 ->
  exists img', VideoReader.fillImage W H pd img = Ok img'.
Proof.
  intros HW HH Hsz Hlen. unfold VideoReader.fillImage.
  apply for_each_total. intros y img1 Hy. apply In_range in Hy.
  apply for_each_total. intros x img2 Hx. apply In_range in Hx.
  unfold VideoReader.pixelOf.
  destruct (pixel_index_no_wrap W H x y) as [-> Hlt]; [rewrite !Z.abs_eq by lia; lia|lia|lia|].
  unfold GoInt.add.
  rewrite !wrap_small by (unfold GoInt.in_range, GoInt.min_int, GoInt.max_int; nia).
  destruct (index_total pd (3 * (y * W + x))) as [r ->]; [nia|].
  destruct (index_total pd (3 * (y * W + x) + 1)) as [g ->]; [nia|].
  destruct (index_total pd (3 * (y * W + x) + 2)) as [b ->]; [nia|].
  cbn. by eexists.
Qed.

(** X9.  When [VideoReader.GetFrame] succeeds.  For a reader with video
    information of a size whose buffer can be allocated, the call returns a
    frame if and only if the reader is not closed, the time is not past the
    duration, the pipe and the start of the transcoder succeed, the
    transcoder delivers at least [width * height * 3] bytes and it exits
    without error. *)
Theorem GetFrame_succeeds_iff (vr : VideoReader.t) (info : VideoReader.VideoInfo)
    (time : Z) (env : VideoReader.Transcoder) :
  VideoReader.info vr = Some info ->
  let W := VideoReader.Width info in
  let H := VideoReader.Height info in
  0 <= W -> 0 <= H -> 4 * (W + 1) * (H + 1) < 2 ^ 63 ->
  is_ok (VideoReader.GetFrame vr time env).1 = true <->
  VideoReader.closed vr = false /\
  GoFloat.gtb (Seconds time) (VideoReader.Duration info) = false /\
  VideoReader.pipe_err env = None /\ VideoReader.start_err env = None /\
  W * H * 3 <= Z.of_nat (length (VideoReader.stdout env)) /\
  VideoReader.exit_err env = None.
Proof.
  intros Hinfo W H HW HH Hsz.
  assert (HW' : W < 2 ^ 61) by nia. assert (HH' : H < 2 ^ 61) by nia.
  assert (Hsz' : 4 * W * H < 2 ^ 63) by nia. split.
  - destruct (VideoReader.GetFrame vr time env) as [[img| |] tr] eqn:E; try discriminate.
    intros _.
    destruct (GetFrame_Ok_inv vr info time env img tr Hinfo) as
      (? & ? & ? & ? & ? & _ & ? & _); [| |exact E|].
    + unfold GoInt.in_range, GoInt.min_int, GoInt.max_int in *. fold W. lia.
    + unfold GoInt.in_range, GoInt.min_int, GoInt.max_int in *. fold H. lia.
    + subst W H. cbv zeta in *. repeat split; try done; lia.
  - intros (Hc & Hg & Hp & Hs & Hn & He).
    unfold VideoReader.GetFrame. rewrite Hc, Hinfo, Hg, Hp, Hs. fold W H.
    rewrite frame_size_no_wrap by (rewrite !Z.abs_eq by lia; lia).
    unfold make_bytes. destruct (Z.ltb_spec (W * H * 3) 0); [nia|].
    unfold VideoReader.ReadFull. rewrite length_replicate.
    destruct (Nat.leb_spec (Z.to_nat (W * H * 3)) (length (VideoReader.stdout env))); [|lia].
    rewrite He. cbn [fst].
    unfold Image.NewRGBA.
    destruct (Rect_origin_Dx W H) as [-> ->];
      [unfold GoInt.in_range, GoInt.min_int, GoInt.max_int in *; lia..|].
    rewrite !Z.abs_eq by lia.
    rewrite !wrap_small by (unfold GoInt.in_range, GoInt.min_int, GoInt.max_int in *; lia).
    destruct (Z.ltb_spec (Image.mul3NonNeg 4 W H) 0) as [Hneg|_].
    { assert (0 <= Image.mul3NonNeg 4 W H) by (apply mul3NonNeg_4_ok; nia). lia. }
    cbn [mbind outcome_bind].
    destruct (fillImage_total W H (take (Z.to_nat (W * H * 3)) (VideoReader.stdout env))
                (Image.mkRGBA ∅ (Image.Rect 0 0 W H))) as [img' ->]; try lia.
    + rewrite length_take. lia.
    + reflexivity.
Qed.

Lemma GetFrame_succeeds_iff_witness :
  is_ok (VideoReader.GetFrame Examples.reader10s 0 Examples.twelveBytes).1 = true.
Proof.
  apply (GetFrame_succeeds_iff Examples.reader10s Examples.info10s 0 Examples.twelveBytes).
  - reflexivity.
  - simpl. lia.
  - simpl. lia.
  - simpl. lia.
  - repeat split; try reflexivity; simpl; lia.
Defined.

(** ** Clip transformations *)

(** X10.  A subclip of a subclip is not relative to the subclip: when both
    calls succeed, [Subclip a' b'] of [Subclip a b] of a clip is the very
    clip that [Subclip a' b'] of the original returns, starting at [a'] and
    lasting [b' - a']. *)
Theorem Subclip_of_Subclip (vfc s1 s2 : VideoFileClip.t) (a b a' b' : Z) :
  VideoFileClip.duration vfc <= GoInt.max_int ->
  VideoFileClip.Subclip vfc a b = Ok s1 ->
  VideoFileClip.Subclip s1 a' b' = Ok s2 ->
  VideoFileClip.Subclip vfc a' b' = Ok s2 /\
  VideoFileClip.start s2 = a' /\
  VideoFileClip.duration s2 = b' - a'.
Proof.
  intros Hd. unfold VideoFileClip.Subclip.
  destruct (Z.ltb_spec a 0), (Z.ltb_spec (VideoFileClip.duration vfc) b), (Z.leb_spec b a);
    cbn [orb]; try discriminate.
  intros [= <-]. cbn [VideoFileClip.duration VideoFileClip.fps VideoFileClip.width
                      VideoFileClip.height VideoFileClip.reader VideoFileClip.speedFactor].
  assert (Hab : GoInt.sub b a = b - a).
  { unfold GoInt.sub. apply wrap_small.
    unfold GoInt.in_range, GoInt.min_int, GoInt.max_int in *. lia. }
  rewrite Hab.
  destruct (Z.ltb_spec a' 0), (Z.ltb_spec (b - a) b'), (Z.leb_spec b' a');
    cbn [orb]; try discriminate.
  intros [= <-].
  destruct (Z.ltb_spec (VideoFileClip.duration vfc) b'); [lia|]. cbn [orb].
  split; [reflexivity|]. split; [reflexivity|]. cbn [VideoFileClip.duration].
  unfold GoInt.sub. apply wrap_small.
  unfold GoInt.in_range, GoInt.min_int, GoInt.max_int in *. lia.
Qed.

Lemma Subclip_of_Subclip_witness :
  exists s1 s2,
    VideoFileClip.Subclip MoreExamples.source10s (2 * second) (8 * second) = Ok s1 /\
    VideoFileClip.Subclip s1 (1 * second) (3 * second) = Ok s2 /\
    VideoFileClip.Subclip MoreExamples.source10s (1 * second) (3 * second) = Ok s2 /\
    VideoFileClip.start s2 = 1 * second.
Proof.
  assert (E1 : exists s1,
            VideoFileClip.Subclip MoreExamples.source10s (2 * second) (8 * second) = Ok s1)
    by (vm_compute; eexists; reflexivity).
  destruct E1 as [s1 E1].
  assert (E2 : exists s2, VideoFileClip.Subclip s1 (1 * second) (3 * second) = Ok s2).
  { pose proof E1 as E1'. vm_compute in E1'. injection E1' as <-.
    vm_compute. eexists. reflexivity. }
  destruct E2 as [s2 E2].
  destruct (Subclip_of_Subclip MoreExamples.source10s s1 s2 (2 * second) (8 * second)
              (1 * second) (3 * second)) as (A & B & _);
    [vm_compute; discriminate|exact E1|exact E2|].
  exists s1, s2. repeat split; assumption.
Defined.

(** X11.  [WithSpeed] applied twice.  The second factor replaces the first
    one instead of being multiplied with it, while the duration is divided
    by both, one after the other; start and reader are those of the
    original.  The frames of the result are those of the original clip
    played at the second factor alone. *)
Theorem WithSpeed_of_WithSpeed (vfc c1 c2 : VideoFileClip.t) (f1 f2 : GoFloat.float64) :
  VideoFileClip.WithSpeed vfc f1 = Ok c1 ->
  VideoFileClip.WithSpeed c1 f2 = Ok c2 ->
  VideoFileClip.speedFactor c2 = f2 /\
  VideoFileClip.start c2 = VideoFileClip.start vfc /\
  VideoFileClip.reader c2 = VideoFileClip.reader vfc /\
  VideoFileClip.duration c1 =
    GoFloat.to_int (GoFloat.div (GoFloat.of_int (VideoFileClip.duration vfc)) f1) /\
  VideoFileClip.duration c2 =
    GoFloat.to_int (GoFloat.div (GoFloat.of_int (VideoFileClip.duration c1)) f2) /\
  forall time env,
    VideoFileClip.GetFrame c2 time env =
    VideoFileClip.GetFrame
      (VideoFileClip.mk (VideoFileClip.start vfc) (VideoFileClip.end_ vfc)
         (VideoFileClip.duration vfc) (VideoFileClip.fps vfc) (VideoFileClip.width vfc)
         (VideoFileClip.height vfc) (VideoFileClip.reader vfc) false f2) time env.
Proof.
  unfold VideoFileClip.WithSpeed.
  destruct (GoFloat.leb f1 GoFloat.zero); [discriminate|]. intros [= <-].
  destruct (GoFloat.leb f2 GoFloat.zero); [discriminate|]. intros [= <-].
  cbn. repeat split; reflexivity.
Qed.

Lemma WithSpeed_of_WithSpeed_witness :
  exists c1 c2,
    VideoFileClip.WithSpeed MoreExamples.source10s GoFloat.two = Ok c1 /\
    VideoFileClip.WithSpeed c1 GoFloat.two = Ok c2 /\
    VideoFileClip.speedFactor c2 = GoFloat.two /\
    VideoFileClip.start c2 = VideoFileClip.start MoreExamples.source10s.
Proof.
  assert (E1 : exists c1, VideoFileClip.WithSpeed MoreExamples.source10s GoFloat.two = Ok c1)
    by (vm_compute; eexists; reflexivity).
  destruct E1 as [c1 E1].
  assert (E2 : exists c2, VideoFileClip.WithSpeed c1 GoFloat.two = Ok c2).
  { pose proof E1 as E1'. vm_compute in E1'. injection E1' as <-.
    vm_compute. eexists. reflexivity. }
  destruct E2 as [c2 E2].
  destruct (WithSpeed_of_WithSpeed MoreExamples.source10s c1 c2 GoFloat.two GoFloat.two E1 E2)
    as (A & B & _).
  exists c1, c2. repeat split; assumption.
Defined.

(** ** Terminating a process *)

Section Termination.

Import ProcessManager.

(** The running process of the example. *)
Lemma oneRunning_entry : running_entry Examples.oneRunning 7 1%positive.
Proof.
  apply oneRunning_all_running. vm_compute. reflexivity.
Qed.






(** The process exits and its monitor sends the status. *)
Lemma send_events (w : World) (p : Z) (mp : ptr) (m : ManagedProcess) (st : option Z) :
  heap w !! mp = Some m -> pid m = p -> done m = None ->
  monitors w !! mp = Some AtWait -> os w !! p = Some Running ->
  runEvents [ProcessExits p st; MonitorRuns mp] w =
  mkWorld (processes w) (ctx_done w)
          (<[mp := mkMP p (cancelled m) (Some st) (cleanup m)]> (heap w))
          (<[mp := AtDelete]> (monitors w))
          (delete p (os w)) (signals w) (cleaned w).
Proof.
  intros Hm Hp Hd Hmon Hos. unfold runEvents. cbn [fold_left runEvent]. rewrite Hos.
  unfold monitorStep. cbn [set_os monitors heap os]. rewrite Hmon, Hm, Hp, Hd.
  rewrite (lookup_insert_eq (os w) p).
  unfold set_monitors, set_heap, set_os. cbn. by rewrite delete_insert_eq.
Qed.




(** X13.  [TerminateProcess] a second time, after a call that saw the
    process exit: the pid is unknown, the call returns its not-found error
    and changes nothing. *)
Theorem TerminateProcess_again (w : World) (p : Z) (mp : ptr) (st : option Z)
    (during : list Event) :
  running_entry w p mp ->
  let w1 := (TerminateProcess p (exitsAndIsReaped p mp st) w).1 in
  TerminateProcess p during w1 = (w1, Err (ErrNoSuchProcess p)).
Proof.
  intros Hrun w1.
  destruct (TerminateProcess_graceful w p mp st Hrun) as (_ & Hprocs & _).
  cbv zeta in Hprocs. fold w1 in Hprocs.
  unfold TerminateProcess at 1. by rewrite Hprocs, lookup_delete_eq.
Qed.

Lemma TerminateProcess_again_witness :
  TerminateProcess 7 []
    (TerminateProcess 7 (exitsAndIsReaped 7 1%positive None) Examples.oneRunning).1 =
  ((TerminateProcess 7 (exitsAndIsReaped 7 1%positive None) Examples.oneRunning).1,
   Err (ErrNoSuchProcess 7)).
Proof.
  exact (TerminateProcess_again Examples.oneRunning 7 1%positive None [] oneRunning_entry).
Defined.

End Termination.


(** ** The layers of a composite *)

(** The second loop reads [cvc.positions[i]] before it asks the overlay for
    its frame: overlays that have a position and fail are skipped, and the
    first overlay without one ends the loop with the index panic. *)
Lemma blendLayers_index_panic (cvc : CompositeVideoClip.t) (time : Z)
    (composite : Store.loc) (pre post : list CompositeVideoClip.VideoClip) :
  Forall (fun clip => forall σ, is_err (CompositeVideoClip.clip_GetFrame clip time σ).2 = true)
    pre ->
  post <> [] ->
  forall (i : nat) (σ : Store.t),
    Nat.max i (length (CompositeVideoClip.positions cvc)) = (i + length pre)%nat ->
    exists σ',
      CompositeVideoClip.blendLayers cvc time composite i (pre ++ post) σ =
      (σ', Panic PanicIndex).
Proof.
  intros Hfail Hpost. induction Hfail as [|clip pre Hf Hpre IH]; intros i σ Hlen.
  - cbn [length] in Hlen. destruct post as [|clip post]; [done|]. cbn.
    rewrite (lookup_ge_None_2 (CompositeVideoClip.positions cvc) i) by lia. by eexists.
  - cbn [length] in Hlen. cbn.
    destruct (lookup_lt_is_Some_2 (CompositeVideoClip.positions cvc) i ltac:(lia))
      as [pos ->].
    specialize (Hf σ).
    destruct (CompositeVideoClip.clip_GetFrame clip time σ) as [σ1 [f|e|p]]; [done| |done].
    apply IH. lia.
Qed.

(** X5.  [GetFrame] of a composite that has fewer positions than clips.
    When the overlays that do have a position are skipped (their own
    [GetFrame] fails) and the base clip has delivered its frame, the call
    panics with an index out of range at [cvc.positions[i]] for the first
    overlay without a position, whatever that overlay's [GetFrame] would
    do: the position is read first, and a missing one is not replaced by a
    default.  An overlay before it that delivers a frame and whose position
    is nil panics earlier, with a nil dereference. *)
Theorem GetFrame_missing_position (cvc : CompositeVideoClip.t) (time : Z) (σ σ1 : Store.t)
    (clip0 : CompositeVideoClip.VideoClip) (rest : list CompositeVideoClip.VideoClip)
    (baseFrame : Store.loc) (bimg : Image.RGBA) :
  CompositeVideoClip.closed cvc = false ->
  CompositeVideoClip.clips cvc = clip0 :: rest ->
  CompositeVideoClip.clip_GetFrame clip0 time σ = (σ1, Ok baseFrame) ->
  σ1 !! baseFrame = Some bimg -> Image.well_sized bimg ->
  (forall pre post,
     rest = pre ++ post -> post <> [] ->
     length pre = (length (CompositeVideoClip.positions cvc) - 1)%nat ->
     Forall (fun clip =>
               forall σ, is_err (CompositeVideoClip.clip_GetFrame clip time σ).2 = true) pre ->
     (CompositeVideoClip.GetFrame cvc time σ).2 = Panic PanicIndex) /\
  (forall clip1 rest',
     rest = clip1 :: rest' ->
     CompositeVideoClip.positions cvc !! 1%nat = Some None ->
     (forall σ, exists σ' frame,
        CompositeVideoClip.clip_GetFrame clip1 time σ = (σ', Ok frame) /\
        is_Some (σ' !! frame)) ->
     (CompositeVideoClip.GetFrame cvc time σ).2 = Panic PanicNilPosition).
Proof.
  intros Hc Hclips H0 Hb Hsz.
  unfold CompositeVideoClip.GetFrame. rewrite Hc, Hclips, H0, Hb.
  unfold Store.Bounds. rewrite Hb. unfold Image.NewRGBA.
  destruct (Z.ltb_spec (Image.mul3NonNeg 4 (Image.Dx (Image.Bounds bimg))
                          (Image.Dy (Image.Bounds bimg))) 0) as [Hneg|_];
    [unfold Image.well_sized in Hsz; lia|].
  destruct (Store.alloc σ1 _) as [composite σ2]. split.
  - intros pre post -> Hpost Hlen Hfail.
    destruct (blendLayers_index_panic cvc time composite pre post Hfail Hpost 1%nat
                (CompositeVideoClip.copyBase composite baseFrame σ2)) as [σ' ->]; [lia|done].
  - intros clip1 rest' -> Hpos Hclip1. cbn [CompositeVideoClip.blendLayers]. rewrite Hpos.
    destruct (Hclip1 (CompositeVideoClip.copyBase composite baseFrame σ2))
      as (σ' & frame & -> & [img Himg]).
    unfold CompositeVideoClip.applyTransform. rewrite Himg. done.
Qed.

Lemma GetFrame_missing_position_witness :
  (CompositeVideoClip.GetFrame MoreExamples.withoutPositions 0 Examples.oneFrame).2
  = Panic PanicIndex.
Proof.
  destruct (GetFrame_missing_position MoreExamples.withoutPositions 0 Examples.oneFrame
              Examples.oneFrame Examples.cachingClip [Examples.cachingClip] 1%positive
              Examples.frame1x1) as [A _].
  - reflexivity.
  - reflexivity.
  - reflexivity.
  - reflexivity.
  - unfold Image.well_sized. vm_compute. discriminate.
  - apply (A [] [Examples.cachingClip]).
    + reflexivity.
    + discriminate.
    + reflexivity.
    + constructor.
Defined.

Lemma blendLayers_all_fail (cvc : CompositeVideoClip.t) (time : Z)
    (composite : Store.loc) (rest : list CompositeVideoClip.VideoClip) :
  Forall CompositeVideoClip.preserves_frames rest ->
  Forall (fun clip => forall σ, is_err (CompositeVideoClip.clip_GetFrame clip time σ).2 = true)
    rest ->
  forall (i : nat) (σ : Store.t),
    (i + length rest <= length (CompositeVideoClip.positions cvc))%nat ->
    exists σ', CompositeVideoClip.blendLayers cvc time composite i rest σ = (σ', Ok tt) /\
      σ ⊆ σ'.
Proof.
  induction 1 as [|clip rest Hclip Hrest IH]; intros Hfail i σ Hlen; cbn.
  { by exists σ. }
  apply Forall_cons in Hfail as [Hf Hfail]. cbn [length] in Hlen.
  destruct (lookup_lt_is_Some_2 (CompositeVideoClip.positions cvc) i ltac:(lia)) as [pos ->].
  specialize (Hf σ).
  destruct (CompositeVideoClip.clip_GetFrame clip time σ) as [σ1 r1] eqn:E1.
  apply Hclip in E1. destruct r1 as [?|e|?]; [done| |done].
  destruct (IH Hfail (S i) σ1 ltac:(lia)) as (σ' & -> & Hsub).
  exists σ'. split; [done|]. by etrans.
Qed.

(** X6.  Overlays whose [GetFrame] fails are skipped.  When every overlay
    fails (and leaves the frames of the store alone) and there are enough
    positions, [GetFrame] of the composite succeeds; its result is a frame
    that did not exist before, with the bounds and the pixels of the base
    frame. *)
Theorem GetFrame_failed_layers_skipped (cvc : CompositeVideoClip.t) (time : Z)
    (σ σ1 : Store.t) (clip0 : CompositeVideoClip.VideoClip)
    (rest : list CompositeVideoClip.VideoClip) (baseFrame : Store.loc) (bimg : Image.RGBA) :
  CompositeVideoClip.closed cvc = false ->
  CompositeVideoClip.clips cvc = clip0 :: rest ->
  (length (CompositeVideoClip.clips cvc) <= length (CompositeVideoClip.positions cvc))%nat ->
  CompositeVideoClip.clip_GetFrame clip0 time σ = (σ1, Ok baseFrame) ->
  σ1 !! baseFrame = Some bimg -> Image.well_sized bimg ->
  Forall CompositeVideoClip.preserves_frames rest ->
  Forall (fun clip => forall σ, is_err (CompositeVideoClip.clip_GetFrame clip time σ).2 = true)
    rest ->
  let res := CompositeVideoClip.GetFrame cvc time σ in
  exists composite,
    res.2 = Ok composite /\
    σ1 !! composite = None /\
    Store.Bounds res.1 composite = Image.Bounds bimg /\
    forall x y, Store.At res.1 composite x y = Image.At bimg x y.
Proof.
  intros Hc Hclips Hlen H0 Hb Hsz Hpres Hfail res.
  assert (Hval : exists composite σ4,
            CompositeVideoClip.GetFrame cvc time σ = (σ4, Ok composite) /\
            σ1 !! composite = None /\
            σ4 !! composite =
              Some (CompositeVideoClip.copied bimg (Image.mkRGBA ∅ (Image.Bounds bimg)))).
  { unfold CompositeVideoClip.GetFrame. rewrite Hc, Hclips, H0, Hb.
    unfold Store.Bounds. rewrite Hb. unfold Image.NewRGBA.
    destruct (Z.ltb_spec (Image.mul3NonNeg 4 (Image.Dx (Image.Bounds bimg))
                            (Image.Dy (Image.Bounds bimg))) 0) as [Hneg|_];
      [unfold Image.well_sized in Hsz; lia|].
    pose proof (alloc_fresh σ1 (Image.mkRGBA ∅ (Image.Bounds bimg))) as [Hfresh Hσ2].
    destruct (Store.alloc σ1 _) as [composite σ2]. cbn in Hfresh, Hσ2. subst σ2.
    assert (Hne : composite <> baseFrame) by congruence.
    rewrite Hclips in Hlen. cbn [length] in Hlen.
    destruct (blendLayers_all_fail cvc time composite rest Hpres Hfail 1
                (CompositeVideoClip.copyBase composite baseFrame
                   (<[composite := Image.mkRGBA ∅ (Image.Bounds bimg)]> σ1)))
      as (σ4 & -> & Hsub); [lia|].
    exists composite, σ4. split; [done|]. split; [done|].
    rewrite (copyBase_lift composite baseFrame _ bimg (Image.mkRGBA ∅ (Image.Bounds bimg)))
      in Hsub; [|done|by rewrite lookup_insert_ne|by rewrite lookup_insert_eq].
    eapply lookup_weaken; [|exact Hsub]. by rewrite lookup_insert_eq. }
  destruct Hval as (composite & σ4 & E & Hfresh & Hcomp). subst res. rewrite E.
  exists composite. cbn [fst snd]. split; [done|]. split; [done|].
  unfold Store.Bounds, Store.At. rewrite Hcomp. apply copied_spec.
Qed.

Lemma GetFrame_failed_layers_skipped_witness :
  exists composite,
    (CompositeVideoClip.GetFrame MoreExamples.withFailingLayer 0 Examples.oneFrame).2
      = Ok composite /\
    forall x y,
      Store.At (CompositeVideoClip.GetFrame MoreExamples.withFailingLayer 0 Examples.oneFrame).1
        composite x y = Image.At Examples.frame1x1 x y.
Proof.
  destruct (GetFrame_failed_layers_skipped MoreExamples.withFailingLayer 0 Examples.oneFrame
              Examples.oneFrame Examples.cachingClip [MoreExamples.failingClip] 1%positive
              Examples.frame1x1) as (composite & E & _ & _ & H).
  - reflexivity.
  - reflexivity.
  - simpl. lia.
  - reflexivity.
  - reflexivity.
  - unfold Image.well_sized. vm_compute. discriminate.
  - constructor; [|constructor]. intros time σ σ' r. simpl. intros [= <- <-]. reflexivity.
  - constructor; [|constructor]. intros σ. reflexivity.
  - exists composite. split; [exact E|exact H].
Defined.

(** ** The exit status and its readers *)

Section Channel.

Import ProcessManager.

Lemma cleanupZombies_drained (w : World) (mp : ptr) :
  drained w mp -> drained (cleanupZombies w) mp.
Proof.
  unfold cleanupZombies. generalize ((map_to_list (processes w)).*2). intros l Hd.
  induction l as [|mp' l IH]; cbn; [done|].
  destruct IH as [(m & Hm & Hdone) Hmon].
  destruct (heap _ !! mp') as [m'|] eqn:E'; [|by split; [exists m|]].
  destruct (done m') eqn:Ed'; [|by split; [exists m|]].
  assert (mp' <> mp) by (intros ->; congruence).
  split; [|done]. exists m. cbn. by rewrite lookup_insert_ne.
Qed.

Lemma monitorStep_drained (w : World) (mp mp' : ptr) :
  drained w mp -> drained (monitorStep mp' w) mp.
Proof.
  intros [(m & Hm & Hdone) Hmon]. unfold monitorStep.
  destruct (monitors w !! mp') as [[]|] eqn:Emon; destruct (heap w !! mp') as [m'|] eqn:Em';
    try (by split; [exists m|]).
  - assert (mp' <> mp) by (intros ->; congruence).
    destruct (os w !! pid m') as [[|st]|]; destruct (done m');
      try (by split; [exists m|]).
    split; cbn; [exists m; by rewrite lookup_insert_ne|by rewrite lookup_insert_ne].
  - split; cbn; [by exists m|].
    destruct (decide (mp' = mp)) as [->|Hne];
      [by rewrite lookup_insert_eq|by rewrite lookup_insert_ne].
  - split.
    + exists m. by destruct (cleanup m').
    + destruct (cleanup m'); cbn;
        (destruct (decide (mp' = mp)) as [->|Hne];
          [by rewrite lookup_insert_eq|by rewrite lookup_insert_ne]).
Qed.

Lemma runEvent_drained (e : Event) (w : World) (mp : ptr) :
  drained w mp -> drained (runEvent e w) mp.
Proof.
  intros Hd. destruct e as [p st|mp'|]; cbn.
  - by destruct (os w !! p) as [[|]|].
  - by apply monitorStep_drained.
  - by apply cleanupZombies_drained.
Qed.

Lemma runEvents_drained (es : list Event) (w : World) (mp : ptr) :
  drained w mp -> drained (runEvents es w) mp.
Proof.
  unfold runEvents. revert w. induction es as [|e es IH]; intros w Hd; cbn; [done|].
  by apply IH, runEvent_drained.
Qed.

Lemma IsRunning_drained (w : World) (mp : ptr) : drained w mp -> IsRunning mp w = (w, true).
Proof.
  intros [(m & Hm & Hdone) _]. unfold IsRunning. rewrite Hm.
  destruct m as [q c d cl]. cbn in Hdone. by subst d.
Qed.

Lemma Wait_drained (during : list Event) (w : World) (mp : ptr) :
  drained w mp -> Wait mp during w = None.
Proof.
  revert w. induction during as [|e during IH]; intros w Hd.
  - destruct Hd as [(m & Hm & Hdone) _]. cbn. rewrite Hm.
    destruct m as [q c d cl]. cbn in Hdone. by subst d.
  - pose proof Hd as [(m & Hm & Hdone) _]. cbn. rewrite Hm.
    destruct m as [q c d cl]. cbn in Hdone. subst d.
    by apply IH, runEvent_drained.
Qed.

(** X14.  [IsRunning] takes the exit status out of the channel.  Once the
    monitor has delivered the status of an exited process, the first call
    returns false; every later call returns true, whatever happens in
    between. *)
Theorem IsRunning_consumes_status (w : World) (mp : ptr) (m : ManagedProcess) (st : option Z) :
  heap w !! mp = Some m -> done m = Some st -> monitors w !! mp <> Some AtWait ->
  (IsRunning mp w).2 = false /\
  forall es, (IsRunning mp (runEvents es (IsRunning mp w).1)).2 = true.
Proof.
  intros Hm Hdone Hmon. unfold IsRunning at 1 3. rewrite Hm.
  destruct m as [q c d cl]. cbn in Hdone. subst d. cbn [fst snd]. split; [done|].
  intros es. rewrite IsRunning_drained; [done|].
  apply runEvents_drained. split; [|done].
  exists (mkMP q c None cl). cbn. by rewrite lookup_insert_eq.
Qed.

Lemma IsRunning_consumes_status_witness :
  let w := runEvents [ProcessExits 7 None; MonitorRuns 1%positive] Examples.oneRunning in
  (IsRunning 1%positive w).2 = false /\
  (IsRunning 1%positive (IsRunning 1%positive w).1).2 = true.
Proof.
  intros w.
  destruct (IsRunning_consumes_status w 1%positive (mkMP 7 false (Some None) false) None)
    as [A B].
  - vm_compute. reflexivity.
  - reflexivity.
  - vm_compute. discriminate.
  - split; [exact A|exact (B [])].
Defined.

(** X15.  [Wait] and [TerminateProcess] compete for the one exit status.
    [Wait] on a running process returns the status once the process has
    exited and its monitor has sent it.  After a [TerminateProcess] that
    received the status, [Wait] on the same process never returns. *)
Theorem Wait_and_TerminateProcess (w : World) (p : Z) (mp : ptr) :
  running_entry w p mp ->
  (forall st, exists w', Wait mp [ProcessExits p st; MonitorRuns mp] w = Some (w', st)) /\
  (forall st during,
     Wait mp during (TerminateProcess p (exitsAndIsReaped p mp st) w).1 = None).
Proof.
  intros (Hreg & (m & Hm & Hp & Hd) & Hmon & Hos). split.
  - intros st. destruct m as [q c d cl]. cbn in Hp, Hd. subst q d.
    cbn [Wait]. rewrite Hm. cbn [runEvent]. rewrite Hos.
    unfold set_os at 1. cbn [heap processes ctx_done monitors os signals cleaned].
    rewrite Hm. cbn [runEvent]. unfold monitorStep, set_os.
    cbn [heap processes ctx_done monitors os signals cleaned].
    rewrite Hmon, Hm. cbn [pid done]. rewrite lookup_insert_eq.
    unfold set_monitors, set_heap, set_os.
    cbn [heap processes ctx_done monitors os signals cleaned].
    rewrite lookup_insert_eq. by eexists.
  - intros st during. apply Wait_drained.
    unfold TerminateProcess. rewrite Hreg, (cancel_spec w mp m Hm).
    rewrite (killGroup_spec _ p SIGTERM Running) by exact Hos.
    set (w1 := send_signal p SIGTERM _).
    rewrite (reap_events w1 p mp (mkMP (pid m) true (done m) (cleanup m)) st);
      [|apply (lookup_insert_eq (heap w) mp)|exact Hp|exact Hd|exact Hmon|exact Hos].
    cbn [heap]. rewrite lookup_insert_eq. cbn [fst].
    split; cbn.
    + eexists. rewrite lookup_insert_eq. done.
    + by rewrite lookup_insert_eq.
Qed.

Lemma Wait_and_TerminateProcess_witness :
  Wait 1%positive [ReaperTick]
    (TerminateProcess 7 (exitsAndIsReaped 7 1%positive None) Examples.oneRunning).1 = None.
Proof.
  exact (proj2 (Wait_and_TerminateProcess Examples.oneRunning 7 1%positive oneRunning_entry)
           None [ReaperTick]).
Defined.

End Channel.

(** ** Terminate, cleanup functions and the reaper *)

Section Lifecycle.

Import ProcessManager.

(** X23.  [ManagedProcess.Terminate] does not terminate the process.  It
    cancels a context that the command is not bound to and returns nil: no
    signal is sent, the process keeps running and stays registered,
    [IsRunning] still answers true and [Wait] stays blocked as long as the
    process does not exit by itself. *)
Theorem Terminate_leaves_process_running (w : World) (p : Z) (mp : ptr) :
  running_entry w p mp ->
  let res := Terminate mp w in
  res.2 = Ok tt /\
  signals res.1 = signals w /\ os res.1 = os w /\ processes res.1 = processes w /\
  running_entry res.1 p mp /\
  (IsRunning mp res.1).2 = true /\
  forall n, Wait mp (repeat (MonitorRuns mp) n) res.1 = None.
Proof.
  intros (Hreg & (m & Hm & Hp & Hd) & Hmon & Hos). cbv zeta. unfold Terminate. cbn [fst snd].
  destruct m as [q c d cl]. cbn in Hp, Hd. subst q d.
  rewrite (cancel_spec w mp _ Hm). unfold set_heap. cbn [pid done cleanup].
  cbn [heap processes ctx_done monitors os signals cleaned].
  split; [done|]. split; [done|]. split; [done|]. split; [done|]. split; [|split].
  - split; [done|]. split; [|done].
    exists (mkMP p true None cl). cbn. by rewrite lookup_insert_eq.
  - unfold IsRunning. cbn [heap]. by rewrite lookup_insert_eq.
  - intros n. induction n as [|n IH]; cbn [repeat Wait heap].
    + by rewrite lookup_insert_eq.
    + rewrite lookup_insert_eq. cbn [runEvent]. unfold monitorStep.
      cbn [heap processes ctx_done monitors os signals cleaned].
      rewrite Hmon, lookup_insert_eq. cbn [pid done]. rewrite Hos. exact IH.
Qed.

Lemma Terminate_leaves_process_running_witness :
  signals (Terminate 1%positive Examples.oneRunning).1 = [] /\
  (IsRunning 1%positive (Terminate 1%positive Examples.oneRunning).1).2 = true.
Proof.
  destruct (Terminate_leaves_process_running Examples.oneRunning 7 1%positive oneRunning_entry)
    as (_ & A & _ & _ & _ & B & _).
  split; [exact A|exact B].
Defined.

Lemma monitor_finished (w : World) (mp : ptr) (n : nat) :
  monitors w !! mp = Some Finished -> runEvents (repeat (MonitorRuns mp) n) w = w.
Proof.
  intros Hmon. induction n as [|n IH]; [done|].
  cbn [repeat]. unfold runEvents in *. cbn [fold_left runEvent].
  replace (monitorStep mp w) with w; [exact IH|].
  unfold monitorStep. by rewrite Hmon.
Qed.

(** The process exits and its monitor runs to its end. *)
Lemma monitor_run (w : World) (p : Z) (mp : ptr) (m : ManagedProcess) (st : option Z) :
  heap w !! mp = Some m -> pid m = p -> done m = None ->
  monitors w !! mp = Some AtWait -> os w !! p = Some Running ->
  runEvents (exitsAndIsReaped p mp st ++ [MonitorRuns mp]) w =
  mkWorld (delete p (processes w)) (ctx_done w)
          (<[mp := mkMP p (cancelled m) (Some st) (cleanup m)]> (heap w))
          (<[mp := Finished]> (<[mp := AtCleanup]> (monitors w)))
          (delete p (os w)) (signals w)
          (if cleanup m then p :: cleaned w else cleaned w).
Proof.
  intros Hm Hp Hd Hmon Hos. unfold runEvents. rewrite fold_left_app.
  fold (runEvents (exitsAndIsReaped p mp st) w).
  rewrite (reap_events w p mp m st Hm Hp Hd Hmon Hos).
  cbn [fold_left runEvent]. unfold monitorStep.
  cbn [heap processes ctx_done monitors os signals cleaned].
  rewrite !lookup_insert_eq. cbn [cleanup pid].
  by destruct (cleanup m).
Qed.

(** X24.  When the function given to [SetCleanup] runs.  Set while the
    process is running, it runs exactly once, when the monitor has seen
    the exit and has removed the process from the registry.  Set after
    the monitor has finished, it never runs. *)
Theorem SetCleanup_runs_once (w : World) (p : Z) (mp : ptr) (st : option Z) :
  running_entry w p mp ->
  (exists m, heap w !! mp = Some m /\ cleanup m = false) ->
  let finish := exitsAndIsReaped p mp st ++ [MonitorRuns mp] in
  (forall n,
     let w' := runEvents (repeat (MonitorRuns mp) n) (runEvents finish (SetCleanup mp w)) in
     cleaned w' = p :: cleaned w /\ processes w' = delete p (processes w)) /\
  (forall n,
     let w' := runEvents (repeat (MonitorRuns mp) n) (SetCleanup mp (runEvents finish w)) in
     cleaned w' = cleaned w /\ processes w' = delete p (processes w)).
Proof.
  intros (Hreg & (m & Hm & Hp & Hd) & Hmon & Hos) (m0 & Hm0 & Hcl). cbv zeta.
  assert (m0 = m) by congruence. subst m0. split; intros n.
  - unfold SetCleanup. rewrite Hm.
    rewrite (monitor_run _ p mp (mkMP (pid m) (cancelled m) (done m) true) st);
      [|apply (lookup_insert_eq (heap w) mp)|exact Hp|exact Hd|exact Hmon|exact Hos].
    rewrite monitor_finished by (cbn; by rewrite lookup_insert_eq). done.
  - rewrite (monitor_run w p mp m st Hm Hp Hd Hmon Hos). rewrite Hcl.
    unfold SetCleanup. cbn [heap]. rewrite lookup_insert_eq.
    rewrite monitor_finished by (cbn; by rewrite lookup_insert_eq). done.
Qed.

Lemma SetCleanup_runs_once_witness :
  cleaned (runEvents (exitsAndIsReaped 7 1%positive None ++ [MonitorRuns 1%positive])
             (SetCleanup 1%positive Examples.oneRunning)) = [7] /\
  cleaned (SetCleanup 1%positive
             (runEvents (exitsAndIsReaped 7 1%positive None ++ [MonitorRuns 1%positive])
                Examples.oneRunning)) = [].
Proof.
  destruct (SetCleanup_runs_once Examples.oneRunning 7 1%positive None oneRunning_entry)
    as [A B].
  - exists (mkMP 7 false None false). split; reflexivity.
  - split; [exact (proj1 (A 0%nat))|exact (proj1 (B 0%nat))].
Defined.

(** A tick of the reaper leaves no status in the channel of a registered
    process, and does not touch the monitors. *)
Lemma cleanupZombies_clears (w : World) (p : Z) (mp : ptr) (m : ManagedProcess) :
  processes w !! p = Some mp -> heap w !! mp = Some m ->
  (exists m', heap (cleanupZombies w) !! mp = Some m' /\ done m' = None) /\
  monitors (cleanupZombies w) = monitors w /\
  processes (cleanupZombies w) = processes w.
Proof.
  intros Hreg Hm.
  assert (Hin : mp ∈ (map_to_list (processes w)).*2).
  { apply list_elem_of_fmap. exists (p, mp). split; [done|]. by apply elem_of_map_to_list. }
  unfold cleanupZombies. revert Hin. generalize ((map_to_list (processes w)).*2). intros l.
  set (F := foldr _ w).
  assert (H : (exists m', heap (F l) !! mp = Some m' /\ (mp ∈ l -> done m' = None)) /\
              (monitors (F l) = monitors w /\ processes (F l) = processes w)).
  { induction l as [|k l IH]; cbn.
    - split; [|done]. exists m. split; [done|]. by intros ?%elem_of_nil.
    - destruct IH as [(m' & Hm' & Hdone) Hmons].
      destruct (heap (F l) !! k) as [mk|] eqn:Ek.
      + destruct (done mk) eqn:Edk.
        * split; [|done]. cbn. destruct (decide (k = mp)) as [->|Hne].
          -- rewrite lookup_insert_eq. by eexists.
          -- rewrite lookup_insert_ne by done. exists m'. split; [done|].
             intros [?|?]%elem_of_cons; [congruence|auto].
        * split; [|done]. exists m'. split; [done|].
          intros [->|?]%elem_of_cons; [congruence|auto].
      + split; [|done]. exists m'. split; [done|].
        intros [->|?]%elem_of_cons; [congruence|auto]. }
  intros Hin. destruct H as [(m' & Hm' & Hdone) Hmons]. split; [|done].
  exists m'. auto.
Qed.

(** X25.  The reaper ([cleanupZombies]) takes exit statuses away.  Once a
    process has exited and its monitor has sent the status, [Wait] returns
    it.  But if [cleanupRoutine] serves a tick first, while the process is
    still registered, the status is consumed by the reaper: the process
    stays registered, [Wait] never returns and [IsRunning] answers true for
    ever. *)
Theorem cleanupZombies_takes_status (w : World) (p : Z) (mp : ptr) (st : option Z) :
  running_entry w p mp ->
  let sent := runEvents [ProcessExits p st; MonitorRuns mp] w in
  (exists w', Wait mp [] sent = Some (w', st)) /\
  (let w1 := runEvent ReaperTick sent in
   processes w1 !! p = Some mp /\
   (forall during, Wait mp during w1 = None) /\
   (forall es, (IsRunning mp (runEvents es w1)).2 = true)).
Proof.
  intros (Hreg & (m & Hm & Hp & Hd) & Hmon & Hos). cbv zeta.
  rewrite (send_events w p mp m st Hm Hp Hd Hmon Hos). split.
  - cbn [Wait heap]. rewrite lookup_insert_eq. by eexists.
  - cbn [runEvent].
    set (sent := mkWorld _ _ _ _ _ _ _).
    destruct (cleanupZombies_clears sent p mp (mkMP p (cancelled m) (Some st) (cleanup m)))
      as [(m' & Hm' & Hdone) [Hmons Hprocs]];
      [exact Hreg|apply (lookup_insert_eq (heap w) mp)|].
    assert (Hdr : drained (cleanupZombies sent) mp).
    { split; [by exists m'|]. rewrite Hmons. subst sent. cbn. by rewrite lookup_insert_eq. }
    split; [|split].
    + rewrite Hprocs. exact Hreg.
    + intros during. by apply Wait_drained.
    + intros es. rewrite IsRunning_drained; [done|]. by apply runEvents_drained.
Qed.

Lemma cleanupZombies_takes_status_witness :
  Wait 1%positive []
    (runEvent ReaperTick
       (runEvents [ProcessExits 7 (Some 1); MonitorRuns 1%positive] Examples.oneRunning))
  = None.
Proof.
  destruct (cleanupZombies_takes_status Examples.oneRunning 7 1%positive (Some 1)
              oneRunning_entry) as (_ & _ & A & _).
  exact (A []).
Defined.

End Lifecycle.

(** ** The life of a video writer *)

Section Writer.

Import VideoWriter.

(** What [WriteFrame] leaves of the writer: the sizes and the closed flag
    stay, the pipe content only grows, and the process is the same with
    [done] emptied when its status was taken. *)
Lemma WriteFrame_state (vw vw' : t) (frame : Image.RGBA) (env : WriteEnv) (r : outcome unit) :
  WriteFrame vw frame env = (vw', r) ->
  width vw' = width vw /\ height vw' = height vw /\ closed vw' = closed vw /\
  stdin vw `prefix_of` stdin vw' /\
  (process vw' = process vw \/
   exists mp st, process vw = Some mp /\ ProcessManager.done mp = Some st /\
     process vw' = Some (set_done None mp) /\ r = Err (ErrFFmpegExited st)).
Proof.
  unfold WriteFrame. destruct (closed vw) eqn:Ec; [by intros [= <- <-]; auto 6|].
  destruct (process vw) as [mp|] eqn:Ep; [|by intros [= <- <-]; rewrite Ep; auto 6].
  destruct (_ || _); [by intros [= <- <-]; rewrite Ep; auto 6|].
  destruct (packFrame vw frame) as [pd| |]; [|by intros [= <- <-]; rewrite Ep; auto 6..].
  destruct (ProcessManager.done mp) as [st|] eqn:Ed.
  { intros [= <- <-]. cbn. repeat split; try done. right. by exists mp, st. }
  destruct (write_err env) as [[n err]|].
  - destruct (exits env); intros [= <- <-]; cbn; repeat split; try done;
      try (by apply prefix_app_r); by left.
  - intros [= <- <-]. cbn. repeat split; try done; [by apply prefix_app_r|by left].
Qed.

Lemma assign_never_err (l : list Z) (i v : Z) (e : error) : assign l i v <> Err e.
Proof. unfold assign. by case_match. Qed.

Lemma packFrame_never_err (vw : t) (frame : Image.RGBA) (e : error) :
  packFrame vw frame <> Err e.
Proof.
  unfold packFrame, make_bytes. case_match; [done|]. cbn [mbind outcome_bind].
  destruct (for_each _ _ _) as [res|e'|p] eqn:E; [done| |done].
  exfalso. revert E. apply for_each_never_err. intros y st.
  apply for_each_never_err. intros x [pd idx].
  destruct (Color.channels _) as [[[r g] b] a]. unfold mbind, outcome_bind.
  destruct (assign pd idx _) as [pd1|e1|p1] eqn:E1;
    [|intros [= ->]; exact (assign_never_err _ _ _ _ E1)|done].
  destruct (assign pd1 _ _) as [pd2|e2|p2] eqn:E2;
    [|intros [= ->]; exact (assign_never_err _ _ _ _ E2)|done].
  destruct (assign pd2 _ _) as [pd3|e3|p3] eqn:E3;
    [done|intros [= ->]; exact (assign_never_err _ _ _ _ E3)|done].
Qed.

Lemma await_blocked (during : list (option Z)) (s : Live) (mp : ProcessManager.ManagedProcess) :
  process (writer s) = Some mp -> ProcessManager.done mp = None -> waiter s <> Waiting ->
  await during s = None.
Proof.
  intros Hp Hd Hw. induction during as [|st during IH]; cbn; rewrite Hp, Hd; [done|].
  assert (exit st s = s) as -> by (unfold exit; by destruct (waiter s)). exact IH.
Qed.

(** X16.  [Close] of a video writer.  On an open writer whose transcoder
    has not exited yet, [Close] returns nil as soon as the transcoder
    exits, with the writer closed and its process forgotten.  But after a
    [WriteFrame] that reported the exit of the transcoder (with either of
    its two messages), the status is gone and [Close] never returns. *)
Theorem Close_after_exit_report (s : Live) :
  sound s ->
  (forall mp st during,
     closed (writer s) = false -> process (writer s) = Some mp ->
     ProcessManager.done mp = None -> waiter s = Waiting ->
     exists s', Close (st :: during) s = Some (s', Ok tt) /\
       closed (writer s') = true /\ process (writer s') = None /\
       stdin (writer s') = stdin (writer s)) /\
  (forall frame env s' e,
     WriteFrameLive frame env s = (s', Err e) -> reportsExit e = true ->
     forall during, Close during s' = None).
Proof.
  intros Hsound. split.
  - intros mp st during Hc Hp Hd Hw. unfold Close. rewrite Hc, Hp.
    cbn [await writer process]. rewrite Hd.
    unfold exit at 1. cbn [waiter writer process]. rewrite Hw.
    destruct during as [|st' during]; cbn; by eexists.
  - intros frame env s' e Hwf He during.
    unfold WriteFrameLive in Hwf.
    set (env' := match waiter s with Waiting => env | _ => mkEnv (write_err env) None end) in *.
    destruct (WriteFrame (writer s) frame env') as [vw' r] eqn:E.
    assert (Hshape : exists mp, closed (writer s') = false /\
              process (writer s') = Some mp /\
              ProcessManager.done mp = None /\ waiter s' <> Waiting).
    { revert E. unfold WriteFrame.
      destruct (closed (writer s)) eqn:Ec;
        [intros [= <- <-]; cbn in Hwf; injection Hwf as <- <-; discriminate|].
      destruct (process (writer s)) as [mp|] eqn:Ep;
        [|intros [= <- <-]; cbn in Hwf; injection Hwf as <- <-; discriminate].
      destruct (_ || _);
        [intros [= <- <-]; cbn in Hwf; injection Hwf as <- <-; discriminate|].
      destruct (packFrame _ _) as [pd|e0|] eqn:Epack;
        [|by apply packFrame_never_err in Epack
         |intros [= <- <-]; cbn in Hwf; discriminate].
      destruct (ProcessManager.done mp) as [st|] eqn:Ed.
      - intros [= <- <-]. cbn in Hwf. injection Hwf as <- <-. exists (set_done None mp).
        cbn. repeat split; try done.
        rewrite (Hsound mp Ep); [done|]. by rewrite Ed.
      - destruct (write_err env') as [[n err]|].
        + destruct (exits env') eqn:Ex; intros [= <- <-]; cbn in Hwf.
          * injection Hwf as <- <-. exists mp. by cbn.
          * injection Hwf as <- <-. discriminate.
        + intros [= <- <-]. destruct (exits env'); cbn in Hwf; discriminate. }
    destruct Hshape as (mp & Hc & Hp & Hd & Hw).
    unfold Close. rewrite Hc, Hp.
    rewrite (await_blocked during _ mp); [done|by cbn|by cbn|by cbn].
Qed.

Lemma Close_after_exit_report_witness :
  Close [Some 1]
    (WriteFrameLive MoreExamples.painted2x2 MoreExamples.quiet
       (exit None MoreExamples.liveWriter2x2)).1 = None.
Proof.
  assert (Hs : sound (exit None MoreExamples.liveWriter2x2)).
  { intros mp _ _. reflexivity. }
  apply (proj2 (Close_after_exit_report _ Hs) MoreExamples.painted2x2 MoreExamples.quiet _
           (ErrFFmpegExited None)).
  - vm_compute. reflexivity.
  - reflexivity.
Defined.

Lemma WriteFramesFrom_app (fs1 fs2 : list (Image.RGBA * WriteEnv)) (i : Z) (vw : t) :
  WriteFramesFrom i vw (fs1 ++ fs2) =
  match WriteFramesFrom i vw fs1 with
  | (vw1, Done _) => WriteFramesFrom (i + Z.of_nat (length fs1)) vw1 fs2
  | r => r
  end.
Proof.
  revert i vw. induction fs1 as [|[f env] fs1 IH]; intros i vw; cbn [WriteFramesFrom app length].
  - by rewrite Z.add_0_r.
  - destruct (WriteFrame vw f env) as [vw' [[]| |]]; [|done..].
    rewrite IH. replace (i + 1 + Z.of_nat (length fs1)) with (i + Z.of_nat (S (length fs1))) by lia.
    reflexivity.
Qed.

Lemma WriteFramesFrom_prefix (fs : list (Image.RGBA * WriteEnv)) (i : Z) (vw : t) :
  stdin vw `prefix_of` stdin (WriteFramesFrom i vw fs).1.
Proof.
  revert i vw. induction fs as [|[f env] fs IH]; intros i vw; cbn [WriteFramesFrom]; [done|].
  destruct (WriteFrame vw f env) as [vw' r] eqn:E.
  apply WriteFrame_state in E as (_ & _ & _ & Hpre & _).
  destruct r as [[]| |]; [|done..]. etrans; [exact Hpre|apply IH].
Qed.

(** X17.  [WriteFrames] stops at the first frame that fails.  When the
    frames before it were written and [WriteFrame] fails on the next one,
    the call returns that error with the index of the frame, the frames
    after it are not looked at, and what was sent to the encoder before is
    still a prefix of what has been sent. *)
Theorem WriteFrames_stops_at_first_failure (vw vw1 vw2 : t)
    (fs1 fs2 : list (Image.RGBA * WriteEnv)) (f : Image.RGBA) (env : WriteEnv) (e : error) :
  WriteFrames vw fs1 = (vw1, Done tt) ->
  WriteFrame vw1 f env = (vw2, Err e) ->
  WriteFrames vw (fs1 ++ (f, env) :: fs2) = (vw2, Failed (Z.of_nat (length fs1), e)) /\
  stdin vw `prefix_of` stdin vw1 /\ stdin vw1 `prefix_of` stdin vw2.
Proof.
  unfold WriteFrames. intros H1 H2. split; [|split].
  - rewrite WriteFramesFrom_app, H1. cbn [WriteFramesFrom]. by rewrite H2.
  - pose proof (WriteFramesFrom_prefix fs1 0 vw) as H. by rewrite H1 in H.
  - by apply WriteFrame_state in H2 as (_ & _ & _ & Hpre & _).
Qed.

Lemma WriteFrames_stops_at_first_failure_witness :
  (WriteFrames MoreExamples.openWriter2x2
     [(MoreExamples.painted2x2, MoreExamples.quiet); (Examples.frame1x1, MoreExamples.quiet);
      (MoreExamples.painted2x2, MoreExamples.quiet)]).2
  = Failed (1, ErrFrameSize 2 2 1 1).
Proof.
  assert (E1 : exists vw1, WriteFrames MoreExamples.openWriter2x2
                 [(MoreExamples.painted2x2, MoreExamples.quiet)] = (vw1, Done tt))
    by (vm_compute; eexists; reflexivity).
  destruct E1 as [vw1 E1].
  assert (E2 : exists vw2, WriteFrame vw1 Examples.frame1x1 MoreExamples.quiet
                 = (vw2, Err (ErrFrameSize 2 2 1 1))).
  { pose proof E1 as E1'. vm_compute in E1'. injection E1' as <-.
    vm_compute. eexists. reflexivity. }
  destruct E2 as [vw2 E2].
  destruct (WriteFrames_stops_at_first_failure MoreExamples.openWriter2x2 vw1 vw2
              [(MoreExamples.painted2x2, MoreExamples.quiet)]
              [(MoreExamples.painted2x2, MoreExamples.quiet)]
              Examples.frame1x1 MoreExamples.quiet _ E1 E2) as (A & _).
  cbn [app length] in A. rewrite A. reflexivity.
Defined.

End Writer.

Section WriterInvariant.

Import VideoWriter.

Lemma exit_sound (st : option Z) (s : Live) : sound s -> sound (exit st s).
Proof.
  intros Hs. unfold exit.
  destruct (waiter s) eqn:Ew; try exact Hs.
  destruct (process (writer s)) eqn:Ep; [|exact Hs].
  intros mp _ _. reflexivity.
Qed.

(** [sound] is no restriction on the writers a program can build: a new
    writer has it, and [Open], the exit of the transcoder, [WriteFrame] and
    [Close] keep it. *)
Lemma sound_preserved (s : Live) :
  sound s ->
  (forall pipe started, sound (Open pipe started s).1) /\
  (forall st, sound (exit st s)) /\
  (forall frame env, sound (WriteFrameLive frame env s).1) /\
  (forall during s' r, Close during s = Some (s', r) -> sound s').
Proof.
  intros Hs. split; [|split; [|split]].
  - intros pipe started. unfold Open.
    destruct (closed (writer s)); [exact Hs|].
    destruct pipe; [exact Hs|]. destruct started; [|exact Hs].
    intros mp [= <-] [x Hx]. discriminate.
  - intros st. by apply exit_sound.
  - intros frame env. unfold WriteFrameLive.
    set (env' := match waiter s with Waiting => env | _ => _ end).
    destruct (WriteFrame (writer s) frame env') as [vw' r] eqn:E.
    destruct (WriteFrame_state _ _ _ _ _ E) as (_ & _ & _ & _ & Hp).
    assert (Hkeep : sound (mkLive vw' (waiter s))).
    { intros mp Hmp Hd. cbn in *. destruct Hp as [Hp|(mp0 & st & Hp0 & Hd0 & Hp' & _)].
      - apply (Hs mp); [congruence|done].
      - rewrite Hp' in Hmp. injection Hmp as <-. cbn in Hd. by destruct Hd. }
    destruct r as [[]|e|pn]; cbn [fst].
    + destruct (exits env'); [by apply exit_sound|exact Hkeep].
    + destruct e; try exact Hkeep. intros mp _ _. reflexivity.
    + exact Hkeep.
  - intros during s' r. unfold Close.
    destruct (closed (writer s)); [by intros [= <- <-]|].
    destruct (process (writer s)) eqn:Ep; [|by intros [= <- <-] mp Hmp].
    destruct (await during _); [|done]. by intros [= <- <-] mp Hmp.
Qed.

Lemma NewVideoWriter_sound (width height : Z) : sound (NewVideoWriter width height).
Proof. intros mp Hmp. discriminate. Qed.

End WriterInvariant.

(** ** Frame effects *)

(** The loop that fills a frame point by point. *)
Lemma fill_spec (W H : Z) (col : Z -> Z -> Color.t) (dst : Image.RGBA) :
  let res := for_loop (GoInt.range 0 H) (fun y dst =>
               for_loop (GoInt.range 0 W) (fun x dst =>
                 Image.Set_ dst x y (col x y)) dst) dst in
  Image.Bounds res = Image.Bounds dst /\
  (forall x y, 0 <= x < W -> 0 <= y < H ->
     Image.At res x y =
     if Image.In x y (Image.Bounds dst) then Image.stored (col x y) else Color.zero) /\
  (forall x y, ~ (0 <= x < W /\ 0 <= y < H) -> Image.At res x y = Image.At dst x y).
Proof.
  destruct (repaint_rows (GoInt.range 0 H) (GoInt.range 0 W) (fun x => x) (fun y => y)
              (fun _ _ => false) (fun x y _ => col x y) dst) as (HB & Hin & Hout);
    [apply range_NoDup|apply range_NoDup|by intros|by intros|].
  cbv zeta. split; [exact HB|]. split.
  - intros x y Hx Hy. apply Hin; [by apply In_range|by apply In_range|done].
  - intros x y Hnot. apply Hout. intros (x' & y' & Hx' & Hy' & _ & -> & ->).
    apply In_range in Hx', Hy'. lia.
Qed.

(** A frame made for a well-sized source has the source's size. *)
Lemma NewRGBA_sized (w h : Z) :
  GoInt.in_range w -> GoInt.in_range h ->
  0 <= Image.mul3NonNeg 4 w h ->
  Image.NewRGBA (Image.Rect 0 0 w h) = Ok (Image.mkRGBA ∅ (Image.Rect 0 0 w h)) /\
  Image.Rect 0 0 w h = Image.mkRect 0 0 w h.
Proof.
  intros Hrw Hrh Hok. apply mul3NonNeg_4_ok in Hok as Hb. destruct Hb as (Hw & Hh & Hw4 & Hwh).
  assert (HR : Image.Rect 0 0 w h = Image.mkRect 0 0 w h).
  { unfold Image.Rect. destruct (Z.ltb_spec w 0); [lia|]. destruct (Z.ltb_spec h 0); [lia|].
    reflexivity. }
  split; [|exact HR]. unfold Image.NewRGBA. rewrite HR. unfold Image.Dx, Image.Dy, GoInt.sub.
  cbn [Image.MinX Image.MaxX Image.MinY Image.MaxY]. rewrite !Z.sub_0_r.
  rewrite !wrap_small by assumption.
  destruct (Z.ltb_spec (Image.mul3NonNeg 4 w h) 0); [lia|done].
Qed.

Lemma At_empty (r : Image.Rectangle) (x y : Z) :
  Image.At (Image.mkRGBA ∅ r) x y = Color.zero.
Proof. unfold Image.At. cbn. by destruct (Image.In x y r). Qed.

Lemma In_origin (x y w h : Z) :
  Image.In x y (Image.mkRect 0 0 w h) = true <-> 0 <= x < w /\ 0 <= y < h.
Proof. unfold Image.In. cbn. rewrite !andb_true_iff. lia. Qed.

(** The channels of the example frame are bytes. *)
Lemma painted2x2_wf : forall x y, Color.wf (Image.At MoreExamples.painted2x2 x y).
Proof.
  intros x y. unfold Image.At. destruct (Image.In x y _) eqn:E; [|cbn; lia].
  assert (Hxy : (x = 0 \/ x = 1) /\ (y = 0 \/ y = 1)).
  { revert E. unfold Image.In. cbn. rewrite !andb_true_iff. lia. }
  destruct Hxy as [[-> | ->] [-> | ->]]; vm_compute; repeat split; discriminate.
Qed.

(** X18.  [CropEffect.ApplyToFrame] for a region inside the frame: the
    effect is left as it is, the result has the size of the region and
    bounds at the origin, and its pixel [(i, j)] is the pixel
    [(x + i, y + j)] of the frame. *)
Theorem Crop_inside (ce : CropEffect.t) (frame : Image.RGBA) :
  Image.well_sized frame ->
  0 <= CropEffect.x ce -> 0 <= CropEffect.y ce ->
  0 <= CropEffect.width ce -> 0 <= CropEffect.height ce ->
  CropEffect.x ce + CropEffect.width ce <= Image.Dx (Image.Bounds frame) ->
  CropEffect.y ce + CropEffect.height ce <= Image.Dy (Image.Bounds frame) ->
  exists dst,
    CropEffect.ApplyToFrame ce frame = (ce, Ok dst) /\
    Image.Bounds dst = Image.mkRect 0 0 (CropEffect.width ce) (CropEffect.height ce) /\
    forall i j,
      Image.At dst i j =
      if (0 <=? i) && (i <? CropEffect.width ce) && (0 <=? j) && (j <? CropEffect.height ce)
      then Image.At frame (CropEffect.x ce + i) (CropEffect.y ce + j)
      else Color.zero.
Proof.
  intros Hsz Hx Hy Hw Hh Hxw Hyh.
  unfold Image.well_sized in Hsz. apply mul3NonNeg_4_ok in Hsz as (Hsw & Hsh & Hsw4 & Hswh).
  set (sw := Image.Dx (Image.Bounds frame)) in *. set (sh := Image.Dy (Image.Bounds frame)) in *.
  assert (Hshb : sh <= GoInt.max_int).
  { pose proof (wrap_in_range (Image.MaxY (Image.Bounds frame) - Image.MinY (Image.Bounds frame))).
    subst sh. unfold Image.Dy, GoInt.sub, GoInt.in_range in *. lia. }
  unfold GoInt.max_int in Hshb.
  assert (Hclamp : CropEffect.clampTo sw sh ce = ce).
  { unfold CropEffect.clampTo, GoInt.add. cbv zeta.
    destruct (Z.ltb_spec (CropEffect.x ce) 0); [lia|].
    destruct (Z.ltb_spec (CropEffect.y ce) 0); [lia|].
    rewrite !wrap_small by (unfold GoInt.in_range, GoInt.min_int, GoInt.max_int; lia).
    destruct (Z.ltb_spec sw (CropEffect.x ce + CropEffect.width ce)); [lia|].
    destruct (Z.ltb_spec sh (CropEffect.y ce + CropEffect.height ce)); [lia|].
    by destruct ce. }
  unfold CropEffect.ApplyToFrame. fold sw sh. rewrite Hclamp.
  destruct (NewRGBA_sized (CropEffect.width ce) (CropEffect.height ce)) as [-> HR].
  { unfold GoInt.in_range, GoInt.min_int, GoInt.max_int. lia. }
  { unfold GoInt.in_range, GoInt.min_int, GoInt.max_int. lia. }
  { apply mul3NonNeg_4_ok. nia. }
  cbn [mbind outcome_bind].
  eexists. split; [reflexivity|].
  destruct (fill_spec (CropEffect.width ce) (CropEffect.height ce)
              (fun i j => Image.At frame (GoInt.add (CropEffect.x ce) i)
                                          (GoInt.add (CropEffect.y ce) j))
              (Image.mkRGBA ∅ (Image.Rect 0 0 (CropEffect.width ce) (CropEffect.height ce))))
    as (HB & Hin & Hout).
  cbv zeta in HB, Hin, Hout. cbn [Image.Bounds] in HB, Hin.
  split; [by rewrite HB|].
  intros i j.
  destruct ((0 <=? i) && (i <? CropEffect.width ce) && (0 <=? j) && (j <? CropEffect.height ce))
    eqn:E.
  - rewrite !andb_true_iff in E. rewrite Hin by lia.
    rewrite HR. rewrite (proj2 (In_origin i j _ _)) by lia.
    rewrite stored_At. unfold GoInt.add.
    rewrite !wrap_small by (unfold GoInt.in_range, GoInt.min_int, GoInt.max_int; lia).
    reflexivity.
  - rewrite Hout; [apply At_empty|]. intros [? ?].
    assert (Ht : (0 <=? i) && (i <? CropEffect.width ce) && (0 <=? j)
                 && (j <? CropEffect.height ce) = true)
      by (rewrite !andb_true_iff; lia).
    congruence.
Qed.

Lemma Crop_inside_witness :
  exists dst,
    CropEffect.ApplyToFrame (CropEffect.NewCropEffect 1 0 1 2) MoreExamples.painted2x2
      = (CropEffect.NewCropEffect 1 0 1 2, Ok dst) /\
    Image.At dst 0 1 = Color.RGBA 10 11 12 255.
Proof.
  destruct (Crop_inside (CropEffect.NewCropEffect 1 0 1 2) MoreExamples.painted2x2)
    as (dst & E & _ & H).
  - unfold Image.well_sized. vm_compute. discriminate.
  - simpl. lia.
  - simpl. lia.
  - simpl. lia.
  - simpl. lia.
  - vm_compute. discriminate.
  - vm_compute. discriminate.
  - exists dst. split; [exact E|]. rewrite (H 0 1). vm_compute. reflexivity.
Defined.

(** X19.  [CropEffect.ApplyToFrame] clamps the region to the frame by
    assigning to the effect itself, and the change stays.  After a call the
    region lies inside the frame that was given and is no larger than
    before; a later call with a frame at least as large leaves it there, so
    the region asked for at construction is not used again. *)
Theorem Crop_clamp_persists (ce : CropEffect.t) (frame1 frame2 : Image.RGBA) :
  Image.well_sized frame1 -> Image.well_sized frame2 ->
  - 2 ^ 61 <= CropEffect.x ce <= 2 ^ 61 -> - 2 ^ 61 <= CropEffect.y ce <= 2 ^ 61 ->
  - 2 ^ 61 <= CropEffect.width ce <= 2 ^ 61 -> - 2 ^ 61 <= CropEffect.height ce <= 2 ^ 61 ->
  let ce1 := (CropEffect.ApplyToFrame ce frame1).1 in
  (0 <= CropEffect.x ce1 /\ 0 <= CropEffect.y ce1 /\
   CropEffect.x ce1 + CropEffect.width ce1 <= Image.Dx (Image.Bounds frame1) /\
   CropEffect.y ce1 + CropEffect.height ce1 <= Image.Dy (Image.Bounds frame1) /\
   CropEffect.width ce1 <= CropEffect.width ce /\
   CropEffect.height ce1 <= CropEffect.height ce) /\
  (Image.Dx (Image.Bounds frame1) <= Image.Dx (Image.Bounds frame2) ->
   Image.Dy (Image.Bounds frame1) <= Image.Dy (Image.Bounds frame2) ->
   (CropEffect.ApplyToFrame ce1 frame2).1 = ce1).
Proof.
  intros Hsz1 Hsz2 Hx Hy Hw Hh.
  unfold Image.well_sized in Hsz1, Hsz2.
  apply mul3NonNeg_4_ok in Hsz1 as (Hsw1 & Hsh1 & Hsw14 & _).
  apply mul3NonNeg_4_ok in Hsz2 as (Hsw2 & Hsh2 & Hsw24 & _).
  assert (Hsh1b : Image.Dy (Image.Bounds frame1) <= GoInt.max_int)
    by (pose proof (wrap_in_range (Image.MaxY (Image.Bounds frame1) - Image.MinY (Image.Bounds frame1)));
        unfold Image.Dy, GoInt.sub, GoInt.in_range in *; lia).
  assert (Hsh2b : Image.Dy (Image.Bounds frame2) <= GoInt.max_int)
    by (pose proof (wrap_in_range (Image.MaxY (Image.Bounds frame2) - Image.MinY (Image.Bounds frame2)));
        unfold Image.Dy, GoInt.sub, GoInt.in_range in *; lia).
  unfold GoInt.max_int in *.
  set (sw1 := Image.Dx (Image.Bounds frame1)) in *. set (sh1 := Image.Dy (Image.Bounds frame1)) in *.
  set (sw2 := Image.Dx (Image.Bounds frame2)) in *. set (sh2 := Image.Dy (Image.Bounds frame2)) in *.
  cbv zeta. unfold CropEffect.ApplyToFrame. cbn [fst]. fold sw1 sh1 sw2 sh2.
  set (ce1 := CropEffect.clampTo sw1 sh1 ce).
  assert (H1 : 0 <= CropEffect.x ce1 <= 2 ^ 61 /\ 0 <= CropEffect.y ce1 <= 2 ^ 61 /\
               CropEffect.x ce1 + CropEffect.width ce1 <= sw1 /\
               CropEffect.y ce1 + CropEffect.height ce1 <= sh1 /\
               CropEffect.width ce1 <= CropEffect.width ce /\
               CropEffect.height ce1 <= CropEffect.height ce /\
               - 2 ^ 63 < CropEffect.width ce1 /\ - 2 ^ 63 < CropEffect.height ce1).
  { subst ce1. unfold CropEffect.clampTo, GoInt.add, GoInt.sub. cbn.
    destruct (Z.ltb_spec (CropEffect.x ce) 0), (Z.ltb_spec (CropEffect.y ce) 0);
      rewrite !wrap_small by (unfold GoInt.in_range, GoInt.min_int, GoInt.max_int; lia);
      repeat case_match; lia. }
  destruct H1 as (Hx1 & Hy1 & Hxw1 & Hyh1 & Hw1 & Hh1 & Hwl & Hhl).
  split; [lia|]. intros Hle1 Hle2.
  unfold CropEffect.clampTo, GoInt.add. cbv zeta.
  destruct (Z.ltb_spec (CropEffect.x ce1) 0); [lia|].
  destruct (Z.ltb_spec (CropEffect.y ce1) 0); [lia|].
  rewrite !wrap_small by (unfold GoInt.in_range, GoInt.min_int, GoInt.max_int; lia).
  destruct (Z.ltb_spec sw2 (CropEffect.x ce1 + CropEffect.width ce1)); [lia|].
  destruct (Z.ltb_spec sh2 (CropEffect.y ce1 + CropEffect.height ce1)); [lia|].
  by destruct ce1.
Qed.

Lemma Crop_clamp_persists_witness :
  let ce1 := (CropEffect.ApplyToFrame (CropEffect.NewCropEffect 0 0 5 5) Examples.frame1x1).1 in
  CropEffect.width ce1 <= 5 /\
  (CropEffect.ApplyToFrame ce1 MoreExamples.painted2x2).1 = ce1.
Proof.
  destruct (Crop_clamp_persists (CropEffect.NewCropEffect 0 0 5 5) Examples.frame1x1
              MoreExamples.painted2x2) as ((_ & _ & _ & _ & A & _) & B).
  - unfold Image.well_sized. vm_compute. discriminate.
  - unfold Image.well_sized. vm_compute. discriminate.
  - simpl. lia.
  - simpl. lia.
  - simpl. lia.
  - simpl. lia.
  - split; [exact A|]. apply B; vm_compute; discriminate.
Defined.

(** A point-wise effect on a well-sized frame. *)
Lemma pointwise_effect (frame : Image.RGBA) (f : Color.t -> Color.t) :
  Image.well_sized frame ->
  let W := Image.Dx (Image.Bounds frame) in
  let H := Image.Dy (Image.Bounds frame) in
  exists dst,
    (dst0 ← Image.NewRGBA (Image.Rect 0 0 W H);
     Ok (for_loop (GoInt.range 0 H) (fun y dst =>
           for_loop (GoInt.range 0 W) (fun x dst =>
             Image.Set_ dst x y (f (Image.At frame x y))) dst) dst0)) = Ok dst /\
    Image.Bounds dst = Image.mkRect 0 0 W H /\
    forall x y,
      Image.At dst x y =
      if (0 <=? x) && (x <? W) && (0 <=? y) && (y <? H)
      then Image.stored (f (Image.At frame x y)) else Color.zero.
Proof.
  intros Hsz W H. unfold Image.well_sized in Hsz. fold W H in Hsz.
  destruct (NewRGBA_sized W H) as [-> HR]; [apply wrap_in_range|apply wrap_in_range|done|].
  cbn [mbind outcome_bind]. eexists. split; [reflexivity|].
  destruct (fill_spec W H (fun x y => f (Image.At frame x y))
              (Image.mkRGBA ∅ (Image.Rect 0 0 W H))) as (HB & Hin & Hout).
  cbv zeta in HB, Hin, Hout. cbn [Image.Bounds] in HB, Hin.
  split; [by rewrite HB|]. intros x y.
  destruct ((0 <=? x) && (x <? W) && (0 <=? y) && (y <? H)) eqn:E.
  - rewrite !andb_true_iff in E. rewrite Hin by lia.
    rewrite HR. by rewrite (proj2 (In_origin x y _ _)) by lia.
  - rewrite Hout; [apply At_empty|]. intros [? ?].
    assert (Ht : (0 <=? x) && (x <? W) && (0 <=? y) && (y <? H) = true)
      by (rewrite !andb_true_iff; lia).
    congruence.
Qed.

Lemma bytes_check (P : Z -> bool) :
  forallb P (GoInt.range 0 256) = true -> forall c, 0 <= c < 256 -> P c = true.
Proof. intros Hall c Hc. rewrite forallb_forall in Hall. apply Hall, In_range. exact Hc. Qed.

Lemma scale_one (c : Z) :
  0 <= c < 256 -> BrightnessEffect.scale GoFloat.one (Color.widen c) = Color.widen c.
Proof.
  intros Hc. apply Z.eqb_eq.
  apply (bytes_check (fun c => BrightnessEffect.scale GoFloat.one (Color.widen c) =? Color.widen c));
    [vm_compute; reflexivity|exact Hc].
Qed.

Lemma scale_zero (c : Z) :
  0 <= c < 256 -> BrightnessEffect.scale GoFloat.zero (Color.widen c) = 0.
Proof.
  intros Hc. apply Z.eqb_eq.
  apply (bytes_check (fun c => BrightnessEffect.scale GoFloat.zero (Color.widen c) =? 0));
    [vm_compute; reflexivity|exact Hc].
Qed.

(** Outside its bounds a frame reads as the zero colour. *)
Lemma At_not_In (frame : Image.RGBA) (x y : Z) :
  Image.In x y (Image.Bounds frame) = false -> Image.At frame x y = Color.zero.
Proof. intros E. unfold Image.At. by rewrite E. Qed.

(** The size of a frame whose bounds start at the origin. *)
Lemma Dx_origin (w h : Z) :
  GoInt.in_range w -> GoInt.in_range h ->
  Image.Dx (Image.mkRect 0 0 w h) = w /\ Image.Dy (Image.mkRect 0 0 w h) = h.
Proof.
  intros Hw Hh. unfold Image.Dx, Image.Dy, GoInt.sub. cbn [Image.MaxX Image.MinX Image.MaxY Image.MinY].
  rewrite !Z.sub_0_r. split; apply wrap_small; assumption.
Qed.

Lemma scale_of_zero (f : GoFloat.float64) : BrightnessEffect.scale f 0 = 0.
Proof. destruct f as [s|s| |s m e]; try destruct s; reflexivity. Qed.

(** X20.  [BrightnessEffect.ApplyToFrame] returns a frame of the input's
    size with bounds at the origin.  The output point [(x, y)] is made from
    [frame.At(x, y)] at the same coordinates, without the offset of the
    input's bounds: it has the alpha of that colour, with factor 1 its
    colour channels, and with factor 0 it is black.  So for an input whose
    bounds start at the origin every pixel keeps its alpha (and its colour
    at factor 1); for an input placed elsewhere, the output points outside
    the input's bounds are transparent black whatever the input holds. *)
Theorem Brightness_frame (be : BrightnessEffect.t) (frame : Image.RGBA) :
  Image.well_sized frame ->
  (forall x y, Color.wf (Image.At frame x y)) ->
  let W := Image.Dx (Image.Bounds frame) in
  let H := Image.Dy (Image.Bounds frame) in
  let kept (x y : Z) (dst : Image.RGBA) :=
    match Image.At frame x y, Image.At dst x y with
    | Color.RGBA r g b a, Color.RGBA r' g' b' a' =>
        a' = a /\
        (BrightnessEffect.factor be = GoFloat.one -> r' = r /\ g' = g /\ b' = b) /\
        (BrightnessEffect.factor be = GoFloat.zero -> r' = 0 /\ g' = 0 /\ b' = 0)
    | _, _ => False
    end in
  exists dst,
    BrightnessEffect.ApplyToFrame be frame = Ok dst /\
    Image.Bounds dst = Image.mkRect 0 0 W H /\
    (forall x y, 0 <= x < W -> 0 <= y < H -> kept x y dst) /\
    (forall w h, GoInt.in_range w -> GoInt.in_range h ->
       Image.Bounds frame = Image.mkRect 0 0 w h ->
       forall x y, Image.In x y (Image.Bounds frame) = true -> kept x y dst) /\
    (forall x y, 0 <= x < W -> 0 <= y < H ->
       Image.In x y (Image.Bounds frame) = false ->
       Image.At dst x y = Color.RGBA 0 0 0 0).
Proof.
  intros Hsz Hwf W H kept.
  destruct (pointwise_effect frame (BrightnessEffect.pixel be) Hsz) as (dst & E & HB & Hat).
  fold W H in HB, Hat.
  assert (Hin : forall x y, 0 <= x < W -> 0 <= y < H ->
            Image.At dst x y = Image.stored (BrightnessEffect.pixel be (Image.At frame x y))).
  { intros x y Hx Hy. rewrite Hat.
    by replace ((0 <=? x) && (x <? W) && (0 <=? y) && (y <? H)) with true
      by (symmetry; rewrite !andb_true_iff; lia). }
  assert (Hkept : forall x y, 0 <= x < W -> 0 <= y < H -> kept x y dst).
  { intros x y Hx Hy. unfold kept. rewrite Hin by assumption.
    specialize (Hwf x y). destruct (Image.At frame x y) as [r g b a|r g b a] eqn:Ec.
    2:{ exfalso. unfold Image.At in Ec. repeat case_match; discriminate. }
    cbn in Hwf. destruct Hwf as (Hr & Hg & Hb & Ha).
    unfold BrightnessEffect.pixel. cbn [Color.channels Image.stored Color.toRGBA Color.fields].
    split; [by apply shiftr8_widen|]. split.
    - intros ->. rewrite !scale_one by assumption. rewrite !shiftr8_widen by assumption. done.
    - intros ->. rewrite !scale_zero by assumption. done. }
  exists dst. split; [exact E|]. split; [exact HB|]. split; [exact Hkept|]. split.
  - intros w h Hw Hh Hbounds x y Hxy. apply Hkept.
    + subst W. rewrite Hbounds in Hxy |- *. destruct (Dx_origin w h Hw Hh) as [-> _].
      unfold Image.In in Hxy. cbn in Hxy. rewrite !andb_true_iff in Hxy. lia.
    + subst H. rewrite Hbounds in Hxy |- *. destruct (Dx_origin w h Hw Hh) as [_ ->].
      unfold Image.In in Hxy. cbn in Hxy. rewrite !andb_true_iff in Hxy. lia.
  - intros x y Hx Hy Hout. rewrite Hin by assumption. rewrite (At_not_In _ _ _ Hout).
    unfold BrightnessEffect.pixel, Color.zero.
    cbn [Color.channels Image.stored Color.toRGBA Color.fields].
    change (Color.widen 0) with 0. rewrite scale_of_zero. reflexivity.
Qed.


Lemma shifted1x1_wf : forall x y, Color.wf (Image.At MoreExamples.shifted1x1 x y).
Proof.
  intros x y. unfold Image.At. destruct (Image.In x y _) eqn:E; [|cbn; lia].
  assert (Hxy : x = 5 /\ y = 5).
  { revert E. unfold Image.In. cbn. rewrite !andb_true_iff. lia. }
  destruct Hxy as [-> ->]. vm_compute. repeat split; discriminate.
Qed.

Lemma Brightness_frame_witness :
  exists dst,
    BrightnessEffect.ApplyToFrame (BrightnessEffect.NewBrightnessEffect GoFloat.one)
      MoreExamples.shifted1x1 = Ok dst /\
    Image.At dst 0 0 = Color.RGBA 0 0 0 0.
Proof.
  destruct (Brightness_frame (BrightnessEffect.NewBrightnessEffect GoFloat.one)
              MoreExamples.shifted1x1) as (dst & E & _ & _ & _ & Hout).
  - unfold Image.well_sized. vm_compute. discriminate.
  - apply shifted1x1_wf.
  - exists dst. split; [exact E|]. apply Hout; [vm_compute; split; [discriminate|reflexivity]..|].
    reflexivity.
Defined.

Lemma adjust_one (c : Z) :
  0 <= c < 256 ->
  c - 1 <= ContrastEffect.adjust GoFloat.one (Color.widen c) <= c /\
  (59 <= c -> ContrastEffect.adjust GoFloat.one (Color.widen c) = c).
Proof.
  intros Hc.
  pose proof (bytes_check (fun c =>
    let c' := ContrastEffect.adjust GoFloat.one (Color.widen c) in
    (c - 1 <=? c') && (c' <=? c) && ((c <? 59) || (c' =? c)))
    ltac:(vm_compute; reflexivity) c Hc) as H.
  cbv zeta in H. rewrite !andb_true_iff, orb_true_iff in H. lia.
Qed.

Lemma adjust_zero (c : Z) :
  0 <= c < 256 -> ContrastEffect.adjust GoFloat.zero (Color.widen c) = 127.
Proof.
  intros Hc. apply Z.eqb_eq.
  apply (bytes_check (fun c => ContrastEffect.adjust GoFloat.zero (Color.widen c) =? 127));
    [vm_compute; reflexivity|exact Hc].
Qed.

(** X21.  [ContrastEffect.ApplyToFrame] returns a frame of the input's size
    with bounds at the origin.  The output point [(x, y)] is made from
    [frame.At(x, y)] at the same coordinates, without the offset of the
    input's bounds, and has the alpha of that colour.  Factor 1 is not the
    identity: a channel comes back as itself or one less (the product with
    255 is truncated), it is unchanged from 59 on, and 1 becomes 0.  Factor
    0 turns every channel into 127.  So for an input whose bounds start at
    the origin every pixel keeps its alpha; for an input placed elsewhere,
    the output points outside the input's bounds are transparent, with the
    colour the effect makes of black. *)
Theorem Contrast_frame (ce : ContrastEffect.t) (frame : Image.RGBA) :
  Image.well_sized frame ->
  (forall x y, Color.wf (Image.At frame x y)) ->
  let W := Image.Dx (Image.Bounds frame) in
  let H := Image.Dy (Image.Bounds frame) in
  let kept (x y : Z) (dst : Image.RGBA) :=
    match Image.At frame x y, Image.At dst x y with
    | Color.RGBA r g b a, Color.RGBA r' g' b' a' =>
        a' = a /\
        (ContrastEffect.factor ce = GoFloat.one ->
           r - 1 <= r' <= r /\ g - 1 <= g' <= g /\ b - 1 <= b' <= b /\
           (59 <= r -> r' = r) /\ (59 <= g -> g' = g) /\ (59 <= b -> b' = b) /\
           (r = 1 -> r' = 0) /\ (g = 1 -> g' = 0) /\ (b = 1 -> b' = 0)) /\
        (ContrastEffect.factor ce = GoFloat.zero -> r' = 127 /\ g' = 127 /\ b' = 127)
    | _, _ => False
    end in
  exists dst,
    ContrastEffect.ApplyToFrame ce frame = Ok dst /\
    Image.Bounds dst = Image.mkRect 0 0 W H /\
    (forall x y, 0 <= x < W -> 0 <= y < H -> kept x y dst) /\
    (forall w h, GoInt.in_range w -> GoInt.in_range h ->
       Image.Bounds frame = Image.mkRect 0 0 w h ->
       forall x y, Image.In x y (Image.Bounds frame) = true -> kept x y dst) /\
    (forall x y, 0 <= x < W -> 0 <= y < H ->
       Image.In x y (Image.Bounds frame) = false ->
       let c := ContrastEffect.adjust (ContrastEffect.factor ce) 0 in
       Image.At dst x y = Color.RGBA c c c 0).
Proof.
  intros Hsz Hwf W H kept.
  destruct (pointwise_effect frame (ContrastEffect.pixel ce) Hsz) as (dst & E & HB & Hat).
  fold W H in HB, Hat.
  assert (Hin : forall x y, 0 <= x < W -> 0 <= y < H ->
            Image.At dst x y = Image.stored (ContrastEffect.pixel ce (Image.At frame x y))).
  { intros x y Hx Hy. rewrite Hat.
    by replace ((0 <=? x) && (x <? W) && (0 <=? y) && (y <? H)) with true
      by (symmetry; rewrite !andb_true_iff; lia). }
  assert (Hkept : forall x y, 0 <= x < W -> 0 <= y < H -> kept x y dst).
  { intros x y Hx Hy. unfold kept. rewrite Hin by assumption.
    specialize (Hwf x y). destruct (Image.At frame x y) as [r g b a|r g b a] eqn:Ec.
    2:{ exfalso. unfold Image.At in Ec. repeat case_match; discriminate. }
    cbn in Hwf. destruct Hwf as (Hr & Hg & Hb & Ha).
    unfold ContrastEffect.pixel. cbn [Color.channels Image.stored Color.toRGBA Color.fields].
    split; [by apply shiftr8_widen|]. split.
    - intros ->.
      destruct (adjust_one r Hr) as [? ?], (adjust_one g Hg) as [? ?],
        (adjust_one b Hb) as [? ?].
      assert (Hone : ContrastEffect.adjust GoFloat.one (Color.widen 1) = 0)
        by (vm_compute; reflexivity).
      repeat split; try lia; try assumption; by intros ->.
    - intros ->. rewrite !adjust_zero by assumption. done. }
  exists dst. split; [exact E|]. split; [exact HB|]. split; [exact Hkept|]. split.
  - intros w h Hw Hh Hbounds x y Hxy. apply Hkept.
    + subst W. rewrite Hbounds in Hxy |- *. destruct (Dx_origin w h Hw Hh) as [-> _].
      unfold Image.In in Hxy. cbn in Hxy. rewrite !andb_true_iff in Hxy. lia.
    + subst H. rewrite Hbounds in Hxy |- *. destruct (Dx_origin w h Hw Hh) as [_ ->].
      unfold Image.In in Hxy. cbn in Hxy. rewrite !andb_true_iff in Hxy. lia.
  - intros x y Hx Hy Hout. cbv zeta. rewrite Hin by assumption.
    rewrite (At_not_In _ _ _ Hout). reflexivity.
Qed.

Lemma Contrast_frame_witness :
  exists dst,
    ContrastEffect.ApplyToFrame (ContrastEffect.NewContrastEffect GoFloat.one)
      MoreExamples.painted2x2 = Ok dst /\
    match Image.At dst 1 1 with
    | Color.RGBA r g b a => 9 <= r <= 10 /\ a = 255
    | _ => False
    end.
Proof.
  destruct (Contrast_frame (ContrastEffect.NewContrastEffect GoFloat.one)
              MoreExamples.painted2x2) as (dst & E & _ & _ & Horigin & _).
  - unfold Image.well_sized. vm_compute. discriminate.
  - apply painted2x2_wf.
  - exists dst. split; [exact E|].
    pose proof (Horigin 2 2 ltac:(vm_compute; split; discriminate)
                  ltac:(vm_compute; split; discriminate) eq_refl 1 1 eq_refl) as H.
    change (Image.At MoreExamples.painted2x2 1 1) with (Color.RGBA 10 11 12 255) in H.
    destruct (Image.At dst 1 1) as [r g b a|]; [|done].
    destruct H as (Ha & H1 & _). destruct (H1 eq_refl) as (Hr & _). split; [lia|exact Ha].
Defined.

Lemma to_int_in_range (f : GoFloat.float64) : GoInt.in_range (GoFloat.to_int f).
Proof.
  unfold GoFloat.to_int, GoInt.in_range.
  destruct f as [s|s| |s m e]; try (unfold GoInt.min_int, GoInt.max_int; lia).
  cbv zeta. destruct (_ && _) eqn:E; [|unfold GoInt.min_int, GoInt.max_int; lia].
  apply andb_true_iff in E. lia.
Qed.

Lemma evenUp_spec (n : Z) :
  GoInt.in_range n ->
  Z.even (RotateEffect.evenUp n) = true /\ GoInt.in_range (RotateEffect.evenUp n) /\
  (RotateEffect.evenUp n <= 0 \/ 2 <= RotateEffect.evenUp n).
Proof.
  intros Hn. unfold RotateEffect.evenUp, GoInt.rem, GoInt.add.
  assert (Hev : Z.even (if Z.rem n 2 =? 0 then n else GoInt.wrap (n + 1)) = true).
  { destruct (Z.eqb_spec (Z.rem n 2) 0) as [E|E].
    - apply Z.rem_divide in E; [|lia]. destruct E as [k ->].
      rewrite Z.even_mul. cbn. apply orb_true_r.
    - rewrite wrap_even, Z.even_add. cbn.
      destruct (Z.even n) eqn:Ev; [|reflexivity]. exfalso. apply E.
      apply Z.even_spec in Ev. destruct Ev as [k ->].
      rewrite Z.mul_comm. apply Z.rem_mul. lia. }
  split; [exact Hev|]. split; [case_match; [done|apply wrap_in_range]|].
  set (r := if Z.rem n 2 =? 0 then n else GoInt.wrap (n + 1)) in *.
  destruct (Z.le_gt_cases r 0) as [|Hpos]; [by left|right].
  destruct (Z.eq_dec r 1) as [E1|]; [rewrite E1 in Hev; discriminate|lia].
Qed.

Lemma cut_spec (n : Z) :
  RotateEffect.cut n = if 4096 <? n then 4096 else n.
Proof. unfold RotateEffect.cut, RotateEffect.maxDimension. reflexivity. Qed.

(** X22.  Sizes in [RotateEffect.ApplyToFrame], whatever the angle and
    whatever [math.Cos] and [math.Sin] return.  The call never panics.  It
    succeeds only for a frame with sides in 1..8192, and then with a frame
    at the origin whose sides are even and in 2..4096.  The errors for an
    invalid or too large input report the size of the frame, and the error
    for a too large rotated size is never returned. *)
Theorem Rotate_size (m : RotateEffect.Trig) (re : RotateEffect.t) (frame : Image.RGBA) :
  let width := Image.Dx (Image.Bounds frame) in
  let height := Image.Dy (Image.Bounds frame) in
  match RotateEffect.ApplyToFrame m re frame with
  | Done dst =>
      0 < width <= 8192 /\ 0 < height <= 8192 /\
      exists w h, Image.Bounds dst = Image.mkRect 0 0 w h /\
        Z.even w = true /\ Z.even h = true /\ 2 <= w <= 4096 /\ 2 <= h <= 4096
  | Failed (RotateEffect.ErrInvalidInputSize w h) =>
      w = width /\ h = height /\ (width <= 0 \/ height <= 0)
  | Failed (RotateEffect.ErrInputTooLarge w h) =>
      w = width /\ h = height /\ (8192 < width \/ 8192 < height)
  | Failed (RotateEffect.ErrInvalidRotatedSize w h) =>
      0 < width <= 8192 /\ 0 < height <= 8192 /\ (w <= 0 \/ h <= 0)
  | Failed (RotateEffect.ErrRotatedTooLarge _ _ _) => False
  | Panicked _ => False
  end.
Proof.
  intros width height. unfold RotateEffect.ApplyToFrame. fold width height.
  destruct (Z.leb_spec width 0); [cbn; lia|].
  destruct (Z.leb_spec height 0); [cbn; lia|]. cbn [orb].
  destruct (Z.ltb_spec 8192 width); [cbn; lia|].
  destruct (Z.ltb_spec 8192 height); [cbn; lia|]. cbn [orb]. cbv zeta.
  match goal with |- context [RotateEffect.cut (RotateEffect.evenUp (GoFloat.to_int ?a))] =>
    set (fw := a) end.
  match goal with |- context [RotateEffect.cut (RotateEffect.evenUp (GoFloat.to_int ?a))] =>
    lazymatch a with fw => fail | _ => set (fh := a) end end.
  destruct (evenUp_spec (GoFloat.to_int fw) (to_int_in_range fw)) as (Hew & Hrw & Hw2).
  destruct (evenUp_spec (GoFloat.to_int fh) (to_int_in_range fh)) as (Heh & Hrh & Hh2).
  set (w0 := RotateEffect.evenUp (GoFloat.to_int fw)) in *.
  set (h0 := RotateEffect.evenUp (GoFloat.to_int fh)) in *.
  rewrite !cut_spec.
  set (w := if 4096 <? w0 then 4096 else w0). set (h := if 4096 <? h0 then 4096 else h0).
  assert (Hw : Z.even w = true /\ w <= 4096 /\ (w <= 0 \/ 2 <= w)).
  { subst w. destruct (Z.ltb_spec 4096 w0); [split; [done|lia]|]. split; [done|]. lia. }
  assert (Hh : Z.even h = true /\ h <= 4096 /\ (h <= 0 \/ 2 <= h)).
  { subst h. destruct (Z.ltb_spec 4096 h0); [split; [done|lia]|]. split; [done|]. lia. }
  clearbody w h. destruct Hw as (Hwe & Hwmax & Hwpos), Hh as (Hhe & Hhmax & Hhpos).
  destruct (Z.leb_spec w 0); [cbn; lia|]. destruct (Z.leb_spec h 0); [cbn; lia|]. cbn [orb].
  assert (Hmul : GoInt.mul w h = w * h).
  { unfold GoInt.mul. apply wrap_small. unfold GoInt.in_range, GoInt.min_int, GoInt.max_int. nia. }
  rewrite Hmul. destruct (Z.ltb_spec (16 * 1024 * 1024) (w * h)); [nia|].
  destruct (NewRGBA_sized w h) as [-> HR].
  { unfold GoInt.in_range, GoInt.min_int, GoInt.max_int. lia. }
  { unfold GoInt.in_range, GoInt.min_int, GoInt.max_int. lia. }
  { apply mul3NonNeg_4_ok. nia. }
  split; [lia|]. split; [lia|]. exists w, h.
  split; [|repeat split; try done; lia].
  rewrite <- HR.
  rewrite (for_loop_Bounds _ _ (Image.mkRGBA ∅ (Image.Rect 0 0 w h))); [done|].
  intros y d. apply for_loop_Bounds. intros x d'.
  destruct (_ && _); [apply Set_Bounds|done].
Qed.
